(** * File-sequence bot: session lifecycle, ordering and batched delivery

    A shallow embedding of [src/backend/bot.js] (the batch-processing
    version of the bot): the two filename keys [getQualityRank] and
    [getEpisodeNumber], the sort comparator of [endSequence], the retrying
    delivery loop ([retryOperation], [processBatch]) and the command
    handlers working on the [userFileSequences] map.

    Conventions.
    - A JavaScript string is a [string]; a character stands for a UTF-16
      code unit below 256.
    - JavaScript numbers that are integers in the program are [Z].
    - The [Map] [userFileSequences] is a [gmap Z Session] keyed by user id.
    - Asynchronous code is sequential code in a state-and-exception monad
      whose state records the session store, the clock, the statistics
      collection and the trace of calls to the outside world.
    - Every awaited call to Telegram or to the database may be rejected;
      what the outside world answers is a parameter, [outcome].
    - [localeCompare] is a parameter; what a property needs of it is a
      hypothesis of that property.
    - A handler runs to completion before the next update is handled.
    - [console.log] and [console.error] are left out. *)

From Stdlib Require Import ZArith Ascii String List Lia Bool Permutation Sorted.
From Stdlib Require Import OrderedTypeEx.
From stdpp Require Import base option list gmap strings pretty.

Local Open Scope string_scope.
Local Open Scope list_scope.
Local Open Scope Z_scope.

(** ** Characters and regular-expression classes *)

Module Chars.

(** [\d] without the [u] flag: the ten ASCII digits. *)
Definition is_digit (c : ascii) : bool :=
  let n := nat_of_ascii c in (48 <=? n)%nat && (n <=? 57)%nat.

(** [\s] restricted to code units below 256: TAB, LF, VT, FF, CR, SPACE and
    NO-BREAK SPACE. *)
Definition is_space (c : ascii) : bool :=
  let n := nat_of_ascii c in
  ((9 <=? n)%nat && (n <=? 13)%nat) || (n =? 32)%nat || (n =? 160)%nat.

(** Canonicalisation used by the [i] flag on ASCII letters. *)
Definition to_upper (c : ascii) : ascii :=
  let n := nat_of_ascii c in
  if (97 <=? n)%nat && (n <=? 122)%nat then ascii_of_nat (n - 32) else c.

Definition ci_eqb (p c : ascii) : bool :=
  Ascii.eqb (to_upper p) (to_upper c).

Definition digit_value (c : ascii) : Z := Z.of_nat (nat_of_ascii c) - 48.

End Chars.

Import Chars.

(** ** Matching the two regular expressions *)

Module Regex.

(** A literal matched at the head of [s]; the result is the rest of [s]. *)
Fixpoint strip_literal (p s : string) : option string :=
  match p, s with
  | EmptyString, _ => Some s
  | String a p', String c s' =>
      if Ascii.eqb a c then strip_literal p' s' else None
  | String _ _, EmptyString => None
  end.

(** The same with the [i] flag. *)
Fixpoint strip_literal_ci (p s : string) : option string :=
  match p, s with
  | EmptyString, _ => Some s
  | String a p', String c s' =>
      if ci_eqb a c then strip_literal_ci p' s' else None
  | String _ _, EmptyString => None
  end.

(** First alternative (in the order written) that lets [k] succeed. *)
Fixpoint first_alternative {A B} (k : A -> option B) (alts : list A) : option B :=
  match alts with
  | [] => None
  | a :: rest =>
      match k a with
      | Some r => Some r
      | None => first_alternative k rest
      end
  end.

(** *** [/(480p|540p|720p|1080p|2160p|4K)/] *)

Definition quality_tokens : list string :=
  ["480p"; "540p"; "720p"; "1080p"; "2160p"; "4K"].

(** The alternation tried at one position: the token captured there. *)
Definition quality_at (s : string) : option string :=
  first_alternative
    (fun tok => match strip_literal tok s with
                | Some _ => Some tok
                | None => None
                end)
    quality_tokens.

(** [String.prototype.match] without the [g] flag: the leftmost position
    at which the pattern matches. *)
Fixpoint quality_match (s : string) : option string :=
  match quality_at s with
  | Some tok => Some tok
  | None =>
      match s with
      | EmptyString => None
      | String _ s' => quality_match s'
      end
  end.

(** *** [/(?:E|Ep|Episode|Part)?\s*(\d{1,3})/i] *)

Definition episode_markers : list string := ["E"; "Ep"; "Episode"; "Part"].

(** Greedy [\d{0,n}]. *)
Fixpoint take_digits (n : nat) (s : string) : string :=
  match n, s with
  | S n', String c s' =>
      if is_digit c then String c (take_digits n' s') else EmptyString
  | _, _ => EmptyString
  end.

(** The capture group [(\d{1,3})] at the head of [s]. *)
Definition digits_1_3 (s : string) : option string :=
  match s with
  | String c _ => if is_digit c then Some (take_digits 3 s) else None
  | EmptyString => None
  end.

(** [\s*(\d{1,3})]: the star takes one more blank when it can and gives it
    back when the rest then fails. *)
Fixpoint ws_digits (s : string) : option string :=
  match s with
  | String c s' =>
      if is_space c then
        match ws_digits s' with
        | Some r => Some r
        | None => digits_1_3 s
        end
      else digits_1_3 s
  | EmptyString => None
  end.

(** The whole pattern at one position: the optional group first tries its
    alternatives in order, then the empty match. *)
Definition episode_at (s : string) : option string :=
  match first_alternative
          (fun m => match strip_literal_ci m s with
                    | Some rest => ws_digits rest
                    | None => None
                    end)
          episode_markers with
  | Some r => Some r
  | None => ws_digits s
  end.

Fixpoint episode_match (s : string) : option string :=
  match episode_at s with
  | Some r => Some r
  | None =>
      match s with
      | EmptyString => None
      | String _ s' => episode_match s'
      end
  end.

End Regex.

Import Regex.

(** ** The sort keys *)

(** [parseInt] on a string of decimal digits. *)
Fixpoint parseInt_from (acc : Z) (s : string) : Z :=
  match s with
  | EmptyString => acc
  | String c s' => parseInt_from (acc * 10 + digit_value c) s'
  end.

Definition parseInt (s : string) : Z := parseInt_from 0 s.

(** The object literal [qualityOrder]; [None] is [undefined]. *)
Definition qualityOrder (key : string) : option Z :=
  if String.eqb key "480p" then Some 0
  else if String.eqb key "540p" then Some 1
  else if String.eqb key "720p" then Some 2
  else if String.eqb key "1080p" then Some 3
  else if String.eqb key "2160p" then Some 4
  else if String.eqb key "4K" then Some 5
  else None.

Definition NO_QUALITY : Z := 99.
Definition NO_EPISODE : Z := 9999.

(** [getQualityRank]. The lookup of a captured token in [qualityOrder]
    always succeeds ([quality_match_in_table] below); [from_option] only
    makes the function total. *)
Definition getQualityRank (name : string) : Z :=
  match quality_match name with
  | Some tok => from_option id NO_QUALITY (qualityOrder tok)
  | None => NO_QUALITY
  end.

(** [getEpisodeNumber]. *)
Definition getEpisodeNumber (name : string) : Z :=
  match episode_match name with
  | Some digits => parseInt digits
  | None => NO_EPISODE
  end.

(** ** Data model *)

(** The three message fields the bot listens to. *)
Inductive FileType := document | video | audio.

(** A Telegram file object ([message.document] and the like). *)
Record TgFile := {
  file_id : string;
  file_name : option string;
  file_size : option Z
}.

(** [ctx.message]. *)
Record Message := {
  from_id : Z;
  msg_document : option TgFile;
  msg_video : option TgFile;
  msg_audio : option TgFile;
  caption : option string
}.

(** [message[fileType]]. *)
Definition msg_field (m : Message) (t : FileType) : option TgFile :=
  match t with
  | document => msg_document m
  | video => msg_video m
  | audio => msg_audio m
  end.

(** [a || b] on values that are objects or [undefined]. *)
Definition or_else {A} (a b : option A) : option A :=
  match a with
  | Some x => Some x
  | None => b
  end.

(** [message.document || message.video || message.audio]. *)
Definition media (m : Message) : option TgFile :=
  or_else (or_else (msg_document m) (msg_video m)) (msg_audio m).

(** [s || fallback] on a string that may be [undefined]: the empty string
    is falsy too. *)
Definition str_or (s : option string) (fallback : string) : string :=
  match s with
  | Some x => if String.eqb x "" then fallback else x
  | None => fallback
  end.

(** [n || 0] on a number that may be [undefined]. *)
Definition num_or_zero (n : option Z) : Z := from_option id 0 n.

(** The object pushed on [userData.files]. *)
Record FileInfo := {
  message : Message;
  fileType : FileType;
  fileName : string;
  fileSize : Z;
  timestamp : Z
}.

(** A value of the [userFileSequences] map. *)
Record Session := {
  files : list FileInfo;
  startTime : Z;
  lastActivity : Z
}.

Definition has_media (x : FileInfo) : Prop := is_Some (media (message x)).

(** Errors are represented by their [message]. *)
Definition Error := string.

Inductive Result (A : Type) :=
  | Ok (a : A)
  | Throw (e : Error).
Arguments Ok {A} a.
Arguments Throw {A} e.

Definition is_ok {A} (r : Result A) : bool :=
  match r with Ok _ => true | Throw _ => false end.

(** ** The ordering engine *)

Definition TYPE_ERROR : Error :=
  "Cannot read properties of undefined (reading 'file_name')".

Section Ordering.

(** [String.prototype.localeCompare] of the host: negative, zero or
    positive. *)
Variable localeCompare : string -> string -> Z.

(** [x || y] on numbers. *)
Definition num_or (x y : Z) : Z := if Z.eqb x 0 then y else x.

(** The value returned by the comparator once both names are known. *)
Definition compareNames (nameA nameB : string) : Z :=
  num_or (getQualityRank nameA - getQualityRank nameB)
    (num_or (getEpisodeNumber nameA - getEpisodeNumber nameB)
       (localeCompare nameA nameB)).

(** [fileA.file_name || ''] where [fileA] is the media of the item; reading
    [file_name] of [undefined] throws. *)
Definition sortName (a : FileInfo) : Result string :=
  match media (message a) with
  | Some f => Ok (str_or (file_name f) "")
  | None => Throw TYPE_ERROR
  end.

(** The arrow function passed to [userData.files.sort]. *)
Definition comparator (a b : FileInfo) : Result Z :=
  match sortName a with
  | Throw e => Throw e
  | Ok nameA =>
      match sortName b with
      | Throw e => Throw e
      | Ok nameB => Ok (compareNames nameA nameB)
      end
  end.

End Ordering.

(** [Array.prototype.sort] with a comparator. The language requires a
    stable sort; it is modelled by a stable insertion sort, which calls the
    comparator and lets its exceptions through. *)
Section ArraySort.

Context {A : Type}.
Variable cmp : A -> A -> Result Z.

Fixpoint insert_sorted (x : A) (l : list A) : Result (list A) :=
  match l with
  | [] => Ok [x]
  | y :: l' =>
      match cmp x y with
      | Throw e => Throw e
      | Ok c =>
          if Z.leb c 0 then Ok (x :: l)
          else match insert_sorted x l' with
               | Ok r => Ok (y :: r)
               | Throw e => Throw e
               end
      end
  end.

Fixpoint array_sort (l : list A) : Result (list A) :=
  match l with
  | [] => Ok []
  | x :: l' =>
      match array_sort l' with
      | Ok s => insert_sorted x s
      | Throw e => Throw e
      end
  end.

End ArraySort.

(** The same sort for a comparator that cannot throw; used to state what
    [array_sort] computes. *)
Section PureSort.

Context {A : Type}.
Variable c : A -> A -> Z.

Fixpoint insert_by (x : A) (l : list A) : list A :=
  match l with
  | [] => [x]
  | y :: l' => if Z.leb (c x y) 0 then x :: l else y :: insert_by x l'
  end.

Fixpoint sort_by (l : list A) : list A :=
  match l with
  | [] => []
  | x :: l' => insert_by x (sort_by l')
  end.

End PureSort.

(** ** The outside world *)

(** Fields of a document of the [users] collection that [endSequence]
    reads or writes. *)
Record UserDoc := {
  total_sequences : option Z;
  last_sequence_date : option Z;
  last_sequence_count : option Z
}.

(** The texts sent with [ctx.reply], with the values interpolated in them. *)
Inductive Reply :=
  | NoActiveSession            (* No active sequencing session. Use /ssequence ... *)
  | UnsupportedFileType        (* Unsupported file type. Send documents, ... *)
  | FileLimitReached (limit : Z)   (* Maximum file limit (limit) reached. ... *)
  | FilesCollected (fileCount : Z) (* fileCount files collected and ready ... *)
  | ErrorProcessingFile        (* Error processing file, but continuing ... *)
  | NoOngoingProcess           (* No ongoing file sequencing process. ... *)
  | NoFilesToSequence          (* No files to sequence. Send some files ... *)
  | StartingToSequence (totalFiles : Z)   (* Starting to sequence n files... *)
  | ProcessingBatch (number total : Z)    (* Processing batch i+1/total... *)
  | SequencingCompleted (totalFiles totalSuccess : Z)
      (failedLine : option Z) (errorsToShow : list string) (more : option Z)
  | SequencingError            (* An error occurred during the sequencing ... *)
  | AlreadyActive (fileCount : Z)   (* You already have an active ... with n files *)
  | SequencingStarted (limit : Z)   (* File sequencing process started! ... *)
  | SessionStatus (fileCount limit duration : Z)
  | Canceled (fileCount : Z)        (* ... canceled. n files were discarded. *)
  | NoSessionFound.            (* No active sequencing session found. ... *)

(** Calls whose promise may be rejected. *)
Inductive Call :=
  | CtxReply (text : Reply)
  | CtxReact
  | ReplyWithDocument (id : string) (cap : string)
  | ReplyWithVideo (id : string) (cap : string)
  | ReplyWithAudio (id : string) (cap : string)
  | FindOne (user_id : Z)
  | UpdateOne (user_id : Z) (doc : UserDoc).

(** The three places where [sleep] is called; the label is added to the
    recorded event to tell them apart, [sleep] itself takes the duration
    only. *)
Inductive SleepSite := Backoff | BetweenFiles | BetweenBatches.

Inductive Event :=
  | Called (c : Call) (rejected : option Error)
  | Slept (site : SleepSite) (ms : Z).

Record World := mkWorld {
  userFileSequences : gmap Z Session;
  usersCollection : gmap Z UserDoc;
  clock : Z;
  calls : nat;
  trace : list Event
}.

Definition initial_world (t : Z) : World :=
  mkWorld ∅ ∅ t 0 [].

(** [CONFIG]. *)
Module CONFIG.

Definition BATCH_SIZE : Z := 50.
Definition DELAY_BETWEEN_BATCHES : Z := 100.
Definition DELAY_BETWEEN_FILES : Z := 100.
Definition MAX_RETRIES : Z := 3.
Definition RETRY_DELAY : Z := 1000.
Definition MAX_FILES_PER_USER : Z := 200.
Definition PROGRESS_UPDATE_INTERVAL : Z := 50.

End CONFIG.

(** ** A state and exception monad for [async] functions *)

Definition M (A : Type) : Type := World -> Result A * World.

Definition ret {A} (a : A) : M A := fun w => (Ok a, w).

Definition throw {A} (e : Error) : M A := fun w => (Throw e, w).

Definition bind {A B} (m : M A) (k : A -> M B) : M B :=
  fun w =>
    match m w with
    | (Ok a, w') => k a w'
    | (Throw e, w') => (Throw e, w')
    end.

Notation "x <- m ;; k" := (bind m (fun x => k))
  (at level 100, m at next level, right associativity).
Notation "m ;; k" := (bind m (fun _ => k))
  (at level 100, right associativity).

(** [try { m } catch (error) { h error }]. *)
Definition try_catch {A} (m : M A) (h : Error -> M A) : M A :=
  fun w =>
    match m w with
    | (Ok a, w') => (Ok a, w')
    | (Throw e, w') => h e w'
    end.

(** [try { m } finally { f }]. *)
Definition try_finally {A} (m : M A) (f : M unit) : M A :=
  fun w =>
    match m w with
    | (r, w') =>
        match f w' with
        | (Ok _, w'') => (r, w'')
        | (Throw e, w'') => (Throw e, w'')
        end
    end.

Definition when (b : bool) (m : M unit) : M unit :=
  if b then m else ret tt.

(** A synchronous computation that may throw. *)
Definition lift {A} (r : Result A) : M A := fun w => (r, w).

Definition gets {A} (f : World -> A) : M A := fun w => (Ok (f w), w).

Definition modify (f : World -> World) : M unit := fun w => (Ok tt, f w).

(** [new Date()] and [Date.now()]. *)
Definition now : M Z := gets clock.

(** [sleep(ms)]; it never rejects. *)
Definition sleep (site : SleepSite) (ms : Z) : M unit :=
  modify (fun w =>
    mkWorld (userFileSequences w) (usersCollection w)
      (clock w + Z.max 0 ms) (calls w) (trace w ++ [Slept site ms])).

Definition set_sessions (f : gmap Z Session -> gmap Z Session) : M unit :=
  modify (fun w =>
    mkWorld (f (userFileSequences w)) (usersCollection w)
      (clock w) (calls w) (trace w)).

Definition set_users (f : gmap Z UserDoc -> gmap Z UserDoc) : M unit :=
  modify (fun w =>
    mkWorld (userFileSequences w) (f (usersCollection w))
      (clock w) (calls w) (trace w)).

Section Bot.

Variable localeCompare : string -> string -> Z.

(** What the outside world answers to the [n]-th call: [None] when the
    promise resolves, [Some e] when it is rejected with message [e]. *)
Variable outcome : nat -> Call -> option Error.

Definition external (c : Call) : M unit :=
  fun w =>
    let r := outcome (calls w) c in
    let w' := mkWorld (userFileSequences w) (usersCollection w)
                (clock w) (S (calls w)) (trace w ++ [Called c r]) in
    match r with
    | None => (Ok tt, w')
    | Some e => (Throw e, w')
    end.

Definition reply (text : Reply) : M unit := external (CtxReply text).

(** *** [retryOperation] *)

Section Retry.

Context {A : Type}.
Variable operation : M A.
Variables maxRetries delay : Z.

(** The [for] loop from [attempt]; [fuel] bounds the iterations left. The
    result [None] is the [undefined] returned when the loop ends. *)
Fixpoint retry_from (fuel : nat) (attempt : Z) : M (option A) :=
  match fuel with
  | O => ret None
  | S fuel' =>
      if attempt <=? maxRetries then
        r <- try_catch
               (a <- operation ;; ret (Some a))
               (fun error =>
                  if attempt =? maxRetries then throw error
                  else
                    let backoffDelay := delay * 2 ^ (attempt - 1) in
                    sleep Backoff backoffDelay ;; ret None) ;;
        match r with
        | Some a => ret (Some a)
        | None => retry_from fuel' (attempt + 1)
        end
      else ret None
  end.

Definition retryOperation : M (option A) :=
  retry_from (Z.to_nat maxRetries) 1.

End Retry.

(** *** [processBatch] *)

Record Results := mkResults {
  success : Z;
  failed : Z;
  errors : list string
}.

(** The operation retried for one item: a call chosen by the kind of the
    message, none when the message has none of the three kinds. *)
Definition sendCall (message : Message) (file : TgFile) : option Call :=
  let caption := str_or (caption message) "" in
  match msg_document message, msg_video message, msg_audio message with
  | Some _, _, _ => Some (ReplyWithDocument (file_id file) caption)
  | None, Some _, _ => Some (ReplyWithVideo (file_id file) caption)
  | None, None, Some _ => Some (ReplyWithAudio (file_id file) caption)
  | None, None, None => None
  end.

Definition sendFile (message : Message) (file : TgFile) : M unit :=
  match sendCall message file with
  | Some c => external c
  | None => ret tt
  end.

(** Error description pushed on [results.errors]. *)
Definition describe_error (fileInfo : FileInfo) (error : Error) : string :=
  fileName fileInfo +:+ ": " +:+ error.

(** One iteration of the [for] loop of [processBatch], for [batch[i]]. *)
Definition processItem (batchLength i : Z) (fileInfo : FileInfo)
    (results : Results) : M Results :=
  let message := message fileInfo in
  match media message with
  | None =>
      ret (mkResults (success results) (failed results + 1) (errors results))
  | Some file =>
      try_catch
        (retryOperation (sendFile message file)
           CONFIG.MAX_RETRIES CONFIG.RETRY_DELAY ;;
         let results' :=
           mkResults (success results + 1) (failed results) (errors results) in
         when (i <? batchLength - 1)
           (sleep BetweenFiles CONFIG.DELAY_BETWEEN_FILES) ;;
         ret results')
        (fun error =>
           ret (mkResults (success results) (failed results + 1)
                  (errors results ++ [describe_error fileInfo error])))
  end.

(** The loop from index [i], [rest] being the items [batch[i..]]. *)
Fixpoint processBatch_from (batchLength i : Z) (rest : list FileInfo)
    (results : Results) : M Results :=
  match rest with
  | [] => ret results
  | fileInfo :: rest' =>
      results' <- processItem batchLength i fileInfo results ;;
      processBatch_from batchLength (i + 1) rest' results'
  end.

Definition processBatch (batch : list FileInfo)
    (batchIndex totalBatches : Z) : M Results :=
  processBatch_from (Z.of_nat (length batch)) 0 batch (mkResults 0 0 []).

(** *** [endSequence] *)

(** [array.slice(from, to)] for [0 <= from <= to]. *)
Definition slice {A} (l : list A) (from to : Z) : list A :=
  take (Z.to_nat (to - from)) (drop (Z.to_nat from) l).

(** The loop that fills [batches], from index [i]. *)
Fixpoint batches_from (fuel : nat) (i : Z) (l : list FileInfo)
    : list (list FileInfo) :=
  match fuel with
  | O => []
  | S fuel' =>
      if i <? Z.of_nat (length l) then
        slice l i (i + CONFIG.BATCH_SIZE)
          :: batches_from fuel' (i + CONFIG.BATCH_SIZE) l
      else []
  end.

Definition make_batches (l : list FileInfo) : list (list FileInfo) :=
  batches_from (length l) 0 l.

(** [totalSuccess], [totalFailed] and [allErrors]. *)
Record Totals := mkTotals {
  totalSuccess : Z;
  totalFailed : Z;
  allErrors : list string
}.

(** The loop over [batches], from index [i]. *)
Fixpoint deliver_from (batchesLength i : Z) (rest : list (list FileInfo))
    (t : Totals) : M Totals :=
  match rest with
  | [] => ret t
  | batch :: rest' =>
      when (batchesLength >? 1)
        (reply (ProcessingBatch (i + 1) batchesLength)) ;;
      results <- processBatch batch i batchesLength ;;
      let t' := mkTotals (totalSuccess t + success results)
                  (totalFailed t + failed results)
                  (allErrors t ++ errors results) in
      when (i <? batchesLength - 1)
        (sleep BetweenBatches CONFIG.DELAY_BETWEEN_BATCHES) ;;
      deliver_from batchesLength (i + 1) rest' t'
  end.

(** The final summary. *)
Definition summaryMessage (totalFiles : Z) (t : Totals) : Reply :=
  let shown := totalFailed t >? 0 in
  let listed := shown && (Z.of_nat (length (allErrors t)) >? 0) in
  SequencingCompleted totalFiles (totalSuccess t)
    (if shown then Some (totalFailed t) else None)
    (if listed then take 5 (allErrors t) else [])
    (if listed && (Z.of_nat (length (allErrors t)) >? 5)
     then Some (Z.of_nat (length (allErrors t)) - 5) else None).

(** The statistics update retried by [endSequence]. There is no upsert: a
    missing document stays missing. *)
Definition updateStatistics (userId : Z) (totalSuccess : Z) : M unit :=
  external (FindOne userId) ;;
  userDoc <- gets (fun w => usersCollection w !! userId) ;;
  let totalSequences :=
    num_or_zero (userDoc ≫= total_sequences) + totalSuccess in
  date <- now ;;
  let doc := Build_UserDoc (Some totalSequences) (Some date)
               (Some totalSuccess) in
  external (UpdateOne userId doc) ;;
  set_users (alter (fun _ => doc) userId).

(** The body of the [try] block of [endSequence]. The array is sorted in
    place, so the session in the map sees the sorted files. *)
Definition sequenceFiles (userId : Z) (userData : Session) (totalFiles : Z)
    : M unit :=
  sorted <- lift (array_sort (comparator localeCompare) (files userData)) ;;
  set_sessions
    (alter (fun s => Build_Session sorted (startTime s) (lastActivity s))
       userId) ;;
  let batches := make_batches sorted in
  t <- deliver_from (Z.of_nat (length batches)) 0 batches (mkTotals 0 0 []) ;;
  reply (summaryMessage totalFiles t) ;;
  try_catch
    (retryOperation (updateStatistics userId (totalSuccess t))
       CONFIG.MAX_RETRIES CONFIG.RETRY_DELAY ;;
     ret tt)
    (fun error => ret tt).

Definition endSequence (msg : Message) : M unit :=
  let userId := from_id msg in
  found <- gets (fun w => userFileSequences w !! userId) ;;
  match found with
  | None => reply NoOngoingProcess
  | Some userData =>
      if Z.of_nat (length (files userData)) =? 0 then
        reply NoFilesToSequence ;;
        set_sessions (delete userId)
      else
        let totalFiles := Z.of_nat (length (files userData)) in
        reply (StartingToSequence totalFiles) ;;
        try_finally
          (try_catch
             (sequenceFiles userId userData totalFiles)
             (fun error => reply SequencingError))
          (set_sessions (delete userId))
  end.

(** *** [processFileSequence] *)

Definition fileType_name (t : FileType) : string :=
  match t with
  | document => "document"
  | video => "video"
  | audio => "audio"
  end.

Definition processFileSequence (msg : Message) (fileType : FileType)
    : M unit :=
  let userId := from_id msg in
  found <- gets (fun w => userFileSequences w !! userId) ;;
  match found with
  | None => reply NoActiveSession
  | Some userData =>
      match msg_field msg fileType with
      | None => reply UnsupportedFileType
      | Some file =>
          if Z.of_nat (length (files userData)) >=? CONFIG.MAX_FILES_PER_USER
          then reply (FileLimitReached CONFIG.MAX_FILES_PER_USER)
          else
            try_catch
              (stamp <- now ;;
               date <- now ;;
               let fileInfo :=
                 Build_FileInfo msg fileType
                   (str_or (file_name file)
                      (fileType_name fileType +:+ "_" +:+ pretty stamp))
                   (num_or_zero (file_size file))
                   date in
               activity <- now ;;
               let userData' :=
                 Build_Session (files userData ++ [fileInfo])
                   (startTime userData) activity in
               set_sessions (insert userId userData') ;;
               let fileCount := Z.of_nat (length (files userData')) in
               if (fileCount mod CONFIG.PROGRESS_UPDATE_INTERVAL =? 0)
                  || (fileCount <=? 5)
               then reply (FilesCollected fileCount)
               else external CtxReact)
              (fun error => reply ErrorProcessingFile)
      end
  end.

(** *** The command handlers registered by [initializeBot] *)

Definition ssequence (msg : Message) : M unit :=
  let userId := from_id msg in
  found <- gets (fun w => userFileSequences w !! userId) ;;
  match found with
  | Some userData =>
      reply (AlreadyActive (Z.of_nat (length (files userData))))
  | None =>
      started <- now ;;
      activity <- now ;;
      set_sessions (insert userId (Build_Session [] started activity)) ;;
      reply (SequencingStarted CONFIG.MAX_FILES_PER_USER)
  end.

(** [Math.round] of a number of milliseconds divided by 1000. *)
Definition round_seconds (ms : Z) : Z := (ms + 500) / 1000.

Definition status (msg : Message) : M unit :=
  let userId := from_id msg in
  found <- gets (fun w => userFileSequences w !! userId) ;;
  match found with
  | Some userData =>
      let fileCount := Z.of_nat (length (files userData)) in
      date <- now ;;
      let duration := round_seconds (date - startTime userData) in
      reply (SessionStatus fileCount CONFIG.MAX_FILES_PER_USER duration)
  | None => reply NoActiveSession
  end.

Definition cancel (msg : Message) : M unit :=
  let userId := from_id msg in
  found <- gets (fun w => userFileSequences w !! userId) ;;
  match found with
  | Some userData =>
      let fileCount := Z.of_nat (length (files userData)) in
      set_sessions (delete userId) ;;
      reply (Canceled fileCount)
  | None => reply NoSessionFound
  end.

(** *** [cleanupInactiveSessions] *)

Definition TIMEOUT : Z := 30 * 60 * 1000.

Definition cleanupInactiveSessions : M unit :=
  date <- now ;;
  set_sessions
    (filter (fun entry => ¬ (date - lastActivity (snd entry) > TIMEOUT))).

(** *** The bot as a transition system *)

Inductive Update :=
  | Command_ssequence (msg : Message)
  | Command_status (msg : Message)
  | Command_esequence (msg : Message)
  | Command_cancel (msg : Message)
  | On_file (fileType : FileType) (msg : Message)
  | Timer_cleanup
  | Elapse (ms : Z).

Definition handle (u : Update) : M unit :=
  match u with
  | Command_ssequence msg => ssequence msg
  | Command_status msg => status msg
  | Command_esequence msg => endSequence msg
  | Command_cancel msg => cancel msg
  | On_file fileType msg => processFileSequence msg fileType
  | Timer_cleanup => cleanupInactiveSessions
  | Elapse ms =>
      modify (fun w =>
        mkWorld (userFileSequences w) (usersCollection w)
          (clock w + Z.max 0 ms) (calls w) (trace w))
  end.

(** A handler runs to completion; when it throws, the world stays as the
    handler left it. *)
Definition step (w : World) (u : Update) : World := snd (handle u w).

Definition run (w : World) (us : list Update) : World :=
  fold_left step us w.

Inductive reachable : World -> Prop :=
  | reachable_init t : reachable (initial_world t)
  | reachable_step w u : reachable w -> reachable (step w u).

End Bot.

(** ** Vocabulary used to state the properties *)

(** [tok] occurs in [s] as a substring. *)
Definition occurs (tok s : string) : Prop :=
  exists pre post, s = pre +:+ tok +:+ post.

Fixpoint all_chars (P : ascii -> bool) (s : string) : bool :=
  match s with
  | EmptyString => true
  | String c s' => P c && all_chars P s'
  end.

Definition no_digit (s : string) : bool :=
  all_chars (fun c => negb (is_digit c)) s.

Definition all_digits (s : string) : bool := all_chars is_digit s.

Definition starts_with_digit (s : string) : bool :=
  match s with
  | String c _ => is_digit c
  | EmptyString => false
  end.

(** The digits captured by the episode pattern, read off the name: those
    at the first digit of the name, three at most. *)
Fixpoint leading_digits (s : string) : option string :=
  match s with
  | EmptyString => None
  | String c s' =>
      if is_digit c then Some (take_digits 3 s) else leading_digits s'
  end.

(** The maximal run of digits at the head of [s]. *)
Fixpoint digit_run (s : string) : string :=
  match s with
  | String c s' => if is_digit c then String c (digit_run s') else EmptyString
  | EmptyString => EmptyString
  end.

(** The first maximal run of digits of [s] that has at most three digits;
    [inside_run] tells that the character before [s] is a digit. *)
Fixpoint standalone_from (inside_run : bool) (s : string) : option string :=
  match s with
  | EmptyString => None
  | String c s' =>
      if is_digit c then
        if inside_run then standalone_from true s'
        else if (String.length (digit_run s) <=? 3)%nat then Some (digit_run s)
             else standalone_from true s'
      else standalone_from false s'
  end.

(** The episode key in the words of the specification: the first
    standalone integer of one to three digits, and 9999 when there is
    none. *)
Definition episode_per_spec (name : string) : Z :=
  match standalone_from false name with
  | Some digits => parseInt digits
  | None => NO_EPISODE
  end.

(** ASCII letters, the characters of the episode markers. *)
Definition is_letter (c : ascii) : bool :=
  let n := nat_of_ascii c in
  ((65 <=? n)%nat && (n <=? 90)%nat) || ((97 <=? n)%nat && (n <=? 122)%nat).

(** The name under which an item with a media is sorted. *)
Definition sortKeyName (a : FileInfo) : string :=
  match media (message a) with
  | Some f => str_or (file_name f) ""
  | None => ""
  end.

(** The comparator on items that have a media. *)
Definition compareItems (localeCompare : string -> string -> Z)
    (a b : FileInfo) : Z :=
  compareNames localeCompare (sortKeyName a) (sortKeyName b).

(** What is expected of a comparison function: the two directions agree,
    and "not after" is transitive. *)
Definition sign_antisymmetric {A} (c : A -> A -> Z) : Prop :=
  forall a b, Z.sgn (c b a) = - Z.sgn (c a b).

Definition le_transitive {A} (c : A -> A -> Z) : Prop :=
  forall a b d, c a b <= 0 -> c b d <= 0 -> c a d <= 0.

(** Comparison of strings by code units, an instance of [localeCompare]. *)
Definition codeUnitCompare (a b : string) : Z :=
  match String.compare a b with
  | Lt => -1
  | Eq => 0
  | Gt => 1
  end.

(** A document sent by user [uid], with file id [id] and file name [name]. *)
Definition document_message (uid : Z) (id : string) (name : option string)
    : Message :=
  Build_Message uid (Some (Build_TgFile id name None)) None None None.

Definition document_item (uid : Z) (id : string) (name : option string)
    (t : Z) : FileInfo :=
  Build_FileInfo (document_message uid id name) document
    (str_or name ("document_" +:+ pretty t)) 0 t.

(** A stored item whose message carries no media at all. *)
Definition empty_item (uid : Z) (name : string) : FileInfo :=
  Build_FileInfo (Build_Message uid None None None None) document name 0 0.

(** The order and the equivalence induced by a comparison function. *)
Definition not_after {A} (c : A -> A -> Z) (x y : A) : Prop := c x y <= 0.

Definition same_rank {A} (c : A -> A -> Z) (x y : A) : bool := c x y =? 0.

(** Sample items. *)
Definition show_480p_E02 : FileInfo :=
  document_item 7 "file-1" (Some "Show.480p.E02.mkv") 1000.
Definition show_720p_E01 : FileInfo :=
  document_item 7 "file-2" (Some "Show.720p.E01.mkv") 2000.
Definition show_480p_E01 : FileInfo :=
  document_item 7 "file-3" (Some "Show.480p.E01.mkv") 3000.
Definition unnamed_document : FileInfo :=
  document_item 7 "file-4" None 4000.

(** ** Relations between the world before and after a computation *)

(** [m] takes every world to one related to it by [R]. *)
Definition respects {A} (R : World -> World -> Prop) (m : M A) : Prop :=
  forall w, R w (snd (m w)).

Definition same_sessions (w w' : World) : Prop :=
  userFileSequences w' = userFileSequences w.

(** The sessions of the users other than [userId] are the same. *)
Definition same_other_sessions (userId : Z) (w w' : World) : Prop :=
  delete userId (userFileSequences w') = delete userId (userFileSequences w).

(** The trace only grows. *)
Definition trace_grows (w w' : World) : Prop :=
  exists evs : list Event, trace w' = (trace w ++ evs)%list.

(** ** The shape of the traces *)

(** The calls and pauses of one call [c] under [retryOperation], from
    attempt number [attempt] on, with the result of the retried call. *)
Inductive retry_trace (c : Call) (maxRetries delay : Z)
    : Z -> list Event -> Result unit -> Prop :=
  | retry_resolved attempt :
      attempt <= maxRetries ->
      retry_trace c maxRetries delay attempt [Called c None] (Ok tt)
  | retry_exhausted e :
      retry_trace c maxRetries delay maxRetries [Called c (Some e)] (Throw e)
  | retry_again attempt e evs r :
      attempt < maxRetries ->
      retry_trace c maxRetries delay (attempt + 1) evs r ->
      retry_trace c maxRetries delay attempt
        (Called c (Some e) :: Slept Backoff (delay * 2 ^ (attempt - 1)) :: evs)
        r.

Definition is_call (ev : Event) : bool :=
  match ev with
  | Called _ _ => true
  | Slept _ _ => false
  end.

(** Number of calls in a trace. *)
Definition attempts (evs : list Event) : Z :=
  Z.of_nat (length (filter (fun ev => is_call ev = true) evs)).

(** The pause after the item of index [i] in a batch of [batchLength]
    items, once the item is delivered. *)
Definition pause_after_item (batchLength i : Z) : list Event :=
  if i <? batchLength - 1
  then [Slept BetweenFiles CONFIG.DELAY_BETWEEN_FILES] else [].

(** The pause after the batch of index [i] out of [batchesLength]. *)
Definition pause_after_batch (batchesLength i : Z) : list Event :=
  if i <? batchesLength - 1
  then [Slept BetweenBatches CONFIG.DELAY_BETWEEN_BATCHES] else [].

(** What becomes of an item in [processBatch]. *)
Inductive Fate := Delivered | Failed (error : Error) | Skipped.

(** The events of one item, with what became of it. *)
Inductive item_trace (batchLength i : Z) (x : FileInfo)
    : list Event -> Fate -> Prop :=
  | item_skipped :
      media (message x) = None ->
      item_trace batchLength i x [] Skipped
  | item_delivered file c evs :
      media (message x) = Some file ->
      sendCall (message x) file = Some c ->
      retry_trace c CONFIG.MAX_RETRIES CONFIG.RETRY_DELAY 1 evs (Ok tt) ->
      item_trace batchLength i x
        (evs ++ pause_after_item batchLength i) Delivered
  | item_failed file c evs e :
      media (message x) = Some file ->
      sendCall (message x) file = Some c ->
      retry_trace c CONFIG.MAX_RETRIES CONFIG.RETRY_DELAY 1 evs (Throw e) ->
      item_trace batchLength i x evs (Failed e).

(** The results of an item added to the counters of its batch. *)
Definition count_item (fileInfo : FileInfo) (fate : Fate) (r : Results)
    : Results :=
  match fate with
  | Delivered => mkResults (success r + 1) (failed r) (errors r)
  | Failed e =>
      mkResults (success r) (failed r + 1)
        (errors r ++ [fileName fileInfo +:+ ": " +:+ e])
  | Skipped => mkResults (success r) (failed r + 1) (errors r)
  end.

Fixpoint count_items (batch : list FileInfo) (fates : list Fate)
    (r : Results) : Results :=
  match batch, fates with
  | x :: batch', fate :: fates' => count_items batch' fates' (count_item x fate r)
  | _, _ => r
  end.

(** The events of the items of a batch from index [i] on, in order, with
    the fate of each item. *)
Inductive batch_trace (batchLength : Z)
    : Z -> list FileInfo -> list Event -> list Fate -> Prop :=
  | batch_end i : batch_trace batchLength i [] [] []
  | batch_item i x rest evs fate evs' fates :
      item_trace batchLength i x evs fate ->
      batch_trace batchLength (i + 1) rest evs' fates ->
      batch_trace batchLength i (x :: rest) (evs ++ evs') (fate :: fates).

Definition progress_notice (batchesLength i : Z) (rejected : option Error)
    : list Event :=
  if batchesLength >? 1
  then [Called (CtxReply (ProcessingBatch (i + 1) batchesLength)) rejected]
  else [].

(** The results of a batch added to the totals. *)
Definition add_results (r : Results) (t : Totals) : Totals :=
  mkTotals (totalSuccess t + success r) (totalFailed t + failed r)
    (allErrors t ++ errors r).

Fixpoint add_batches (batches : list (list FileInfo))
    (fates : list (list Fate)) (t : Totals) : Totals :=
  match batches, fates with
  | batch :: batches', fs :: fates' =>
      add_batches batches' fates'
        (add_results (count_items batch fs (mkResults 0 0 [])) t)
  | _, _ => t
  end.

(** The events of the batches from index [i] on, in order, with the fates
    of the items of the batches gone through; [left] is the error of the
    rejected progress notice when the loop was left by it. *)
Inductive delivery_trace (batchesLength : Z)
    : Z -> list (list FileInfo) -> list Event -> list (list Fate)
      -> option Error -> Prop :=
  | delivery_end i : delivery_trace batchesLength i [] [] [] None
  | delivery_left i batch rest e :
      batchesLength > 1 ->
      delivery_trace batchesLength i (batch :: rest)
        (progress_notice batchesLength i (Some e)) [] (Some e)
  | delivery_batch i batch rest evs fs evs' fates left :
      batch_trace (Z.of_nat (length batch)) 0 batch evs fs ->
      delivery_trace batchesLength (i + 1) rest evs' fates left ->
      delivery_trace batchesLength i (batch :: rest)
        (progress_notice batchesLength i None ++ evs
           ++ pause_after_batch batchesLength i ++ evs')
        (fs :: fates) left.

(** [w'] is [w] after the events [evs], with the same sessions and the same
    statistics. *)
Definition emits (w w' : World) (evs : list Event) : Prop :=
  trace w' = (trace w ++ evs)%list /\
  userFileSequences w' = userFileSequences w /\
  usersCollection w' = usersCollection w.

(** The answer recorded in a call event is one the outside world gives. *)
Definition answered_by (outcome : nat -> Call -> option Error) (ev : Event)
    : Prop :=
  match ev with
  | Called c rejected => exists n, outcome n c = rejected
  | Slept _ _ => True
  end.

(** The three calls that deliver a file. *)
Definition is_send (c : Call) : bool :=
  match c with
  | ReplyWithDocument _ _ | ReplyWithVideo _ _ | ReplyWithAudio _ _ => true
  | _ => false
  end.

(** Number of items of a batch whose message has no media. *)
Definition count_skipped (batch : list FileInfo) : Z :=
  Z.of_nat (length (filter (fun x => media (message x) = None) batch)).

(** The first reply of [endSequence] on an open session. *)
Definition close_notice (s : Session) : Reply :=
  if Z.of_nat (length (files s)) =? 0 then NoFilesToSequence
  else StartingToSequence (Z.of_nat (length (files s))).

(** The world after a call answered by [rejected]. *)
Definition after_call (w : World) (c : Call) (rejected : option Error)
    : World :=
  mkWorld (userFileSequences w) (usersCollection w) (clock w)
    (S (calls w)) (trace w ++ [Called c rejected]).

(** ** Instances: answers of the outside world and small worlds *)

Definition always_resolves : nat -> Call -> option Error :=
  fun _ _ => None.

(** Every call that sends a file is rejected with [e]. *)
Definition rejects_sends (e : Error) : nat -> Call -> option Error :=
  fun _ c => if is_send c then Some e else None.

(** The document with file id [id] cannot be sent. *)
Definition rejects_document (id : string) (e : Error)
    : nat -> Call -> option Error :=
  fun _ c =>
    match c with
    | ReplyWithDocument id' _ => if String.eqb id id' then Some e else None
    | _ => None
    end.

(** The call number [k] is rejected. *)
Definition rejects_call (k : nat) (e : Error) : nat -> Call -> option Error :=
  fun n _ => if Nat.eqb n k then Some e else None.

(** A world in which user [uid] has the session [s]. *)
Definition world_with (uid : Z) (s : Session) (t : Z) : World :=
  mkWorld {[uid := s]} ∅ t 0 [].

(** The message of a command sent by [uid]. *)
Definition command_message (uid : Z) : Message :=
  Build_Message uid None None None None.

(** The invariant of the session store: no session is over the limit, and
    every stored item carries a media. *)
Definition sessions_ok (st : gmap Z Session) : Prop :=
  forall uid s,
    st !! uid = Some s ->
    Z.of_nat (length (files s)) <= CONFIG.MAX_FILES_PER_USER /\
    Forall has_media (files s).

(** Number of sessions that user [uid] has in the store. *)
Definition sessions_of (uid : Z) (st : gmap Z Session) : nat :=
  length (filter (fun entry => fst entry = uid) (map_to_list st)).

(** The item that [processFileSequence] stores for [msg] in world [w]. *)
Definition ingested (msg : Message) (fileType : FileType) (file : TgFile)
    (w : World) : FileInfo :=
  Build_FileInfo msg fileType
    (str_or (file_name file)
       (fileType_name fileType +:+ "_" +:+ pretty (clock w)))
    (num_or_zero (file_size file))
    (clock w).

(** A user who sends [n] documents after [/ssequence]. *)
Definition sample_document_message : Message :=
  document_message 7 "file-1" (Some "Show.480p.E02.mkv").

Definition collect (n : nat) : list Update :=
  Command_ssequence (command_message 7)
    :: replicate n (On_file document sample_document_message).

(** ** Vocabulary for the other handlers and for the delivery report *)

(** The time stamps of the sessions of a world are in order. *)
Definition stamps_ok (w : World) : Prop :=
  forall uid s,
    userFileSequences w !! uid = Some s ->
    startTime s <= lastActivity s /\ lastActivity s <= clock w.

(** The user an update comes from; the timer and the passing of time come
    from nobody. *)
Definition update_user (u : Update) : option Z :=
  match u with
  | Command_ssequence msg | Command_status msg | Command_esequence msg
  | Command_cancel msg | On_file _ msg => Some (from_id msg)
  | Timer_cleanup | Elapse _ => None
  end.

(** What [processFileSequence] answers when it refuses a message, by the
    first test of the three that fails. *)
Definition refusal (w : World) (msg : Message) (t : FileType)
    : option Reply :=
  match userFileSequences w !! from_id msg with
  | None => Some NoActiveSession
  | Some s =>
      match msg_field msg t with
      | None => Some UnsupportedFileType
      | Some _ =>
          if Z.of_nat (length (files s)) >=? CONFIG.MAX_FILES_PER_USER
          then Some (FileLimitReached CONFIG.MAX_FILES_PER_USER)
          else None
      end
  end.

(** The acknowledgement of the file that brings the count to [fileCount]. *)
Definition acknowledgement (fileCount : Z) : Call :=
  if (fileCount mod CONFIG.PROGRESS_UPDATE_INTERVAL =? 0) || (fileCount <=? 5)
  then CtxReply (FilesCollected fileCount)
  else CtxReact.

(** The clock does not go back. *)
Definition clock_le (w w' : World) : Prop := clock w <= clock w'.

(** The first two tiers of the order in one number: the episode key is
    below 10000. *)
Definition tier_key (name : string) : Z :=
  getQualityRank name * 10000 + getEpisodeNumber name.

Definition tiers_le (a b : FileInfo) : Prop :=
  tier_key (sortKeyName a) <= tier_key (sortKeyName b).

(** The time asked of [sleep] in a trace, in milliseconds. *)
Fixpoint paused (evs : list Event) : Z :=
  match evs with
  | [] => 0
  | Slept _ ms :: evs' => ms + paused evs'
  | Called _ _ :: evs' => paused evs'
  end.

(** The calls of a trace whose promise resolved, in order. *)
Fixpoint resolved (evs : list Event) : list Call :=
  match evs with
  | [] => []
  | Called c None :: evs' => c :: resolved evs'
  | _ :: evs' => resolved evs'
  end.

(** The call that sends an item, when its message has a media. *)
Definition send_of (x : FileInfo) : option Call :=
  media (message x) ≫= sendCall (message x).

(** The items of a batch that were delivered, by the fates of its items. *)
Fixpoint delivered (batch : list FileInfo) (fates : list Fate)
    : list FileInfo :=
  match batch, fates with
  | x :: batch', Delivered :: fates' => x :: delivered batch' fates'
  | _ :: batch', _ :: fates' => delivered batch' fates'
  | _, _ => []
  end.

Fixpoint delivered_all (batches : list (list FileInfo))
    (fates : list (list Fate)) : list FileInfo :=
  match batches, fates with
  | batch :: batches', fs :: fates' =>
      delivered batch fs ++ delivered_all batches' fates'
  | _, _ => []
  end.

(** The files that went out: the calls of a trace that send a file and
    resolved, in order. *)
Definition sends (evs : list Event) : list Call :=
  filter (fun c => is_send c = true) (resolved evs).

(** The events of the statistics update of user [uid]: the two calls to
    the collection and the pauses of the retry. *)
Definition is_statistics (uid : Z) (ev : Event) : bool :=
  match ev with
  | Called (FindOne u) _ => u =? uid
  | Called (UpdateOne u _) _ => u =? uid
  | Slept Backoff _ => true
  | _ => false
  end.

(** The document written by [updateOne] at time [date] over the document
    [old], for [k] files sent. *)
Definition statistics_doc (old : option UserDoc) (k date : Z) : UserDoc :=
  Build_UserDoc (Some (num_or_zero (old ≫= total_sequences) + k))
    (Some date) (Some k).

(** The [finally] of [endSequence] after a block that ended in [p]. *)
Definition after_finally (userId : Z) (p : Result unit * World)
    : Result unit * World :=
  (fst p,
   mkWorld (delete userId (userFileSequences (snd p)))
     (usersCollection (snd p)) (clock (snd p)) (calls (snd p))
     (trace (snd p))).

(** What the delivery loop does to the outside: it sends files, announces
    batches and sleeps. *)
Definition is_delivery (ev : Event) : bool :=
  match ev with
  | Called (CtxReply (ProcessingBatch _ _)) _ => true
  | Called c _ => is_send c
  | Slept _ _ => true
  end.

(** The statistics are the same. *)
Definition same_users (w w' : World) : Prop :=
  usersCollection w' = usersCollection w.

(** The update is the command [/esequence]. *)
Definition is_close (u : Update) : bool :=
  match u with
  | Command_esequence _ => true
  | _ => false
  end.

(** A world in which user [uid] has the session [s] and the statistics
    [doc]. *)
Definition world_with_statistics (uid : Z) (s : Session) (doc : UserDoc)
    (t : Z) : World :=
  mkWorld {[uid := s]} {[uid := doc]} t 0 [].

(** The updates of files coming in, each with the kind of media that
    brought it. *)
Definition file_updates (l : list (FileType * Message)) : list Update :=
  map (fun p => On_file (fst p) (snd p)) l.

(** A whole conversation of user [uid]: [/ssequence], the files,
    [/esequence]. *)
Definition conversation (uid : Z) (l : list (FileType * Message))
    : list Update :=
  Command_ssequence (command_message uid)
    :: file_updates l ++ [Command_esequence (command_message uid)].

(** The file [p] comes from [uid] and carries the media of its kind. *)
Definition file_from (uid : Z) (p : FileType * Message) : Prop :=
  from_id (snd p) = uid /\ is_Some (msg_field (snd p) (fst p)).

(** The item [x] was made of the file [p]. *)
Definition item_of (p : FileType * Message) (x : FileInfo) : Prop :=
  message x = snd p /\ fileType x = fst p.

(** * Properties *)

(** ** The keys on sample names *)

Example getQualityRank_480 : getQualityRank "Show.480p.E02.mkv" = 0.
Proof. reflexivity. Qed.
Example getQualityRank_4k_lower : getQualityRank "Show.4k.E02.mkv" = 99.
Proof. reflexivity. Qed.
Example getEpisodeNumber_E02 : getEpisodeNumber "Show E02.mkv" = 2.
Proof. reflexivity. Qed.
Example getEpisodeNumber_480 : getEpisodeNumber "Show.480p.E02.mkv" = 480.
Proof. reflexivity. Qed.
Example getEpisodeNumber_1080 : getEpisodeNumber "Show.1080p.E02.mkv" = 108.
Proof. reflexivity. Qed.
Example getEpisodeNumber_none : getEpisodeNumber "Trailer.mkv" = 9999.
Proof. reflexivity. Qed.

(** ** Characters *)

Lemma space_not_digit c : is_space c = true -> is_digit c = false.
Proof.
  destruct c as [[] [] [] [] [] [] [] []]; vm_compute; congruence.
Qed.

Lemma digit_to_upper c : is_digit c = true -> to_upper c = c.
Proof.
  destruct c as [[] [] [] [] [] [] [] []]; vm_compute; congruence.
Qed.

Lemma letter_upper_not_digit a :
  is_letter a = true -> is_digit (to_upper a) = false.
Proof.
  destruct a as [[] [] [] [] [] [] [] []]; vm_compute; congruence.
Qed.

Lemma ci_letter_not_digit a c :
  is_letter a = true -> ci_eqb a c = true -> is_digit c = false.
Proof.
  intros Ha Hc. unfold ci_eqb in Hc. apply Ascii.eqb_eq in Hc.
  destruct (is_digit c) eqn:Hd; [|reflexivity].
  rewrite (digit_to_upper c Hd) in Hc.
  apply letter_upper_not_digit in Ha. congruence.
Qed.

Lemma digit_value_range c : is_digit c = true -> 0 <= digit_value c <= 9.
Proof.
  destruct c as [[] [] [] [] [] [] [] []]; vm_compute;
    intuition congruence.
Qed.

(** ** Literals and alternations *)

Lemma append_nil s : "" +:+ s = s.
Proof. reflexivity. Qed.

Lemma append_cons a p s : String a p +:+ s = String a (p +:+ s).
Proof. reflexivity. Qed.

Lemma strip_literal_spec p s rest :
  strip_literal p s = Some rest <-> s = p +:+ rest.
Proof.
  revert s. induction p as [|a p IH]; intros s; simpl.
  - rewrite append_nil. split; intros H; [by injection H as -> | by rewrite H].
  - rewrite append_cons. destruct s as [|c s]; [split; discriminate|].
    destruct (Ascii.eqb a c) eqn:E.
    + apply Ascii.eqb_eq in E. subst c. rewrite IH.
      split; [intros ->; reflexivity | congruence].
    + apply Ascii.eqb_neq in E. split; [discriminate | congruence].
Qed.

Lemma first_alternative_Some {A B} (k : A -> option B) alts r :
  first_alternative k alts = Some r ->
  exists a, In a alts /\ k a = Some r.
Proof.
  induction alts as [|a alts IH]; simpl; [discriminate|].
  destruct (k a) eqn:E.
  - intros [= <-]. eauto.
  - intros H. destruct (IH H) as (a' & ? & ?). eauto.
Qed.

Lemma first_alternative_None {A B} (k : A -> option B) alts :
  first_alternative k alts = None ->
  forall a, In a alts -> k a = None.
Proof.
  induction alts as [|a alts IH]; simpl; [tauto|].
  destruct (k a) eqn:E; [discriminate|].
  intros H a' [<- | Hin]; auto.
Qed.

(** ** The quality rank *)

Lemma quality_at_Some s tok :
  quality_at s = Some tok ->
  In tok quality_tokens /\ exists rest, s = tok +:+ rest.
Proof.
  intros H. apply first_alternative_Some in H as (a & Hin & Ha).
  destruct (strip_literal a s) as [rest|] eqn:E; [|discriminate].
  injection Ha as <-. split; [assumption|].
  exists rest. by apply strip_literal_spec.
Qed.

Lemma quality_at_None s tok rest :
  quality_at s = None -> In tok quality_tokens -> s <> tok +:+ rest.
Proof.
  intros H Hin Heq.
  pose proof (first_alternative_None _ _ H tok Hin) as Hk. simpl in Hk.
  apply strip_literal_spec in Heq. rewrite Heq in Hk. discriminate.
Qed.

Lemma quality_match_Some s tok :
  quality_match s = Some tok -> In tok quality_tokens /\ occurs tok s.
Proof.
  induction s as [|c s IH]; cbn [quality_match].
  - destruct (quality_at "") eqn:E; [|discriminate].
    intros [= <-]. apply quality_at_Some in E as (? & rest & ->).
    split; [assumption|]. by exists "", rest.
  - destruct (quality_at (String c s)) eqn:E.
    + intros [= <-]. apply quality_at_Some in E as (? & rest & ->).
      split; [assumption|]. by exists "", rest.
    + intros H. destruct (IH H) as (? & pre & post & ->).
      split; [assumption|]. by exists (String c pre), post.
Qed.

Lemma quality_match_None s tok :
  quality_match s = None -> In tok quality_tokens -> ~ occurs tok s.
Proof.
  induction s as [|c s IH]; cbn [quality_match].
  - destruct (quality_at "") eqn:E; [discriminate|].
    intros _ Hin (pre & post & Heq).
    destruct pre; [|discriminate].
    by apply (quality_at_None _ _ post E Hin).
  - destruct (quality_at (String c s)) eqn:E; [discriminate|].
    intros H Hin (pre & post & Heq).
    destruct pre as [|c' pre].
    + by apply (quality_at_None _ _ post E Hin).
    + rewrite append_cons in Heq. injection Heq as _ ->.
      apply (IH H Hin). by exists pre, post.
Qed.

(** Every token of the pattern is a key of [qualityOrder], with ranks
    ascending in the order [480p, 540p, 720p, 1080p, 2160p, 4K]. *)
Lemma qualityOrder_table :
  map qualityOrder quality_tokens =
  [Some 0; Some 1; Some 2; Some 3; Some 4; Some 5].
Proof. reflexivity. Qed.

Lemma quality_match_in_table s tok :
  quality_match s = Some tok ->
  exists r, qualityOrder tok = Some r /\ 0 <= r <= 5.
Proof.
  intros H. apply quality_match_Some in H as [Hin _].
  simpl in Hin.
  repeat (destruct Hin as [<- | Hin]; [eexists; split; [reflexivity|lia]|]).
  destruct Hin.
Qed.

Lemma getQualityRank_ranked name :
  (exists tok, In tok quality_tokens /\ occurs tok name) ->
  0 <= getQualityRank name <= 5.
Proof.
  intros (tok & Hin & Hocc). unfold getQualityRank.
  destruct (quality_match name) as [t|] eqn:E.
  - destruct (quality_match_in_table _ _ E) as (r & -> & Hr). exact Hr.
  - by destruct (quality_match_None _ _ E Hin).
Qed.

Lemma getQualityRank_unranked name :
  (forall tok, In tok quality_tokens -> ~ occurs tok name) ->
  getQualityRank name = 99.
Proof.
  intros H. unfold getQualityRank.
  destruct (quality_match name) as [t|] eqn:E; [|reflexivity].
  apply quality_match_Some in E as [Hin Hocc]. by destruct (H t Hin).
Qed.

Lemma getQualityRank_cases name :
  0 <= getQualityRank name <= 5 \/ getQualityRank name = 99.
Proof.
  unfold getQualityRank.
  destruct (quality_match name) as [t|] eqn:E; [|by right].
  destruct (quality_match_in_table _ _ E) as (r & -> & Hr). by left.
Qed.

(** ** The episode key *)

Lemma take_digits_split n s :
  exists post,
    s = take_digits n s +:+ post /\
    all_digits (take_digits n s) = true /\
    (String.length (take_digits n s) <= n)%nat /\
    ((String.length (take_digits n s) < n)%nat -> starts_with_digit post = false).
Proof.
  revert s. induction n as [|n IH]; intros s.
  - exists s. simpl. repeat split; auto; lia.
  - destruct s as [|c s]; cbn [take_digits].
    + exists "". repeat split; auto; simpl; lia.
    + destruct (is_digit c) eqn:Hc.
      * destruct (IH s) as (post & Hs & Hall & Hlen & Hpost).
        exists post. rewrite append_cons.
        unfold all_digits in *. cbn [all_chars String.length]. rewrite Hc, Hall.
        repeat split; [congruence | lia | intros; apply Hpost; lia].
      * exists (String c s). cbn [starts_with_digit]. rewrite Hc.
        repeat split; auto; simpl; lia.
Qed.

Lemma parseInt_from_bounds d acc :
  all_digits d = true -> 0 <= acc ->
  acc * 10 ^ Z.of_nat (String.length d) <= parseInt_from acc d
    < (acc + 1) * 10 ^ Z.of_nat (String.length d).
Proof.
  revert acc. induction d as [|c d IH]; intros acc Hd Hacc.
  - simpl. lia.
  - unfold all_digits in *. cbn [all_chars] in Hd. apply andb_prop in Hd as [Hc Hd].
    pose proof (digit_value_range c Hc) as Hv.
    cbn [parseInt_from String.length].
    specialize (IH (acc * 10 + digit_value c) Hd ltac:(lia)).
    rewrite Nat2Z.inj_succ, Z.pow_succ_r by lia.
    assert (0 < 10 ^ Z.of_nat (String.length d)) by (apply Z.pow_pos_nonneg; lia).
    nia.
Qed.

Lemma parseInt_three_digits d :
  all_digits d = true -> (String.length d <= 3)%nat ->
  0 <= parseInt d <= 999.
Proof.
  intros Hd Hlen. unfold parseInt.
  pose proof (parseInt_from_bounds d 0 Hd ltac:(lia)) as H.
  assert (10 ^ Z.of_nat (String.length d) <= 10 ^ 3)
    by (apply Z.pow_le_mono_r; lia).
  lia.
Qed.

Lemma take_digits_nonempty n c s :
  is_digit c = true -> (1 <= String.length (take_digits (S n) (String c s)))%nat.
Proof. intros Hc. cbn [take_digits]. rewrite Hc. cbn [String.length]. lia. Qed.

Lemma leading_digits_cons c s :
  leading_digits (String c s) =
  if is_digit c then Some (take_digits 3 (String c s)) else leading_digits s.
Proof. reflexivity. Qed.

(** What [leading_digits] returns, said without a program: the name is
    [pre ++ digits ++ post], with no digit in [pre], one to three digits in
    [digits], and [post] not starting with a digit unless three digits
    were taken. *)
Lemma leading_digits_Some s d :
  leading_digits s = Some d ->
  exists pre post,
    s = pre +:+ d +:+ post /\
    no_digit pre = true /\
    all_digits d = true /\
    (1 <= String.length d <= 3)%nat /\
    (String.length d = 3%nat \/ starts_with_digit post = false).
Proof.
  revert d. induction s as [|c s IH]; intros d; [discriminate|].
  rewrite leading_digits_cons.
  destruct (is_digit c) eqn:Hc.
  - intros H.
    destruct (take_digits_split 3 (String c s)) as (post & Hs & Hall & Hlen & Hpost).
    pose proof (take_digits_nonempty 2 c s Hc) as Hne.
    assert (d = take_digits 3 (String c s)) as -> by congruence. clear H IH.
    exists "", post. rewrite append_nil.
    split; [assumption|]. split; [reflexivity|]. split; [assumption|].
    split; [lia|].
    destruct (decide (String.length (take_digits 3 (String c s)) = 3%nat));
      [by left | right; apply Hpost; lia].
  - intros H. destruct (IH _ H) as (pre & post & -> & Hpre & Hd & Hlen & Hpost).
    exists (String c pre), post. rewrite append_cons.
    split; [reflexivity|]. split; [|split; [assumption | split; [lia | assumption]]].
    unfold no_digit in *. cbn [all_chars]. by rewrite Hc, Hpre.
Qed.

Lemma leading_digits_None s :
  leading_digits s = None <-> no_digit s = true.
Proof.
  unfold no_digit.
  induction s as [|c s IH]; [by split|].
  rewrite leading_digits_cons. cbn [all_chars].
  destruct (is_digit c); cbn [negb andb]; [split; discriminate | exact IH].
Qed.

(** The pattern and the digits it captures. *)

Lemma digits_1_3_leading s r :
  digits_1_3 s = Some r -> leading_digits s = Some r.
Proof.
  destruct s as [|c s]; [discriminate|].
  rewrite leading_digits_cons. unfold digits_1_3.
  by destruct (is_digit c).
Qed.

Lemma ws_digits_leading s r :
  ws_digits s = Some r -> leading_digits s = Some r.
Proof.
  induction s as [|c s IH]; cbn [ws_digits]; [discriminate|].
  destruct (is_space c) eqn:Hs; [|apply digits_1_3_leading].
  pose proof (space_not_digit c Hs) as Hd.
  destruct (ws_digits s) as [r'|] eqn:E.
  - intros [= <-]. rewrite leading_digits_cons, Hd. by apply IH.
  - unfold digits_1_3. by rewrite Hd.
Qed.

Lemma strip_literal_ci_leading p s rest :
  all_chars is_letter p = true ->
  strip_literal_ci p s = Some rest ->
  leading_digits s = leading_digits rest.
Proof.
  revert s. induction p as [|a p IH]; intros s Hp; cbn [strip_literal_ci].
  - by intros [= ->].
  - cbn [all_chars] in Hp. apply andb_prop in Hp as [Ha Hp].
    destruct s as [|c s]; [discriminate|].
    destruct (ci_eqb a c) eqn:E; [|discriminate].
    intros H. rewrite leading_digits_cons.
    rewrite (ci_letter_not_digit a c Ha E). by apply IH.
Qed.

Lemma episode_markers_letters :
  forall m, In m episode_markers -> all_chars is_letter m = true.
Proof.
  intros m Hin. simpl in Hin.
  repeat (destruct Hin as [<- | Hin]; [reflexivity|]). destruct Hin.
Qed.

Lemma episode_at_leading s r :
  episode_at s = Some r -> leading_digits s = Some r.
Proof.
  unfold episode_at.
  destruct (first_alternative _ episode_markers) as [r'|] eqn:E.
  - intros [= <-].
    apply first_alternative_Some in E as (m & Hin & Hm).
    destruct (strip_literal_ci m s) as [rest|] eqn:Hs; [|discriminate].
    rewrite (strip_literal_ci_leading m s rest (episode_markers_letters m Hin) Hs).
    by apply ws_digits_leading.
  - apply ws_digits_leading.
Qed.

Lemma episode_at_digit c s :
  is_digit c = true -> episode_at (String c s) <> None.
Proof.
  intros Hc. unfold episode_at.
  destruct (first_alternative _ episode_markers); [discriminate|].
  cbn [ws_digits]. unfold digits_1_3. rewrite Hc.
  destruct (is_space c) eqn:Hs; [|discriminate].
  apply space_not_digit in Hs. congruence.
Qed.

(** The marker and the blanks never change the capture: the pattern
    captures the digits at the first digit of the name. *)
Lemma episode_match_leading s : episode_match s = leading_digits s.
Proof.
  induction s as [|c s IH]; cbn [episode_match].
  - reflexivity.
  - destruct (episode_at (String c s)) as [r|] eqn:E.
    + symmetry. by apply episode_at_leading.
    + rewrite leading_digits_cons. destruct (is_digit c) eqn:Hc.
      * by destruct (episode_at_digit c s Hc).
      * exact IH.
Qed.

Lemma getEpisodeNumber_range name :
  0 <= getEpisodeNumber name <= 999 \/ getEpisodeNumber name = 9999.
Proof.
  unfold getEpisodeNumber. rewrite episode_match_leading.
  destruct (leading_digits name) as [d|] eqn:E; [left | by right].
  apply leading_digits_Some in E as (pre & post & _ & _ & Hd & Hlen & _).
  apply parseInt_three_digits; [assumption | lia].
Qed.

(** What [getEpisodeNumber] does compute: the number written by the first
    digit of the file name and the digits directly after it, three digits
    at most, wherever that digit stands (inside a longer number, a quality
    token or after a marker: markers and blanks have no influence); a name
    without any digit has the key 9999, which is greater than every other
    key (at most 999). *)
Theorem getEpisodeNumber_first_digits (name : string) :
  (exists pre digits post,
      name = pre +:+ digits +:+ post /\
      no_digit pre = true /\
      all_digits digits = true /\
      (1 <= String.length digits <= 3)%nat /\
      (String.length digits = 3%nat \/ starts_with_digit post = false) /\
      getEpisodeNumber name = parseInt digits /\
      0 <= getEpisodeNumber name <= 999)
  \/ (no_digit name = true /\ getEpisodeNumber name = NO_EPISODE /\
      NO_EPISODE = 9999).
Proof.
  pose proof (getEpisodeNumber_range name) as Hrange.
  unfold getEpisodeNumber in *. rewrite episode_match_leading in *.
  destruct (leading_digits name) as [d|] eqn:E.
  - left. destruct (leading_digits_Some _ _ E)
      as (pre & post & Hs & Hpre & Hd & Hlen & Hpost).
    pose proof (parseInt_three_digits d Hd ltac:(lia)).
    exists pre, d, post. repeat split; try assumption; lia.
  - right. apply leading_digits_None in E. by repeat split.
Qed.

(** C2 fails on the code: the pattern of [getEpisodeNumber] lists the
    markers [E], [Ep], [Episode], [Part] but anchors neither them nor the
    digits, so in [Show.1080p.E02.mkv] it takes [108] out of [1080]
    instead of the marked, standalone [02]: the episode key is 108, not
    2. *)
Lemma getEpisodeNumber_not_standalone :
  getEpisodeNumber "Show.1080p.E02.mkv" = 108 /\
  episode_per_spec "Show.1080p.E02.mkv" = 2 /\
  getEpisodeNumber "Show.1080p.E02.mkv"
    <> episode_per_spec "Show.1080p.E02.mkv".
Proof. repeat split. vm_compute. discriminate. Qed.

(** ** The sort *)

Section SortFacts.

Context {A : Type}.
Variable c : A -> A -> Z.

Lemma insert_by_perm x l : Permutation (x :: l) (insert_by c x l).
Proof.
  induction l as [|y l IH]; simpl; [reflexivity|].
  destruct (c x y <=? 0); [reflexivity|].
  rewrite perm_swap. by constructor.
Qed.

Lemma sort_by_perm l : Permutation l (sort_by c l).
Proof.
  induction l as [|x l IH]; simpl; [constructor|].
  rewrite <- insert_by_perm. by constructor.
Qed.

Lemma sort_by_length l : length (sort_by c l) = length l.
Proof. symmetry. apply Permutation_length, sort_by_perm. Qed.

(** Sorting a list that is in order changes nothing; this needs nothing
    of the comparator. *)
Lemma insert_by_head x l :
  HdRel (not_after c) x l -> insert_by c x l = x :: l.
Proof.
  intros H. destruct l as [|y l]; [reflexivity|].
  inversion H as [|? ? Hxy]; subst. unfold not_after in Hxy.
  simpl. apply Z.leb_le in Hxy. by rewrite Hxy.
Qed.

Lemma sort_by_sorted_id l : Sorted (not_after c) l -> sort_by c l = l.
Proof.
  induction 1 as [|x l Hs IH Hhd]; simpl; [reflexivity|].
  rewrite IH. by apply insert_by_head.
Qed.

Hypothesis c_antisym : sign_antisymmetric c.

Lemma not_after_total x y : c x y <= 0 \/ c y x <= 0.
Proof. specialize (c_antisym x y). lia. Qed.

Lemma insert_by_hdrel x y l :
  c y x <= 0 -> HdRel (not_after c) y l -> HdRel (not_after c) y (insert_by c x l).
Proof.
  intros Hyx H. destruct l as [|z l]; simpl.
  - by constructor.
  - destruct (c x z <=? 0); constructor; [assumption|].
    by inversion H.
Qed.

Lemma insert_by_sorted x l :
  Sorted (not_after c) l -> Sorted (not_after c) (insert_by c x l).
Proof.
  induction 1 as [|y l Hs IH Hhd]; simpl.
  - by repeat constructor.
  - destruct (c x y <=? 0) eqn:E.
    + apply Z.leb_le in E. by repeat constructor.
    + apply Z.leb_gt in E. constructor; [assumption|].
      apply insert_by_hdrel; [|assumption].
      destruct (not_after_total x y); lia.
Qed.

Lemma sort_by_sorted l : Sorted (not_after c) (sort_by c l).
Proof.
  induction l as [|x l IH]; simpl; [constructor|].
  by apply insert_by_sorted.
Qed.

Lemma sort_by_idempotent l : sort_by c (sort_by c l) = sort_by c l.
Proof. apply sort_by_sorted_id, sort_by_sorted. Qed.

Hypothesis c_trans : le_transitive c.

Lemma sort_by_strongly_sorted l : StronglySorted (not_after c) (sort_by c l).
Proof.
  apply Sorted_StronglySorted; [|apply sort_by_sorted].
  intros x y z. apply c_trans.
Qed.

(** Stability: the items that compare equal to [x] keep their order. *)
Lemma same_rank_trans x a y :
  same_rank c x a = true -> same_rank c x y = true -> c a y = 0.
Proof.
  unfold same_rank. intros Ha Hy.
  apply Z.eqb_eq in Ha. apply Z.eqb_eq in Hy.
  pose proof (c_antisym x a). pose proof (c_antisym x y).
  pose proof (c_antisym a y).
  pose proof (c_trans a x y). pose proof (c_trans y x a).
  lia.
Qed.

Lemma insert_by_filter x a l :
  filter (fun y => same_rank c x y = true) (insert_by c a l) =
  filter (fun y => same_rank c x y = true) (a :: l).
Proof.
  induction l as [|y l IH]; simpl; [reflexivity|].
  destruct (c a y <=? 0) eqn:E; [reflexivity|].
  apply Z.leb_gt in E.
  rewrite !filter_cons in *.
  destruct (decide (same_rank c x y = true)) as [Hy|Hy];
    destruct (decide (same_rank c x a = true)) as [Ha|Ha];
    rewrite ?IH; try reflexivity.
  pose proof (same_rank_trans x a y Ha Hy). lia.
Qed.

Lemma sort_by_stable x l :
  filter (fun y => same_rank c x y = true) (sort_by c l) =
  filter (fun y => same_rank c x y = true) l.
Proof.
  induction l as [|a l IH]; simpl; [reflexivity|].
  rewrite insert_by_filter, !filter_cons, IH. reflexivity.
Qed.

End SortFacts.

Section StableUnique.
Context {A : Type}.
Variable c : A -> A -> Z.
Hypothesis c_antisym : sign_antisymmetric c.
Hypothesis c_trans : le_transitive c.

Lemma same_rank_refl x : same_rank c x x = true.
Proof.
  unfold same_rank. apply Z.eqb_eq. specialize (c_antisym x x). lia.
Qed.

Lemma strongly_sorted_head x l y :
  StronglySorted (not_after c) (x :: l) -> In y (x :: l) -> c x y <= 0.
Proof.
  intros Hs [<- | Hin].
  - pose proof (same_rank_refl x) as H. unfold same_rank in H.
    apply Z.eqb_eq in H. lia.
  - apply StronglySorted_inv in Hs as [_ Hall].
    rewrite List.Forall_forall in Hall. by apply Hall.
Qed.

(** Two sorted lists in which the items of each rank come in the same
    order are equal: for a comparison function, the result of a stable
    sort does not depend on the algorithm. *)
Lemma stable_sorted_unique l1 l2 :
  StronglySorted (not_after c) l1 ->
  StronglySorted (not_after c) l2 ->
  (forall x, filter (fun y => same_rank c x y = true) l1
             = filter (fun y => same_rank c x y = true) l2) ->
  l1 = l2.
Proof.
  revert l2. induction l1 as [|a l1 IH]; intros l2 Hs1 Hs2 Hf.
  - destruct l2 as [|b l2]; [reflexivity|].
    specialize (Hf b). rewrite filter_cons in Hf.
    destruct (decide (same_rank c b b = true)) as [_|Hn];
      [discriminate | destruct Hn; apply same_rank_refl].
  - destruct l2 as [|b l2].
    + specialize (Hf a). rewrite filter_cons in Hf.
      destruct (decide (same_rank c a a = true)) as [_|Hn];
        [discriminate | destruct Hn; apply same_rank_refl].
    + assert (Ha2 : In a (b :: l2)).
      { pose proof (Hf a) as H. rewrite filter_cons in H.
        destruct (decide (same_rank c a a = true)) as [_|Hn];
          [|destruct Hn; apply same_rank_refl].
        apply list_elem_of_In.
        apply (list_elem_of_filter (fun y => same_rank c a y = true) (b :: l2)).
        rewrite <- H. by left. }
      assert (Hb1 : In b (a :: l1)).
      { pose proof (Hf b) as H. rewrite (filter_cons _ b) in H.
        destruct (decide (same_rank c b b = true)) as [_|Hn];
          [|destruct Hn; apply same_rank_refl].
        apply list_elem_of_In.
        apply (list_elem_of_filter (fun y => same_rank c b y = true) (a :: l1)).
        rewrite H. by left. }
      pose proof (strongly_sorted_head _ _ _ Hs1 Hb1) as Hab.
      pose proof (strongly_sorted_head _ _ _ Hs2 Ha2) as Hba.
      assert (Hrank : same_rank c a b = true).
      { unfold same_rank. apply Z.eqb_eq. specialize (c_antisym a b). lia. }
      assert (a = b) as <-.
      { pose proof (Hf a) as H. rewrite !filter_cons in H.
        destruct (decide (same_rank c a a = true)) as [_|Hn];
          [|destruct Hn; apply same_rank_refl].
        destruct (decide (same_rank c a b = true)) as [_|Hn];
          [|by destruct Hn].
        congruence. }
      f_equal. apply IH.
      * by apply StronglySorted_inv in Hs1 as [? _].
      * by apply StronglySorted_inv in Hs2 as [? _].
      * intros x. specialize (Hf x). rewrite !filter_cons in Hf.
        destruct (decide (same_rank c x a = true)); congruence.
Qed.

Lemma sort_by_unique l l' :
  StronglySorted (not_after c) l' ->
  (forall x, filter (fun y => same_rank c x y = true) l'
             = filter (fun y => same_rank c x y = true) l) ->
  l' = sort_by c l.
Proof.
  intros Hs Hf. apply stable_sorted_unique; [exact Hs | |].
  - by apply sort_by_strongly_sorted.
  - intros x. rewrite Hf. symmetry. by apply sort_by_stable.
Qed.
End StableUnique.

(** [array_sort] with a comparator that does not throw on the items of
    the list is the pure sort. *)
Lemma insert_sorted_pure {A} (cmp : A -> A -> Result Z) (c : A -> A -> Z)
    (x : A) (l : list A) :
  (forall y, In y l -> cmp x y = Ok (c x y)) ->
  insert_sorted cmp x l = Ok (insert_by c x l).
Proof.
  induction l as [|y l IH]; intros H; simpl; [reflexivity|].
  rewrite (H y) by (by left).
  destruct (c x y <=? 0); [reflexivity|].
  rewrite IH; [reflexivity|]. intros z Hz. apply H. by right.
Qed.

Lemma array_sort_pure {A} (cmp : A -> A -> Result Z) (c : A -> A -> Z)
    (l : list A) :
  (forall x y, In x l -> In y l -> cmp x y = Ok (c x y)) ->
  array_sort cmp l = Ok (sort_by c l).
Proof.
  induction l as [|x l IH]; intros H; simpl; [reflexivity|].
  rewrite IH by (intros; apply H; by right).
  apply insert_sorted_pure. intros y Hy. apply H; [by left|].
  right. eapply Permutation_in; [symmetry; apply sort_by_perm | exact Hy].
Qed.

(** ** The comparator *)

Ltac case_num_or :=
  unfold num_or;
  repeat match goal with
         | |- context [Z.eqb ?x 0] => destruct (Z.eqb_spec x 0)
         | H : context [Z.eqb ?x 0] |- _ => destruct (Z.eqb_spec x 0)
         end.

Lemma sortName_media a : has_media a -> sortName a = Ok (sortKeyName a).
Proof.
  unfold has_media, sortName, sortKeyName. by intros [f ->].
Qed.

Lemma sortName_no_media a : ~ has_media a -> sortName a = Throw TYPE_ERROR.
Proof.
  unfold has_media, sortName. destruct (media (message a)); [|done].
  intros []. by eexists.
Qed.

Lemma comparator_media lc a b :
  has_media a -> has_media b ->
  comparator lc a b = Ok (compareItems lc a b).
Proof.
  intros Ha Hb. unfold comparator.
  by rewrite (sortName_media a Ha), (sortName_media b Hb).
Qed.




Lemma compareNames_antisym lc :
  sign_antisymmetric lc -> sign_antisymmetric (compareNames lc).
Proof.
  intros H a b. specialize (H a b). unfold compareNames.
  case_num_or; lia.
Qed.

Lemma compareNames_trans lc :
  le_transitive lc -> le_transitive (compareNames lc).
Proof.
  intros H a b d. specialize (H a b d). unfold compareNames.
  case_num_or; lia.
Qed.

Lemma compareItems_antisym lc :
  sign_antisymmetric lc -> sign_antisymmetric (compareItems lc).
Proof. intros H a b. by apply compareNames_antisym. Qed.

Lemma compareItems_trans lc :
  le_transitive lc -> le_transitive (compareItems lc).
Proof. intros H a b d. by apply compareNames_trans. Qed.

(** The comparison by code units is a comparison function. *)
Lemma codeUnitCompare_antisym : sign_antisymmetric codeUnitCompare.
Proof.
  intros a b. unfold codeUnitCompare.
  rewrite (String.compare_antisym a b).
  by destruct (String.compare b a).
Qed.

Lemma codeUnitCompare_trans : le_transitive codeUnitCompare.
Proof.
  intros a b d. unfold codeUnitCompare.
  destruct (String.compare a b) eqn:Hab; [| |lia].
  - apply String_as_OT.cmp_eq in Hab as ->. tauto.
  - destruct (String.compare b d) eqn:Hbd; [| |lia].
    + apply String_as_OT.cmp_eq in Hbd as ->. by rewrite Hab.
    + apply String_as_OT.cmp_lt in Hab, Hbd.
      pose proof (String_as_OT.lt_trans _ _ _ Hab Hbd) as Had.
      apply String_as_OT.cmp_lt in Had.
      unfold String_as_OT.cmp in Had. rewrite Had. lia.
Qed.

(** The sort of [endSequence] on items that have a media. *)
Lemma array_sort_media lc l :
  Forall has_media l ->
  array_sort (comparator lc) l = Ok (sort_by (compareItems lc) l).
Proof.
  intros H. apply array_sort_pure. intros x y Hx Hy.
  rewrite Forall_forall in H.
  apply comparator_media; apply H; by apply list_elem_of_In.
Qed.




Example comparator_unnamed_last :
  comparator codeUnitCompare unnamed_document show_480p_E02 = Ok 99.
Proof. reflexivity. Qed.

Example comparator_no_media_throws :
  comparator codeUnitCompare (empty_item 7 "x") show_480p_E02
    = Throw TYPE_ERROR.
Proof. reflexivity. Qed.

(** ** The order of the example *)

Lemma compareNames_E02_E01 lc :
  compareNames lc "Show.480p.E02.mkv" "Show.480p.E01.mkv"
    = lc "Show.480p.E02.mkv" "Show.480p.E01.mkv".
Proof. reflexivity. Qed.

Lemma compareNames_E01_E02 lc :
  compareNames lc "Show.480p.E01.mkv" "Show.480p.E02.mkv"
    = lc "Show.480p.E01.mkv" "Show.480p.E02.mkv".
Proof. reflexivity. Qed.

Lemma compareNames_480_720 lc e1 e2 :
  compareNames lc ("Show.480p.E0" +:+ e1 +:+ ".mkv") "Show.720p.E01.mkv" < 0 /\
  0 < compareNames lc "Show.720p.E01.mkv" ("Show.480p.E0" +:+ e2 +:+ ".mkv").
Proof.
  assert (Hq : forall e, getQualityRank ("Show.480p.E0" +:+ e +:+ ".mkv") = 0)
    by reflexivity.
  unfold compareNames. rewrite !Hq.
  change (getQualityRank "Show.720p.E01.mkv") with 2.
  unfold num_or. simpl. lia.
Qed.

Lemma comparator_names lc x y nameX nameY :
  sortName x = Ok nameX -> sortName y = Ok nameY ->
  comparator lc x y = Ok (compareNames lc nameX nameY).
Proof. unfold comparator. by intros -> ->. Qed.

(** C3: the three items named [Show.480p.E02.mkv], [Show.720p.E01.mkv]
    and [Show.480p.E01.mkv], sorted by [endSequence], come out as
    [Show.480p.E01.mkv], [Show.480p.E02.mkv], [Show.720p.E01.mkv]; the two
    480p names tie on rank and on episode key, so their order is the one
    [localeCompare] gives them. *)
Theorem order_example (localeCompare : string -> string -> Z)
    (a b c : FileInfo) :
  sortName a = Ok "Show.480p.E02.mkv" ->
  sortName b = Ok "Show.720p.E01.mkv" ->
  sortName c = Ok "Show.480p.E01.mkv" ->
  0 < localeCompare "Show.480p.E02.mkv" "Show.480p.E01.mkv" ->
  array_sort (comparator localeCompare) [a; b; c] = Ok [c; a; b].
Proof.
  intros Ha Hb Hc Hlc.
  pose proof (compareNames_480_720 localeCompare "1" "1") as [_ Hbc].
  pose proof (compareNames_480_720 localeCompare "2" "2") as [Hab _].
  change ("Show.480p.E0" +:+ "1" +:+ ".mkv") with "Show.480p.E01.mkv" in Hbc.
  change ("Show.480p.E0" +:+ "2" +:+ ".mkv") with "Show.480p.E02.mkv" in Hab.
  pose proof (compareNames_E02_E01 localeCompare) as Hac.
  cbn [array_sort insert_sorted].
  rewrite (comparator_names _ _ _ _ _ Hb Hc).
  destruct (Z.leb_spec (compareNames localeCompare "Show.720p.E01.mkv"
                          "Show.480p.E01.mkv") 0); [lia|].
  cbn [insert_sorted].
  rewrite (comparator_names _ _ _ _ _ Ha Hc).
  destruct (Z.leb_spec (compareNames localeCompare "Show.480p.E02.mkv"
                          "Show.480p.E01.mkv") 0); [lia|].
  rewrite (comparator_names _ _ _ _ _ Ha Hb).
  destruct (Z.leb_spec (compareNames localeCompare "Show.480p.E02.mkv"
                          "Show.720p.E01.mkv") 0); [reflexivity|lia].
Qed.

Lemma order_example_witness :
  sortName show_480p_E02 = Ok "Show.480p.E02.mkv" /\
  sortName show_720p_E01 = Ok "Show.720p.E01.mkv" /\
  sortName show_480p_E01 = Ok "Show.480p.E01.mkv" /\
  0 < codeUnitCompare "Show.480p.E02.mkv" "Show.480p.E01.mkv" /\
  array_sort (comparator codeUnitCompare)
    [show_480p_E02; show_720p_E01; show_480p_E01]
  = Ok [show_480p_E01; show_480p_E02; show_720p_E01].
Proof.
  split; [reflexivity|]. split; [reflexivity|]. split; [reflexivity|].
  split; [reflexivity|].
  apply (order_example codeUnitCompare
           show_480p_E02 show_720p_E01 show_480p_E01);
    reflexivity.
Defined.

(** The episode keys play no part in the example: the file with episode
    2 and the file with episode 1 have the same key, 480. *)
Example example_episode_keys :
  map getEpisodeNumber
    ["Show.480p.E02.mkv"; "Show.720p.E01.mkv"; "Show.480p.E01.mkv"]
  = [480; 720; 480].
Proof. reflexivity. Qed.

(** ** Idempotence of the order *)

(** C4: for a [localeCompare] that is a comparison function (its two
    directions agree in sign and "not after" is transitive), sorting the
    items of a session succeeds, and sorting the result again returns it
    unchanged; the result is a permutation of the input, in order for the
    comparator, which relates any two items one way or the other, and
    items that compare equal keep their input order; it is the only list
    with these properties, whatever the sorting algorithm. *)
Theorem order_idempotent (localeCompare : string -> string -> Z)
    (l : list FileInfo) :
  sign_antisymmetric localeCompare ->
  le_transitive localeCompare ->
  Forall has_media l ->
  exists sorted,
    array_sort (comparator localeCompare) l = Ok sorted /\
    array_sort (comparator localeCompare) sorted = Ok sorted /\
    Permutation l sorted /\
    StronglySorted (not_after (compareItems localeCompare)) sorted /\
    (forall a b, compareItems localeCompare a b <= 0
                 \/ compareItems localeCompare b a <= 0) /\
    (forall x,
       filter (fun y => same_rank (compareItems localeCompare) x y = true) sorted
       = filter (fun y => same_rank (compareItems localeCompare) x y = true) l) /\
    (forall l',
       StronglySorted (not_after (compareItems localeCompare)) l' ->
       (forall x,
          filter (fun y => same_rank (compareItems localeCompare) x y = true) l'
          = filter (fun y => same_rank (compareItems localeCompare) x y = true) l) ->
       l' = sorted).
Proof.
  intros Hanti Htrans Hl.
  pose proof (compareItems_antisym _ Hanti) as Ha.
  pose proof (compareItems_trans _ Htrans) as Ht.
  exists (sort_by (compareItems localeCompare) l).
  assert (Hs : Forall has_media (sort_by (compareItems localeCompare) l)).
  { rewrite Forall_forall in *. intros x Hx. apply Hl.
    by rewrite (sort_by_perm (compareItems localeCompare) l). }
  split; [by apply array_sort_media|].
  split; [rewrite (array_sort_media _ _ Hs); by rewrite sort_by_idempotent|].
  split; [apply sort_by_perm|].
  split; [by apply sort_by_strongly_sorted|].
  split; [intros a b; by apply not_after_total|].
  split; [intros x; by apply sort_by_stable|].
  intros l' Hs' Hf'. by apply sort_by_unique.
Qed.

Lemma order_idempotent_witness :
  sign_antisymmetric codeUnitCompare /\
  le_transitive codeUnitCompare /\
  Forall has_media [show_480p_E02; show_720p_E01; show_480p_E01] /\
  exists sorted,
    array_sort (comparator codeUnitCompare)
      [show_480p_E02; show_720p_E01; show_480p_E01] = Ok sorted /\
    array_sort (comparator codeUnitCompare) sorted = Ok sorted /\
    Permutation [show_480p_E02; show_720p_E01; show_480p_E01] sorted /\
    StronglySorted (not_after (compareItems codeUnitCompare)) sorted /\
    (forall a b, compareItems codeUnitCompare a b <= 0
                 \/ compareItems codeUnitCompare b a <= 0) /\
    (forall x,
       filter (fun y => same_rank (compareItems codeUnitCompare) x y = true)
         sorted
       = filter (fun y => same_rank (compareItems codeUnitCompare) x y = true)
           [show_480p_E02; show_720p_E01; show_480p_E01]) /\
    (forall l',
       StronglySorted (not_after (compareItems codeUnitCompare)) l' ->
       (forall x,
          filter (fun y => same_rank (compareItems codeUnitCompare) x y = true)
            l'
          = filter (fun y => same_rank (compareItems codeUnitCompare) x y = true)
              [show_480p_E02; show_720p_E01; show_480p_E01]) ->
       l' = sorted).
Proof.
  assert (Hm : Forall has_media [show_480p_E02; show_720p_E01; show_480p_E01])
    by (repeat constructor; eexists; reflexivity).
  split; [exact codeUnitCompare_antisym|].
  split; [exact codeUnitCompare_trans|].
  split; [exact Hm|].
  exact (order_idempotent codeUnitCompare _
           codeUnitCompare_antisym codeUnitCompare_trans Hm).
Defined.

(** ** Computations and the relations they respect *)

Section Respects.

Variable R : World -> World -> Prop.
Hypothesis R_refl : forall w, R w w.
Hypothesis R_trans : forall w1 w2 w3, R w1 w2 -> R w2 w3 -> R w1 w3.

Lemma respects_ret {A} (a : A) : respects R (ret a).
Proof. intros w. apply R_refl. Qed.

Lemma respects_throw {A} e : respects R (@throw A e).
Proof. intros w. apply R_refl. Qed.

Lemma respects_lift {A} (r : Result A) : respects R (lift r).
Proof. intros w. apply R_refl. Qed.

Lemma respects_gets {A} (f : World -> A) : respects R (gets f).
Proof. intros w. apply R_refl. Qed.

Lemma respects_bind {A B} (m : M A) (k : A -> M B) :
  respects R m -> (forall a, respects R (k a)) -> respects R (bind m k).
Proof.
  intros Hm Hk w. unfold bind. specialize (Hm w).
  destruct (m w) as [[a|e] w1]; simpl in *; [|exact Hm].
  eapply R_trans; [exact Hm | apply Hk].
Qed.

Lemma respects_try_catch {A} (m : M A) (h : Error -> M A) :
  respects R m -> (forall e, respects R (h e)) -> respects R (try_catch m h).
Proof.
  intros Hm Hh w. unfold try_catch. specialize (Hm w).
  destruct (m w) as [[a|e] w1]; simpl in *; [exact Hm|].
  eapply R_trans; [exact Hm | apply Hh].
Qed.

Lemma respects_try_finally {A} (m : M A) (f : M unit) :
  respects R m -> respects R f -> respects R (try_finally m f).
Proof.
  intros Hm Hf w. unfold try_finally. specialize (Hm w).
  destruct (m w) as [r w1]. specialize (Hf w1).
  destruct (f w1) as [[[]|e] w2]; simpl in *; eapply R_trans; eauto.
Qed.

Lemma respects_when b (m : M unit) : respects R m -> respects R (when b m).
Proof. intros Hm. destruct b; [exact Hm | apply respects_ret]. Qed.

Lemma respects_retry_from {A} (operation : M A) maxRetries delay fuel attempt :
  respects R operation ->
  (forall ms, respects R (sleep Backoff ms)) ->
  respects R (retry_from operation maxRetries delay fuel attempt).
Proof.
  intros Hop Hsleep. revert attempt.
  induction fuel as [|fuel IH]; intros attempt; cbn [retry_from].
  - apply respects_ret.
  - destruct (attempt <=? maxRetries); [|apply respects_ret].
    apply respects_bind.
    + apply respects_try_catch.
      * apply respects_bind; [exact Hop | intros; apply respects_ret].
      * intros e. destruct (attempt =? maxRetries); [apply respects_throw|].
        apply respects_bind; [apply Hsleep | intros; apply respects_ret].
    + intros [a|]; [apply respects_ret | apply IH].
Qed.

End Respects.

(** The three relations are preorders. *)
Lemma same_sessions_refl w : same_sessions w w.
Proof. reflexivity. Qed.

Lemma same_sessions_trans w1 w2 w3 :
  same_sessions w1 w2 -> same_sessions w2 w3 -> same_sessions w1 w3.
Proof. unfold same_sessions. congruence. Qed.

Lemma same_other_sessions_refl u w : same_other_sessions u w w.
Proof. reflexivity. Qed.

Lemma same_other_sessions_trans u w1 w2 w3 :
  same_other_sessions u w1 w2 -> same_other_sessions u w2 w3 ->
  same_other_sessions u w1 w3.
Proof. unfold same_other_sessions. congruence. Qed.

Lemma same_sessions_other u w w' :
  same_sessions w w' -> same_other_sessions u w w'.
Proof. unfold same_sessions, same_other_sessions. congruence. Qed.

Lemma trace_grows_refl w : trace_grows w w.
Proof. exists []. by rewrite app_nil_r. Qed.

Lemma trace_grows_trans w1 w2 w3 :
  trace_grows w1 w2 -> trace_grows w2 w3 -> trace_grows w1 w3.
Proof.
  intros [e1 H1] [e2 H2]. exists (e1 ++ e2)%list.
  by rewrite H2, H1, app_assoc.
Qed.

(** Computations built from calls, pauses and statistics updates respect
    every preorder that these three respect. *)
Section Frame.

Variable outcome : nat -> Call -> option Error.
Variable R : World -> World -> Prop.
Hypothesis R_refl : forall w, R w w.
Hypothesis R_trans : forall w1 w2 w3, R w1 w2 -> R w2 w3 -> R w1 w3.
Hypothesis R_external : forall c, respects R (external outcome c).
Hypothesis R_sleep : forall site ms, respects R (sleep site ms).
Hypothesis R_set_users : forall f, respects R (set_users f).

Lemma frame_reply text : respects R (reply outcome text).
Proof. apply R_external. Qed.

Lemma frame_retryOperation {A} (operation : M A) maxRetries delay :
  respects R operation ->
  respects R (retryOperation operation maxRetries delay).
Proof.
  intros H. apply respects_retry_from; auto.
Qed.

Lemma frame_sendFile message file :
  respects R (sendFile outcome message file).
Proof.
  unfold sendFile. destruct (sendCall message file);
    [apply R_external | by apply respects_ret].
Qed.

Ltac frame_step :=
  first
    [ apply frame_retryOperation
    | apply frame_sendFile
    | apply frame_reply
    | apply R_external
    | apply R_sleep
    | apply R_set_users
    | apply respects_when; [exact R_refl | ]
    | apply respects_ret; exact R_refl
    | apply respects_gets; exact R_refl
    | apply respects_bind; [exact R_trans | | intros ]
    | apply respects_try_catch; [exact R_trans | | intros ]
    | progress cbv zeta ].

Lemma frame_processItem batchLength i fileInfo results :
  respects R (processItem outcome batchLength i fileInfo results).
Proof.
  unfold processItem. destruct (media (message fileInfo));
    repeat frame_step.
Qed.

Lemma frame_processBatch_from batchLength i rest results :
  respects R (processBatch_from outcome batchLength i rest results).
Proof.
  revert i results. induction rest as [|x rest IH]; intros i results;
    cbn [processBatch_from]; [frame_step|].
  frame_step; [apply frame_processItem | apply IH].
Qed.

Lemma frame_processBatch batch i t :
  respects R (processBatch outcome batch i t).
Proof. apply frame_processBatch_from. Qed.

Lemma frame_deliver_from batchesLength i rest t :
  respects R (deliver_from outcome batchesLength i rest t).
Proof.
  revert i t. induction rest as [|batch rest IH]; intros i t;
    cbn [deliver_from]; [frame_step|].
  frame_step; [repeat frame_step|].
  frame_step; [apply frame_processBatch|].
  frame_step; [repeat frame_step | apply IH].
Qed.

Lemma frame_updateStatistics userId n :
  respects R (updateStatistics outcome userId n).
Proof. unfold updateStatistics, now. repeat frame_step. Qed.

(** What [sequenceFiles] does after the sort and the update of the
    session. *)
Lemma frame_after_delivery userId totalFiles (r : M Totals) :
  respects R r ->
  respects R
    (t <- r ;;
     reply outcome (summaryMessage totalFiles t) ;;
     try_catch
       (retryOperation (updateStatistics outcome userId (totalSuccess t))
          CONFIG.MAX_RETRIES CONFIG.RETRY_DELAY ;;
        ret tt)
       (fun error => ret tt)).
Proof.
  intros Hr. frame_step; [exact Hr|].
  frame_step; [frame_step|].
  frame_step; [|frame_step].
  frame_step; [|frame_step].
  frame_step. apply frame_updateStatistics.
Qed.

End Frame.

(** The calls, the pauses and the statistics leave the sessions alone and
    only add to the trace. *)
Section BaseFrames.

Variable outcome : nat -> Call -> option Error.

Lemma external_sessions c : respects same_sessions (external outcome c).
Proof. intros w. unfold external. by destruct (outcome (calls w) c). Qed.

Lemma sleep_sessions site ms : respects same_sessions (sleep site ms).
Proof. by intros w. Qed.

Lemma set_users_sessions f : respects same_sessions (set_users f).
Proof. by intros w. Qed.

Lemma external_grows c : respects trace_grows (external outcome c).
Proof.
  intros w. unfold external.
  destruct (outcome (calls w) c); by eexists.
Qed.

Lemma sleep_grows site ms : respects trace_grows (sleep site ms).
Proof. intros w. by eexists. Qed.

Lemma set_users_grows f : respects trace_grows (set_users f).
Proof. intros w. exists []. simpl. by rewrite app_nil_r. Qed.

Lemma set_sessions_grows f : respects trace_grows (set_sessions f).
Proof. intros w. exists []. simpl. by rewrite app_nil_r. Qed.

Lemma external_others u c :
  respects (same_other_sessions u) (external outcome c).
Proof. intros w. apply same_sessions_other, external_sessions. Qed.

Lemma sleep_others u site ms :
  respects (same_other_sessions u) (sleep site ms).
Proof. intros w. apply same_sessions_other, sleep_sessions. Qed.

Lemma set_users_others u f :
  respects (same_other_sessions u) (set_users f).
Proof. intros w. apply same_sessions_other, set_users_sessions. Qed.

Lemma alter_others u f :
  respects (same_other_sessions u) (set_sessions (alter f u)).
Proof.
  intros w. unfold same_other_sessions. simpl.
  apply map_eq. intros k. destruct (decide (k = u)) as [->|Hne].
  - by rewrite !lookup_delete_eq.
  - by rewrite !lookup_delete_ne, lookup_alter_ne.
Qed.

End BaseFrames.

(** ** What the delivery loop emits *)

Lemma emits_nil w : emits w w [].
Proof. unfold emits. by rewrite app_nil_r. Qed.

Lemma emits_app w1 w2 w3 evs1 evs2 :
  emits w1 w2 evs1 -> emits w2 w3 evs2 -> emits w1 w3 (evs1 ++ evs2).
Proof.
  unfold emits. intros (H1 & H2 & H3) (H4 & H5 & H6).
  rewrite H4, H1, H5, H2, H6, H3, app_assoc. done.
Qed.

Lemma emits_sessions w w' evs : emits w w' evs -> same_sessions w w'.
Proof. by intros (_ & ? & _). Qed.

Lemma emits_grows w w' evs : emits w w' evs -> trace_grows w w'.
Proof. intros (? & _ & _). by exists evs. Qed.

Section Delivery.

Variable outcome : nat -> Call -> option Error.

Lemma external_spec c w :
  exists w',
    external outcome c w
      = (match outcome (calls w) c with
         | None => Ok tt
         | Some e => Throw e
         end, w') /\
    emits w w' [Called c (outcome (calls w) c)] /\
    calls w' = S (calls w) /\ clock w' = clock w.
Proof.
  unfold external. destruct (outcome (calls w) c);
    eexists; (split; [reflexivity|]); by repeat split.
Qed.

Lemma sleep_spec site ms w :
  exists w',
    sleep site ms w = (Ok tt, w') /\ emits w w' [Slept site ms].
Proof. eexists. split; [reflexivity|]. by repeat split. Qed.

(** [retryOperation] on a single call: at most [maxRetries] attempts, a
    pause of [delay * 2 ^ (attempt - 1)] after each rejected attempt but
    the last, and the last error thrown when every attempt is rejected. *)
Lemma retry_from_spec c maxRetries delay fuel attempt w :
  1 <= attempt <= maxRetries ->
  (Z.to_nat (maxRetries - attempt + 1) <= fuel)%nat ->
  exists evs r w',
    retry_trace c maxRetries delay attempt evs r /\
    Forall (answered_by outcome) evs /\
    retry_from (external outcome c) maxRetries delay fuel attempt w
      = (match r with Ok _ => Ok (Some tt) | Throw e => Throw e end, w') /\
    emits w w' evs.
Proof.
  revert attempt w. induction fuel as [|fuel IH]; intros attempt w Hatt Hfuel.
  - lia.
  - cbn [retry_from].
    destruct (Z.leb_spec attempt maxRetries) as [_|]; [|lia].
    unfold bind at 1, try_catch, bind at 1.
    destruct (external_spec c w) as (w1 & -> & Hw1 & _).
    destruct (outcome (calls w) c) as [e|] eqn:Hout.
    + destruct (Z.eqb_spec attempt maxRetries) as [->|Hne].
      * exists [Called c (Some e)], (Throw e), w1.
        repeat split; try apply Hw1.
        -- constructor.
        -- repeat constructor. by exists (calls w).
      * unfold bind at 1.
        destruct (sleep_spec Backoff (delay * 2 ^ (attempt - 1)) w1)
          as (w2 & -> & Hw2).
        unfold ret at 1.
        destruct (IH (attempt + 1) w2 ltac:(lia) ltac:(lia))
          as (evs & r & w3 & Htr & Hans & -> & Hw3).
        exists (Called c (Some e) :: Slept Backoff (delay * 2 ^ (attempt - 1)) :: evs),
          r, w3.
        split; [constructor; [lia | exact Htr]|].
        split; [repeat constructor; [by exists (calls w) | exact Hans]|].
        split; [reflexivity|].
        apply (emits_app _ _ _ [_] (_ :: _) Hw1).
        apply (emits_app _ _ _ [_] _ Hw2 Hw3).
    + unfold ret.
      exists [Called c None], (Ok tt), w1.
      split; [constructor; lia|].
      split; [repeat constructor; by exists (calls w)|].
      split; [reflexivity | exact Hw1].
Qed.

Lemma retryOperation_spec c maxRetries delay w :
  1 <= maxRetries ->
  exists evs r w',
    retry_trace c maxRetries delay 1 evs r /\
    Forall (answered_by outcome) evs /\
    retryOperation (external outcome c) maxRetries delay w
      = (match r with Ok _ => Ok (Some tt) | Throw e => Throw e end, w') /\
    emits w w' evs.
Proof.
  intros H. apply retry_from_spec; [lia|].
  replace (maxRetries - 1 + 1) with maxRetries by lia. lia.
Qed.

(** The number of attempts in a retry trace. *)
Lemma retry_trace_attempts c maxRetries delay attempt evs r :
  retry_trace c maxRetries delay attempt evs r ->
  1 <= attempts evs <= maxRetries - attempt + 1.
Proof.
  unfold attempts.
  induction 1 as [attempt H | e | attempt e evs r Hlt Htr IH].
  - rewrite filter_cons. simpl. lia.
  - rewrite filter_cons. simpl. lia.
  - rewrite !filter_cons. simpl in *. lia.
Qed.

(** A retry trace ends with a call, never with a pause. *)
Lemma retry_trace_last c maxRetries delay attempt evs r :
  retry_trace c maxRetries delay attempt evs r ->
  exists evs' rejected, evs = evs' ++ [Called c rejected] /\
    (rejected = None <-> r = Ok tt).
Proof.
  induction 1 as [attempt H | e | attempt e evs r Hlt Htr IH].
  - exists [], None. by split.
  - exists [], (Some e). split; [done|]. split; discriminate.
  - destruct IH as (evs' & rej & -> & Hr).
    by exists (Called c (Some e) :: Slept Backoff (delay * 2 ^ (attempt - 1)) :: evs'), rej.
Qed.

End Delivery.

Section Batches.

Variable outcome : nat -> Call -> option Error.

Lemma sendCall_media m f :
  media m = Some f -> exists c, sendCall m f = Some c /\ is_send c = true.
Proof.
  unfold media, sendCall, or_else.
  destruct (msg_document m), (msg_video m), (msg_audio m);
    intros H; try discriminate; by eexists.
Qed.

Lemma count_item_sum x fate r :
  success (count_item x fate r) + failed (count_item x fate r)
    = success r + failed r + 1.
Proof. destruct fate; simpl; lia. Qed.

(** One iteration of the loop of [processBatch]: it never throws, and the
    item is counted once, as a success or as a failure. *)
Lemma processItem_spec batchLength i x results w :
  exists evs fate w',
    item_trace batchLength i x evs fate /\
    Forall (answered_by outcome) evs /\
    processItem outcome batchLength i x results w
      = (Ok (count_item x fate results), w') /\
    emits w w' evs.
Proof.
  unfold processItem.
  destruct (media (message x)) as [file|] eqn:Hmedia.
  - destruct (sendCall_media _ _ Hmedia) as (c & Hc & _).
    unfold sendFile. rewrite Hc.
    destruct (retryOperation_spec outcome c CONFIG.MAX_RETRIES
                CONFIG.RETRY_DELAY w ltac:(unfold CONFIG.MAX_RETRIES; lia))
      as (evs & r & w1 & Htr & Hans & Hrun & Hw1).
    unfold try_catch, bind at 1. rewrite Hrun.
    destruct r as [[]|e].
    + unfold bind, when, pause_after_item in *.
      destruct (i <? batchLength - 1) eqn:Hi.
      * destruct (sleep_spec BetweenFiles CONFIG.DELAY_BETWEEN_FILES w1)
          as (w2 & -> & Hw2).
        exists (evs ++ [Slept BetweenFiles CONFIG.DELAY_BETWEEN_FILES]),
          Delivered, w2.
        split.
        { pose proof (item_delivered batchLength i x file c evs Hmedia Hc Htr)
            as Hit. unfold pause_after_item in Hit. by rewrite Hi in Hit. }
        split; [apply Forall_app; split; [exact Hans | by repeat constructor]|].
        split; [reflexivity | by eapply emits_app].
      * exists (evs ++ []), Delivered, w1.
        split.
        { pose proof (item_delivered batchLength i x file c evs Hmedia Hc Htr)
            as Hit. unfold pause_after_item in Hit. by rewrite Hi in Hit. }
        split; [by rewrite app_nil_r|].
        split; [reflexivity | by rewrite app_nil_r].
    + exists evs, (Failed e), w1.
      split; [by eapply item_failed|].
      split; [exact Hans|]. split; [reflexivity | exact Hw1].
  - exists [], Skipped, w.
    split; [by constructor|]. split; [constructor|].
    split; [reflexivity | apply emits_nil].
Qed.

Lemma processBatch_from_spec batchLength i rest results w :
  exists evs fates w',
    batch_trace batchLength i rest evs fates /\
    Forall (answered_by outcome) evs /\
    processBatch_from outcome batchLength i rest results w
      = (Ok (count_items rest fates results), w') /\
    emits w w' evs.
Proof.
  revert i results w. induction rest as [|x rest IH]; intros i results w.
  - exists [], [], w. split; [constructor|]. split; [constructor|].
    split; [reflexivity | apply emits_nil].
  - cbn [processBatch_from]. unfold bind.
    destruct (processItem_spec batchLength i x results w)
      as (evs & fate & w1 & Hit & Hans & -> & Hw1).
    destruct (IH (i + 1) (count_item x fate results) w1)
      as (evs' & fates & w2 & Hbt & Hans' & -> & Hw2).
    exists (evs ++ evs'), (fate :: fates), w2.
    split; [by econstructor|].
    split; [by apply Forall_app|].
    split; [reflexivity | by eapply emits_app].
Qed.

Lemma processBatch_spec batch batchIndex totalBatches w :
  exists evs fates w',
    batch_trace (Z.of_nat (length batch)) 0 batch evs fates /\
    Forall (answered_by outcome) evs /\
    processBatch outcome batch batchIndex totalBatches w
      = (Ok (count_items batch fates (mkResults 0 0 [])), w') /\
    emits w w' evs.
Proof. apply processBatch_from_spec. Qed.

(** The loop over the batches: it is left early only by a rejected
    progress notice. *)
Lemma deliver_from_spec batchesLength i rest t w :
  exists evs fates left w',
    delivery_trace batchesLength i rest evs fates left /\
    Forall (answered_by outcome) evs /\
    deliver_from outcome batchesLength i rest t w
      = (match left with
         | None => Ok (add_batches rest fates t)
         | Some e => Throw e
         end, w') /\
    emits w w' evs.
Proof.
  revert i t w. induction rest as [|batch rest IH]; intros i t w.
  - exists [], [], None, w. split; [constructor|]. split; [constructor|].
    split; [reflexivity | apply emits_nil].
  - cbn [deliver_from].
    assert (Hnotice : exists w1,
      when (batchesLength >? 1)
        (reply outcome (ProcessingBatch (i + 1) batchesLength)) w
      = (match (if batchesLength >? 1
                then outcome (calls w)
                       (CtxReply (ProcessingBatch (i + 1) batchesLength))
                else None) with
         | None => Ok tt
         | Some e => Throw e
         end, w1) /\
      emits w w1 (progress_notice batchesLength i
                    (outcome (calls w)
                       (CtxReply (ProcessingBatch (i + 1) batchesLength))))).
    { unfold when, progress_notice, reply.
      destruct (batchesLength >? 1).
      - destruct (external_spec outcome
                    (CtxReply (ProcessingBatch (i + 1) batchesLength)) w)
          as (w1 & Hrun & Hw1 & _). by exists w1.
      - exists w. split; [reflexivity | apply emits_nil]. }
    destruct Hnotice as (w1 & Hrun1 & Hw1).
    unfold bind at 1. rewrite Hrun1.
    destruct (batchesLength >? 1) eqn:Hmany.
    + destruct (outcome (calls w)
                  (CtxReply (ProcessingBatch (i + 1) batchesLength)))
        as [e|] eqn:Hout.
      * exists (progress_notice batchesLength i (Some e)), [], (Some e), w1.
        split; [constructor; lia|].
        split.
        { unfold progress_notice. rewrite Hmany.
          repeat constructor. by exists (calls w). }
        by split.
      * destruct (processBatch_spec batch i batchesLength w1)
          as (evs & fs & w2 & Hbt & Hans & Hrun2 & Hw2).
        unfold bind at 1. rewrite Hrun2.
        assert (Hpause : exists w3,
          when (i <? batchesLength - 1)
            (sleep BetweenBatches CONFIG.DELAY_BETWEEN_BATCHES) w2
          = (Ok tt, w3) /\
          emits w2 w3 (pause_after_batch batchesLength i)).
        { unfold when, pause_after_batch.
          destruct (i <? batchesLength - 1).
          - apply sleep_spec.
          - exists w2. split; [reflexivity | apply emits_nil]. }
        destruct Hpause as (w3 & Hrun3 & Hw3).
        unfold bind at 1. rewrite Hrun3.
        destruct (IH (i + 1)
                    (mkTotals
                       (totalSuccess t
                        + success (count_items batch fs (mkResults 0 0 [])))
                       (totalFailed t
                        + failed (count_items batch fs (mkResults 0 0 [])))
                       (allErrors t
                        ++ errors (count_items batch fs (mkResults 0 0 []))))
                    w3)
          as (evs' & fates & left & w4 & Hdt & Hans' & Hrun4 & Hw4).
        exists (progress_notice batchesLength i None ++ evs
                  ++ pause_after_batch batchesLength i ++ evs'),
          (fs :: fates), left, w4.
        split; [by constructor|].
        split.
        { repeat (apply Forall_app; split); try assumption.
          - unfold progress_notice. rewrite Hmany.
            repeat constructor. by exists (calls w).
          - unfold pause_after_batch. destruct (i <? batchesLength - 1);
              by repeat constructor. }
        split; [exact Hrun4|].
        eapply emits_app; [exact Hw1|].
        eapply emits_app; [exact Hw2|].
        eapply emits_app; [exact Hw3 | exact Hw4].
    + destruct (processBatch_spec batch i batchesLength w1)
        as (evs & fs & w2 & Hbt & Hans & Hrun2 & Hw2).
      unfold bind at 1. rewrite Hrun2.
      assert (Hpause : exists w3,
        when (i <? batchesLength - 1)
          (sleep BetweenBatches CONFIG.DELAY_BETWEEN_BATCHES) w2
        = (Ok tt, w3) /\
        emits w2 w3 (pause_after_batch batchesLength i)).
      { unfold when, pause_after_batch.
        destruct (i <? batchesLength - 1).
        - apply sleep_spec.
        - exists w2. split; [reflexivity | apply emits_nil]. }
      destruct Hpause as (w3 & Hrun3 & Hw3).
      unfold bind at 1. rewrite Hrun3.
      destruct (IH (i + 1)
                  (mkTotals
                     (totalSuccess t
                      + success (count_items batch fs (mkResults 0 0 [])))
                     (totalFailed t
                      + failed (count_items batch fs (mkResults 0 0 [])))
                     (allErrors t
                      ++ errors (count_items batch fs (mkResults 0 0 []))))
                  w3)
        as (evs' & fates & left & w4 & Hdt & Hans' & Hrun4 & Hw4).
      exists (progress_notice batchesLength i None ++ evs
                ++ pause_after_batch batchesLength i ++ evs'),
        (fs :: fates), left, w4.
      split; [by constructor|].
      split.
      { repeat (apply Forall_app; split); try assumption.
        - unfold progress_notice. rewrite Hmany. constructor.
        - unfold pause_after_batch. destruct (i <? batchesLength - 1);
            by repeat constructor. }
      split; [exact Hrun4|].
      unfold progress_notice in Hw1 |- *. rewrite Hmany in Hw1 |- *.
      eapply emits_app; [exact Hw1|].
      eapply emits_app; [exact Hw2|].
      eapply emits_app; [exact Hw3 | exact Hw4].
Qed.

End Batches.

(** ** Counting *)

Lemma batch_trace_fates batchLength i rest evs fates :
  batch_trace batchLength i rest evs fates -> length fates = length rest.
Proof. induction 1; simpl; congruence. Qed.

Lemma item_trace_skipped batchLength i x evs fate :
  item_trace batchLength i x evs fate ->
  (fate = Skipped <-> media (message x) = None).
Proof.
  destruct 1 as [Hm | file c evs Hm _ _ | file c evs e Hm _ _].
  - tauto.
  - split; [discriminate | congruence].
  - split; [discriminate | congruence].
Qed.

Lemma count_skipped_cons x rest :
  count_skipped (x :: rest)
  = (if decide (media (message x) = None) then 1 else 0) + count_skipped rest.
Proof.
  unfold count_skipped. rewrite filter_cons.
  destruct (decide (media (message x) = None)); simpl length; lia.
Qed.

(** Every item of a batch is counted once; an error description is added
    for the failed items and none for the skipped ones. *)
Lemma batch_trace_counts batchLength i rest evs fates r :
  batch_trace batchLength i rest evs fates ->
  success (count_items rest fates r) + failed (count_items rest fates r)
    = success r + failed r + Z.of_nat (length rest) /\
  success r <= success (count_items rest fates r) /\
  failed r <= failed (count_items rest fates r) /\
  Z.of_nat (length (errors (count_items rest fates r))) + count_skipped rest
    = Z.of_nat (length (errors r))
      + (failed (count_items rest fates r) - failed r).
Proof.
  intros H. revert r.
  induction H as [i | i x rest evs fate evs' fates Hit Hbt IH]; intros r.
  - simpl. unfold count_skipped. simpl. lia.
  - cbn [count_items]. specialize (IH (count_item x fate r)).
    rewrite count_skipped_cons.
    pose proof (item_trace_skipped _ _ _ _ _ Hit) as Hskip.
    destruct IH as (IH1 & IH2 & IH3 & IH4).
    cbn [length]. rewrite Nat2Z.inj_succ.
    destruct fate; cbn [count_item success failed errors] in *.
    + destruct (decide (media (message x) = None)) as [Hn|Hn];
        [apply Hskip in Hn; discriminate | lia].
    + rewrite length_app in IH4. cbn [length] in IH4.
      destruct (decide (media (message x) = None)) as [Hn|Hn];
        [apply Hskip in Hn; discriminate | lia].
    + destruct (decide (media (message x) = None)) as [Hn|Hn];
        [lia | destruct Hn; by apply Hskip].
Qed.

Lemma delivery_trace_counts batchesLength i rest evs fates t :
  delivery_trace batchesLength i rest evs fates None ->
  totalSuccess (add_batches rest fates t) + totalFailed (add_batches rest fates t)
    = totalSuccess t + totalFailed t + Z.of_nat (length (concat rest)) /\
  totalSuccess t <= totalSuccess (add_batches rest fates t) /\
  totalFailed t <= totalFailed (add_batches rest fates t).
Proof.
  intros H. remember None as left eqn:Hleft. revert t.
  induction H as [i | i batch rest e Hgt
                 | i batch rest evs fs evs' fates left Hbt Hdt IH];
    intros t; [|discriminate|].
  - simpl. lia.
  - cbn [add_batches concat]. specialize (IH Hleft).
    destruct (IH (add_results (count_items batch fs (mkResults 0 0 [])) t))
      as (IH1 & IH2 & IH3).
    destruct (batch_trace_counts _ _ _ _ _ (mkResults 0 0 []) Hbt)
      as (B1 & B2 & B3 & _).
    unfold add_results in *. cbn [totalSuccess totalFailed success failed] in *.
    rewrite length_app, Nat2Z.inj_add. lia.
Qed.

(** ** The batches *)

Lemma slice_take_drop {A} (l : list A) (i n : Z) :
  0 <= i -> 0 <= n ->
  slice l i (i + n) = take (Z.to_nat n) (drop (Z.to_nat i) l).
Proof.
  intros Hi Hn. unfold slice. by replace (i + n - i) with n by lia.
Qed.

Lemma batches_from_spec fuel i l :
  0 <= i ->
  (Z.to_nat (Z.of_nat (length l) - i) <= fuel)%nat ->
  concat (batches_from fuel i l) = drop (Z.to_nat i) l /\
  Forall (fun b => (0 < length b <= Z.to_nat CONFIG.BATCH_SIZE)%nat)
    (batches_from fuel i l).
Proof.
  revert i. induction fuel as [|fuel IH]; intros i Hi Hfuel.
  - simpl. split; [|constructor].
    symmetry. apply drop_ge. lia.
  - cbn [batches_from].
    destruct (Z.ltb_spec i (Z.of_nat (length l))) as [Hlt|Hge].
    + destruct (IH (i + CONFIG.BATCH_SIZE)
                  ltac:(unfold CONFIG.BATCH_SIZE; lia)
                  ltac:(unfold CONFIG.BATCH_SIZE; lia)) as [IH1 IH2].
      rewrite slice_take_drop by (unfold CONFIG.BATCH_SIZE; lia).
      split.
      * cbn [concat]. rewrite IH1.
        replace (Z.to_nat (i + CONFIG.BATCH_SIZE))
          with (Z.to_nat i + Z.to_nat CONFIG.BATCH_SIZE)%nat
          by (unfold CONFIG.BATCH_SIZE; lia).
        rewrite <- drop_drop. apply take_drop.
      * constructor; [|exact IH2].
        rewrite length_take, length_drop.
        unfold CONFIG.BATCH_SIZE. lia.
    + split; [|constructor]. simpl. symmetry. apply drop_ge. lia.
Qed.

(** The batches are the sorted list cut in pieces of at most 50 items,
    none of them empty. *)
Lemma make_batches_spec l :
  concat (make_batches l) = l /\
  Forall (fun b => (0 < length b <= 50)%nat) (make_batches l).
Proof.
  destruct (batches_from_spec (length l) 0 l ltac:(lia) ltac:(lia))
    as [H1 H2].
  split; [exact H1 | exact H2].
Qed.

Lemma make_batches_nonempty l : l <> [] -> make_batches l <> [].
Proof.
  intros Hl Hb. destruct (make_batches_spec l) as [Hc _].
  rewrite Hb in Hc. simpl in Hc. congruence.
Qed.

Lemma make_batches_media l :
  Forall has_media l -> Forall (Forall has_media) (make_batches l).
Proof.
  intros Hl. destruct (make_batches_spec l) as [Hc _].
  rewrite <- Hc in Hl. by apply Forall_concat.
Qed.

(** ** Where a delivery ends *)

Lemma sendCall_send m f c : sendCall m f = Some c -> is_send c = true.
Proof.
  unfold sendCall.
  destruct (msg_document m), (msg_video m), (msg_audio m);
    intros [= <-]; reflexivity.
Qed.

Lemma item_trace_last batchLength i x evs fate :
  item_trace batchLength i x evs fate ->
  has_media x -> i = batchLength - 1 ->
  exists evs0 c rejected,
    evs = evs0 ++ [Called c rejected] /\ is_send c = true.
Proof.
  intros H [f Hf] Hi.
  destruct H as [Hm | file c evs Hm Hc Htr | file c evs e Hm Hc Htr].
  - congruence.
  - destruct (retry_trace_last _ _ _ _ _ _ Htr) as (evs0 & rej & -> & _).
    unfold pause_after_item.
    destruct (Z.ltb_spec i (batchLength - 1)); [lia|].
    rewrite app_nil_r. exists evs0, c, rej.
    split; [reflexivity | by eapply sendCall_send].
  - destruct (retry_trace_last _ _ _ _ _ _ Htr) as (evs0 & rej & -> & _).
    exists evs0, c, rej. split; [reflexivity | by eapply sendCall_send].
Qed.

Lemma batch_trace_last batchLength i rest evs fates :
  batch_trace batchLength i rest evs fates ->
  rest <> [] -> Forall has_media rest ->
  batchLength = i + Z.of_nat (length rest) ->
  exists evs0 c rejected,
    evs = evs0 ++ [Called c rejected] /\ is_send c = true.
Proof.
  induction 1 as [i | i x rest evs fate evs' fates Hit Hbt IH];
    intros Hne Hmedia Hlen; [done|].
  apply Forall_cons in Hmedia as [Hx Hrest].
  destruct rest as [|y rest].
  - assert (evs' = []) as -> by (by inversion Hbt). rewrite app_nil_r.
    apply (item_trace_last _ _ _ _ _ Hit Hx). simpl in Hlen. lia.
  - destruct (IH ltac:(done) Hrest
                ltac:(cbn [length] in *; lia)) as (evs0 & c & rej & -> & Hc).
    exists (evs ++ evs0), c, rej. by rewrite app_assoc.
Qed.

(** A delivery that went through all the batches ends with a call that
    sends a file: no pause follows the last item of the last batch. *)
Lemma delivery_trace_last batchesLength i rest evs fates :
  delivery_trace batchesLength i rest evs fates None ->
  rest <> [] ->
  Forall (fun b => b <> []) rest -> Forall (Forall has_media) rest ->
  batchesLength = i + Z.of_nat (length rest) ->
  exists evs0 c rejected,
    evs = evs0 ++ [Called c rejected] /\ is_send c = true.
Proof.
  intros H. remember None as left eqn:Hleft.
  induction H as [i | i batch rest e Hgt
                 | i batch rest evs fs evs' fates left Hbt Hdt IH];
    intros Hne Hfull Hmedia Hlen; [done|discriminate|].
  apply Forall_cons in Hfull as [Hb Hfull].
  apply Forall_cons in Hmedia as [Hbm Hmedia].
  destruct rest as [|b' rest].
  - assert (evs' = []) as -> by (by inversion Hdt). rewrite app_nil_r.
    unfold pause_after_batch.
    destruct (Z.ltb_spec i (batchesLength - 1));
      [simpl in *; lia|].
    rewrite app_nil_r.
    destruct (batch_trace_last _ _ _ _ _ Hbt Hb Hbm ltac:(lia))
      as (evs0 & c & rej & -> & Hc).
    exists (progress_notice batchesLength i None ++ evs0), c, rej.
    by rewrite app_assoc.
  - destruct (IH Hleft ltac:(done) Hfull Hmedia
                ltac:(cbn [length] in *; lia))
      as (evs0 & c & rej & -> & Hc).
    exists (progress_notice batchesLength i None ++ evs
              ++ pause_after_batch batchesLength i ++ evs0), c, rej.
    by rewrite !app_assoc.
Qed.

(** ** When every send is rejected *)

Section Rejected.

Variable outcome : nat -> Call -> option Error.
Hypothesis all_rejected :
  forall n c, is_send c = true -> outcome n c <> None.

Lemma item_trace_rejected batchLength i x evs fate :
  item_trace batchLength i x evs fate ->
  Forall (answered_by outcome) evs -> fate <> Delivered.
Proof.
  intros H Hans.
  destruct H as [Hm | file c evs Hm Hc Htr | file c evs e Hm Hc Htr];
    [discriminate | | discriminate].
  destruct (retry_trace_last _ _ _ _ _ _ Htr) as (evs0 & rej & -> & Hrej).
  apply Forall_app in Hans as [Hans _].
  apply Forall_app in Hans as [_ Hans].
  apply Forall_cons in Hans as [[n Hn] _].
  assert (rej = None) as -> by (by apply Hrej).
  destruct (all_rejected n c (sendCall_send _ _ _ Hc) Hn).
Qed.

Lemma batch_trace_rejected batchLength i rest evs fates r :
  batch_trace batchLength i rest evs fates ->
  Forall (answered_by outcome) evs ->
  success (count_items rest fates r) = success r.
Proof.
  intros H. revert r.
  induction H as [i | i x rest evs fate evs' fates Hit Hbt IH];
    intros r Hans; [reflexivity|].
  apply Forall_app in Hans as [Hans Hans'].
  cbn [count_items]. rewrite (IH _ Hans').
  pose proof (item_trace_rejected _ _ _ _ _ Hit Hans) as Hfate.
  by destruct fate.
Qed.

Lemma delivery_trace_rejected batchesLength i rest evs fates left t :
  delivery_trace batchesLength i rest evs fates left ->
  Forall (answered_by outcome) evs ->
  totalSuccess (add_batches rest fates t) = totalSuccess t.
Proof.
  intros H. revert t.
  induction H as [i | i batch rest e Hgt
                 | i batch rest evs fs evs' fates left Hbt Hdt IH];
    intros t Hans; [reflexivity | reflexivity |].
  apply Forall_app in Hans as [_ Hans].
  apply Forall_app in Hans as [Hb Hans].
  apply Forall_app in Hans as [_ Hans].
  cbn [add_batches]. rewrite (IH _ Hans).
  unfold add_results. cbn [totalSuccess].
  rewrite (batch_trace_rejected _ _ _ _ _ _ Hbt Hb). simpl. lia.
Qed.

End Rejected.

(** ** [endSequence] *)

Lemma try_catch_ret {A} (m : M A) (a : A) w :
  exists a' w', try_catch m (fun _ => ret a) w = (Ok a', w').
Proof.
  unfold try_catch. destruct (m w) as [[a'|e] w']; by eexists _, _.
Qed.

Section Close.

Variable localeCompare : string -> string -> Z.
Variable outcome : nat -> Call -> option Error.

Lemma external_run c w :
  external outcome c w
  = (match outcome (calls w) c with
     | None => Ok tt
     | Some e => Throw e
     end, after_call w c (outcome (calls w) c)).
Proof. unfold external, after_call. by destruct (outcome (calls w) c). Qed.

Lemma endSequence_none msg w :
  userFileSequences w !! from_id msg = None ->
  endSequence localeCompare outcome msg w
  = reply outcome NoOngoingProcess w.
Proof.
  intros Hs. unfold endSequence. unfold bind at 1, gets. by rewrite Hs.
Qed.

Lemma endSequence_empty msg w s :
  userFileSequences w !! from_id msg = Some s ->
  files s = [] ->
  endSequence localeCompare outcome msg w
  = (reply outcome NoFilesToSequence ;;
     set_sessions (delete (from_id msg))) w.
Proof.
  intros Hs He. unfold endSequence. unfold bind at 1, gets.
  by rewrite Hs, He.
Qed.

Lemma endSequence_found msg w s :
  userFileSequences w !! from_id msg = Some s ->
  files s <> [] ->
  endSequence localeCompare outcome msg w =
  (reply outcome (StartingToSequence (Z.of_nat (length (files s)))) ;;
   try_finally
     (try_catch
        (sequenceFiles localeCompare outcome (from_id msg) s
           (Z.of_nat (length (files s))))
        (fun error => reply outcome SequencingError))
     (set_sessions (delete (from_id msg)))) w.
Proof.
  intros Hs Hne. unfold endSequence. unfold bind at 1, gets. rewrite Hs.
  destruct (Z.eqb_spec (Z.of_nat (length (files s))) 0) as [H0|_].
  - destruct (files s); [done | simpl in H0; lia].
  - reflexivity.
Qed.

Lemma close_notice_empty s : files s = [] -> close_notice s = NoFilesToSequence.
Proof. unfold close_notice. by intros ->. Qed.

Lemma close_notice_found s :
  files s <> [] ->
  close_notice s = StartingToSequence (Z.of_nat (length (files s))).
Proof.
  intros H. unfold close_notice.
  destruct (Z.eqb_spec (Z.of_nat (length (files s))) 0) as [H0|_];
    [|reflexivity].
  destruct (files s); [done | simpl in H0; lia].
Qed.

(** The block under [try] touches no session but the user's own. *)
Lemma sequenceFiles_others userId s n :
  respects (same_other_sessions userId)
    (sequenceFiles localeCompare outcome userId s n).
Proof.
  unfold sequenceFiles.
  apply respects_bind; [apply same_other_sessions_trans | |intros sorted].
  { apply respects_lift, same_other_sessions_refl. }
  apply respects_bind; [apply same_other_sessions_trans | |intros _].
  { apply alter_others. }
  cbv zeta.
  apply (frame_after_delivery outcome (same_other_sessions userId)
           (same_other_sessions_refl userId)
           (same_other_sessions_trans userId)
           (external_others outcome userId)
           (sleep_others userId)
           (set_users_others userId)).
  apply (frame_deliver_from outcome (same_other_sessions userId)
           (same_other_sessions_refl userId)
           (same_other_sessions_trans userId)
           (external_others outcome userId)
           (sleep_others userId)).
Qed.

(** [try { ... } catch { ... } finally { delete }]: whatever happens in
    the block, the session of the user is gone after it. *)
Lemma guarded_block_sessions userId s n w :
  userFileSequences
    (snd (try_finally
            (try_catch (sequenceFiles localeCompare outcome userId s n)
               (fun error => reply outcome SequencingError))
            (set_sessions (delete userId)) w))
  = delete userId (userFileSequences w).
Proof.
  assert (H : respects (same_other_sessions userId)
                (try_catch (sequenceFiles localeCompare outcome userId s n)
                   (fun error => reply outcome SequencingError))).
  { apply respects_try_catch; [apply same_other_sessions_trans | |intros e].
    - apply sequenceFiles_others.
    - apply external_others. }
  specialize (H w). unfold try_finally.
  destruct (try_catch _ _ w) as [r w1]. exact H.
Qed.

(** When the first reply goes through, the session is removed, whatever
    the result of [endSequence]. *)
Lemma endSequence_removes msg w s :
  userFileSequences w !! from_id msg = Some s ->
  outcome (calls w) (CtxReply (close_notice s)) = None ->
  userFileSequences (snd (endSequence localeCompare outcome msg w))
  = delete (from_id msg) (userFileSequences w).
Proof.
  intros Hs Hout. destruct (files s) as [|x l] eqn:Hfiles.
  - rewrite (endSequence_empty msg w s Hs Hfiles).
    rewrite close_notice_empty in Hout by exact Hfiles.
    unfold bind, reply. rewrite external_run, Hout. reflexivity.
  - assert (Hne : files s <> []) by (rewrite Hfiles; done).
    rewrite (endSequence_found msg w s Hs Hne).
    rewrite close_notice_found in Hout by exact Hne.
    unfold bind, reply. rewrite external_run, Hout.
    by rewrite guarded_block_sessions.
Qed.

(** When the first reply is rejected, [endSequence] throws at once and the
    session stays. *)
Lemma endSequence_keeps msg w s e :
  userFileSequences w !! from_id msg = Some s ->
  outcome (calls w) (CtxReply (close_notice s)) = Some e ->
  endSequence localeCompare outcome msg w
  = (Throw e, after_call w (CtxReply (close_notice s)) (Some e)).
Proof.
  intros Hs Hout. destruct (files s) as [|x l] eqn:Hfiles.
  - rewrite (endSequence_empty msg w s Hs Hfiles).
    rewrite close_notice_empty in * by exact Hfiles.
    unfold bind, reply. by rewrite external_run, Hout.
  - assert (Hne : files s <> []) by (rewrite Hfiles; done).
    rewrite (endSequence_found msg w s Hs Hne).
    rewrite close_notice_found in * by exact Hne.
    unfold bind, reply. by rewrite external_run, Hout.
Qed.

(** After a normal return of [endSequence] the user has no session. *)
Lemma endSequence_returns msg w :
  is_ok (fst (endSequence localeCompare outcome msg w)) = true ->
  userFileSequences (snd (endSequence localeCompare outcome msg w))
    !! from_id msg = None.
Proof.
  intros Hok.
  destruct (userFileSequences w !! from_id msg) as [s|] eqn:Hs.
  - destruct (outcome (calls w) (CtxReply (close_notice s))) as [e|] eqn:Hout.
    + rewrite (endSequence_keeps msg w s e Hs Hout) in Hok. discriminate.
    + rewrite (endSequence_removes msg w s Hs Hout).
      apply lookup_delete_eq.
  - rewrite (endSequence_none msg w Hs). unfold reply.
    rewrite external_run. exact Hs.
Qed.

(** The events of the block under [try]: the delivery of the batches of
    the sorted files, then the summary when the delivery went through. *)
Lemma guarded_block_trace userId s n w :
  Forall has_media (files s) ->
  exists evs fates left evs_after,
    delivery_trace
      (Z.of_nat (length (make_batches
                           (sort_by (compareItems localeCompare) (files s)))))
      0 (make_batches (sort_by (compareItems localeCompare) (files s)))
      evs fates left /\
    Forall (answered_by outcome) evs /\
    trace
      (snd (try_finally
              (try_catch (sequenceFiles localeCompare outcome userId s n)
                 (fun error => reply outcome SequencingError))
              (set_sessions (delete userId)) w))
    = trace w ++ evs ++ evs_after /\
    (left = None ->
     exists k more,
       let summary :=
         CtxReply
           (summaryMessage n
              (add_batches
                 (make_batches
                    (sort_by (compareItems localeCompare) (files s)))
                 fates (mkTotals 0 0 []))) in
       evs_after = Called summary (outcome k summary) :: more).
Proof.
  intros Hmedia.
  set (batches := make_batches (sort_by (compareItems localeCompare) (files s))).
  unfold try_finally, try_catch, sequenceFiles.
  unfold bind at 1, lift. rewrite (array_sort_media _ _ Hmedia).
  unfold bind at 1, set_sessions at 1, modify.
  cbv zeta. fold batches. unfold bind at 1.
  match goal with
  | |- context [deliver_from _ _ _ _ _ ?w1] =>
      destruct (deliver_from_spec outcome (Z.of_nat (length batches)) 0
                  batches (mkTotals 0 0 []) w1)
        as (evs & fates & left & w2 & Hdt & Hans & Hrun & Hw2)
  end.
  rewrite Hrun.
  destruct Hw2 as (Htr2 & _ & _). simpl in Htr2.
  exists evs, fates, left.
  destruct left as [e|].
  - unfold reply. rewrite external_run.
    exists [Called (CtxReply SequencingError)
              (outcome (calls w2) (CtxReply SequencingError))].
    split; [exact Hdt|]. split; [exact Hans|].
    split; [|discriminate].
    simpl. by rewrite Htr2, <- app_assoc.
  - unfold bind at 1, reply at 1. rewrite external_run.
    set (t := add_batches batches fates (mkTotals 0 0 [])).
    set (summary := CtxReply (summaryMessage n t)).
    destruct (outcome (calls w2) summary) as [e|] eqn:Hout.
    + unfold reply. rewrite external_run.
      eexists. split; [exact Hdt|]. split; [exact Hans|].
      split; [|intros _; exists (calls w2); eexists; cbv zeta;
                fold batches; fold t; fold summary; rewrite Hout;
                reflexivity].
      simpl. rewrite Htr2, <- !app_assoc. reflexivity.
    + pose proof (frame_retryOperation trace_grows trace_grows_refl
                    trace_grows_trans sleep_grows
                    (updateStatistics outcome userId (totalSuccess t))
                    CONFIG.MAX_RETRIES CONFIG.RETRY_DELAY
                    (frame_updateStatistics outcome trace_grows
                       trace_grows_refl trace_grows_trans
                       (external_grows outcome) set_users_grows
                       userId (totalSuccess t))) as Hstats.
      assert (Hgrow : respects trace_grows
                (try_catch
                   (retryOperation
                      (updateStatistics outcome userId (totalSuccess t))
                      CONFIG.MAX_RETRIES CONFIG.RETRY_DELAY ;; ret tt)
                   (fun _ => ret tt))).
      { apply respects_try_catch; [apply trace_grows_trans | |intros e].
        - apply respects_bind; [apply trace_grows_trans | exact Hstats |].
          intros _. apply respects_ret, trace_grows_refl.
        - apply respects_ret, trace_grows_refl. }
      specialize (Hgrow (after_call w2 summary None)).
      destruct (try_catch_ret
                  (retryOperation
                     (updateStatistics outcome userId (totalSuccess t))
                     CONFIG.MAX_RETRIES CONFIG.RETRY_DELAY ;; ret tt)
                  tt (after_call w2 summary None)) as ([] & w3 & Hrun3).
      rewrite Hrun3 in Hgrow |- *. destruct Hgrow as [more Hmore].
      simpl in Hmore |- *.
      exists (Called summary None :: more).
      split; [exact Hdt|]. split; [exact Hans|].
      split; [|intros _; exists (calls w2), more; cbv zeta;
                fold batches; fold t; fold summary; by rewrite Hout].
      rewrite Hmore, Htr2, <- !app_assoc. reflexivity.
Qed.

End Close.

(** ** The close of a session of which no file can be sent *)

Section EveryItemFails.

Variable localeCompare : string -> string -> Z.
Variable outcome : nat -> Call -> option Error.
Hypothesis sends_rejected :
  forall n c, is_send c = true -> outcome n c <> None.
Hypothesis replies_resolved :
  forall n text, outcome n (CtxReply text) = None.

Lemma delivery_trace_not_left batchesLength i rest evs fates left :
  delivery_trace batchesLength i rest evs fates left ->
  Forall (answered_by outcome) evs -> left = None.
Proof.
  induction 1 as [i | i batch rest e Hgt
                 | i batch rest evs fs evs' fates left Hbt Hdt IH];
    intros Hans; [reflexivity | |].
  - unfold progress_notice in Hans.
    destruct (batchesLength >? 1) eqn:E; [|lia].
    apply Forall_cons in Hans as [[n Hn] _].
    rewrite replies_resolved in Hn. discriminate.
  - apply IH.
    apply Forall_app in Hans as [_ Hans].
    apply Forall_app in Hans as [_ Hans].
    by apply Forall_app in Hans as [_ Hans].
Qed.

(** The session is removed and the summary reports no success and as
    many failures as there were files. *)
Lemma endSequence_every_item_fails msg w s :
  userFileSequences w !! from_id msg = Some s ->
  files s <> [] ->
  Forall has_media (files s) ->
  let r := endSequence localeCompare outcome msg w in
  let total := Z.of_nat (length (files s)) in
  userFileSequences (snd r) !! from_id msg = None /\
  exists t,
    totalSuccess t = 0 /\ totalFailed t = total /\
    In (Called (CtxReply (summaryMessage total t)) None) (trace (snd r)).
Proof.
  intros Hs Hne Hmedia. cbv zeta.
  assert (Hout : outcome (calls w) (CtxReply (close_notice s)) = None)
    by apply replies_resolved.
  split.
  { rewrite (endSequence_removes localeCompare outcome msg w s Hs Hout).
    apply lookup_delete_eq. }
  rewrite (endSequence_found localeCompare outcome msg w s Hs Hne).
  rewrite close_notice_found in Hout by exact Hne.
  unfold bind. unfold reply at 1. rewrite external_run, Hout. cbv beta iota.
  destruct (guarded_block_trace localeCompare outcome (from_id msg) s (Z.of_nat (length (files s)))
              (after_call w (CtxReply (StartingToSequence (Z.of_nat (length (files s))))) None)
              Hmedia)
    as (evs & fates & left & evs_after & Hdt & Hans & Htrace & Hsummary).
  pose proof (delivery_trace_not_left _ _ _ _ _ _ Hdt Hans) as ->.
  destruct (Hsummary eq_refl) as (k & more & ->).
  set (sorted := sort_by (compareItems localeCompare) (files s)) in *.
  set (t := add_batches (make_batches sorted) fates (mkTotals 0 0 [])) in *.
  destruct (delivery_trace_counts _ _ _ _ _ (mkTotals 0 0 []) Hdt)
    as (Hsum & _ & _).
  pose proof (delivery_trace_rejected outcome sends_rejected _ _ _ _ _ _
                (mkTotals 0 0 []) Hdt Hans) as Hzero.
  fold t in Hsum, Hzero. cbn [totalSuccess totalFailed] in Hsum, Hzero.
  destruct (make_batches_spec sorted) as [Hconcat _].
  rewrite Hconcat in Hsum. unfold sorted in Hsum.
  rewrite sort_by_length in Hsum.
  exists t. split; [exact Hzero|]. split; [lia|].
  rewrite Htrace, replies_resolved.
  apply in_or_app. right. apply in_or_app. right. by left.
Qed.

End EveryItemFails.

(** ** The claims on the delivery engine *)

Lemma retry_trace_thrown c maxRetries delay attempt evs e :
  retry_trace c maxRetries delay attempt evs (Throw e) ->
  exists evs0, evs = evs0 ++ [Called c (Some e)].
Proof.
  remember (Throw e) as r eqn:Hr.
  induction 1 as [attempt H | e' | attempt e' evs r Hlt Htr IH].
  - discriminate.
  - injection Hr as ->. by exists [].
  - destruct (IH Hr) as [evs0 ->].
    by exists (Called c (Some e') :: Slept Backoff (delay * 2 ^ (attempt - 1)) :: evs0).
Qed.

(** C10: [processBatch] never throws; each item adds one to exactly one
    of the two counters, so that [success + failed] is the number of
    items of the batch; an item whose message has no media is counted as
    failed and adds no error description, so that the number of
    descriptions is the number of failures less the number of such
    items. *)
Theorem processBatch_counts (outcome : nat -> Call -> option Error)
    (batch : list FileInfo) (batchIndex totalBatches : Z) (w : World) :
  exists res w',
    processBatch outcome batch batchIndex totalBatches w = (Ok res, w') /\
    success res + failed res = Z.of_nat (length batch) /\
    0 <= success res /\ 0 <= failed res /\
    Z.of_nat (length (errors res)) + count_skipped batch = failed res /\
    (forall len i x results w0,
       exists results' w1,
         processItem outcome len i x results w0 = (Ok results', w1) /\
         ((success results' = success results + 1 /\
           failed results' = failed results) \/
          (success results' = success results /\
           failed results' = failed results + 1))) /\
    (forall len i x results w0,
       media (message x) = None ->
       processItem outcome len i x results w0
       = (Ok (mkResults (success results) (failed results + 1)
                (errors results)), w0)).
Proof.
  destruct (processBatch_spec outcome batch batchIndex totalBatches w)
    as (evs & fates & w' & Hbt & _ & Hrun & _).
  destruct (batch_trace_counts _ _ _ _ _ (mkResults 0 0 []) Hbt)
    as (H1 & H2 & H3 & H4).
  cbn [success failed errors length] in *.
  eexists _, w'. split; [exact Hrun|].
  repeat split; try lia.
  - intros len i x results w0.
    destruct (processItem_spec outcome len i x results w0)
      as (evs0 & fate & w1 & _ & _ & Hitem & _).
    eexists _, w1. split; [exact Hitem|].
    destruct fate; cbn [count_item success failed]; [left | right | right];
      split; reflexivity.
  - intros len i x results w0 Hm. unfold processItem. by rewrite Hm.
Qed.

Example processBatch_skipped_item :
  fst (processBatch always_resolves
         [show_480p_E01; empty_item 7 "lost"; show_480p_E02] 0 1
         (initial_world 0))
  = Ok (mkResults 2 1 []).
Proof. reflexivity. Qed.

(** C6: the delivery of an item with a media makes between one and
    [MAX_RETRIES] = 3 attempts; each rejected attempt but the last is
    followed by a pause of [RETRY_DELAY * 2 ^ (attempt - 1)]; when the
    last attempt is rejected too, the item is counted as failed with the
    message of that last error after its file name; in both cases the
    loop goes on with the next item, and [processBatch] never throws. *)
Theorem bounded_retry (outcome : nat -> Call -> option Error)
    (batchLength i : Z) (x : FileInfo) (results : Results) (w : World)
    (file : TgFile) :
  media (message x) = Some file ->
  exists c evs r results' w',
    sendCall (message x) file = Some c /\
    retry_trace c CONFIG.MAX_RETRIES CONFIG.RETRY_DELAY 1 evs r /\
    Forall (answered_by outcome) evs /\
    1 <= attempts evs <= CONFIG.MAX_RETRIES /\
    CONFIG.MAX_RETRIES = 3 /\
    processItem outcome batchLength i x results w = (Ok results', w') /\
    match r with
    | Ok _ =>
        results' = mkResults (success results + 1) (failed results)
                     (errors results) /\
        emits w w' (evs ++ pause_after_item batchLength i)
    | Throw e =>
        (exists evs0, evs = evs0 ++ [Called c (Some e)]) /\
        results' = mkResults (success results) (failed results + 1)
                     (errors results ++ [fileName x +:+ ": " +:+ e]) /\
        emits w w' evs
    end /\
    (forall rest,
       processBatch_from outcome batchLength i (x :: rest) results w
       = processBatch_from outcome batchLength (i + 1) rest results' w') /\
    (forall batch batchIndex totalBatches w0,
       exists res w1,
         processBatch outcome batch batchIndex totalBatches w0
         = (Ok res, w1)).
Proof.
  intros Hmedia.
  destruct (processItem_spec outcome batchLength i x results w)
    as (evs & fate & w' & Hit & Hans & Hrun & Hw').
  assert (Hloop : forall rest,
    processBatch_from outcome batchLength i (x :: rest) results w
    = processBatch_from outcome batchLength (i + 1) rest
        (count_item x fate results) w').
  { intros rest. cbn [processBatch_from]. unfold bind. by rewrite Hrun. }
  assert (Hbatch : forall batch batchIndex totalBatches w0,
    exists res w1,
      processBatch outcome batch batchIndex totalBatches w0 = (Ok res, w1)).
  { intros batch bi tb w0.
    destruct (processBatch_spec outcome batch bi tb w0)
      as (? & ? & w1 & _ & _ & Hb & _). by eexists _, w1. }
  destruct Hit as [Hm | file' c evs Hm Hc Htr | file' c evs e Hm Hc Htr].
  - congruence.
  - assert (file' = file) as -> by congruence.
    apply Forall_app in Hans as [Hans _].
    exists c, evs, (Ok tt), (count_item x Delivered results), w'.
    pose proof (retry_trace_attempts _ _ _ _ _ _ Htr).
    repeat split; try assumption; try lia; apply Hw'.
  - assert (file' = file) as -> by congruence.
    exists c, evs, (Throw e), (count_item x (Failed e) results), w'.
    pose proof (retry_trace_attempts _ _ _ _ _ _ Htr).
    repeat split; try assumption; try lia; try apply Hw'.
    by eapply retry_trace_thrown.
Qed.

Lemma bounded_retry_witness :
  media (message show_480p_E02)
    = Some (Build_TgFile "file-1" (Some "Show.480p.E02.mkv") None) /\
  exists c evs r results' w',
    sendCall (message show_480p_E02)
      (Build_TgFile "file-1" (Some "Show.480p.E02.mkv") None) = Some c /\
    retry_trace c CONFIG.MAX_RETRIES CONFIG.RETRY_DELAY 1 evs r /\
    Forall (answered_by (rejects_sends "ETIMEDOUT")) evs /\
    1 <= attempts evs <= CONFIG.MAX_RETRIES /\
    CONFIG.MAX_RETRIES = 3 /\
    processItem (rejects_sends "ETIMEDOUT") 2 0 show_480p_E02
      (mkResults 0 0 []) (initial_world 0) = (Ok results', w') /\
    match r with
    | Ok _ =>
        results' = mkResults (success (mkResults 0 0 []) + 1)
                     (failed (mkResults 0 0 [])) (errors (mkResults 0 0 [])) /\
        emits (initial_world 0) w' (evs ++ pause_after_item 2 0)
    | Throw e =>
        (exists evs0, evs = evs0 ++ [Called c (Some e)]) /\
        results' = mkResults (success (mkResults 0 0 []))
                     (failed (mkResults 0 0 []) + 1)
                     (errors (mkResults 0 0 [])
                        ++ [fileName show_480p_E02 +:+ ": " +:+ e]) /\
        emits (initial_world 0) w' evs
    end /\
    (forall rest,
       processBatch_from (rejects_sends "ETIMEDOUT") 2 0
         (show_480p_E02 :: rest) (mkResults 0 0 []) (initial_world 0)
       = processBatch_from (rejects_sends "ETIMEDOUT") 2 (0 + 1) rest
           results' w') /\
    (forall batch batchIndex totalBatches w0,
       exists res w1,
         processBatch (rejects_sends "ETIMEDOUT") batch batchIndex
           totalBatches w0
         = (Ok res, w1)).
Proof.
  split; [reflexivity|].
  apply (bounded_retry (rejects_sends "ETIMEDOUT") 2 0 show_480p_E02
           (mkResults 0 0 []) (initial_world 0)).
  reflexivity.
Defined.

(** The run of the witness: three attempts, pauses of 1000 and 2000 ms
    between them, none after the last, and the error recorded. *)
Example retry_run_example :
  let r := processItem (rejects_sends "ETIMEDOUT") 2 0 show_480p_E02
             (mkResults 0 0 []) (initial_world 0) in
  fst r = Ok (mkResults 0 1 ["Show.480p.E02.mkv: ETIMEDOUT"]) /\
  trace (snd r)
  = [Called (ReplyWithDocument "file-1" "") (Some "ETIMEDOUT");
     Slept Backoff 1000;
     Called (ReplyWithDocument "file-1" "") (Some "ETIMEDOUT");
     Slept Backoff 2000;
     Called (ReplyWithDocument "file-1" "") (Some "ETIMEDOUT")].
Proof. split; reflexivity. Qed.

(** What the delivery does guarantee: on the close of a session whose
    files are not empty (the first reply went through), the sorted files
    are cut, in order,
    into batches of at most [BATCH_SIZE] = 50 items, none empty; the
    batches are gone through in order and the items of each in order
    ([delivery_trace]); a pause of [DELAY_BETWEEN_FILES] = 100 ms follows
    each item that was delivered and is not the last of its batch, and no
    pause follows an item that failed; a pause of [DELAY_BETWEEN_BATCHES]
    = 100 ms follows each batch but the last; a delivery that went through
    all the batches ends with a call sending a file, not with a pause. *)
Theorem batched_delivery (localeCompare : string -> string -> Z)
    (outcome : nat -> Call -> option Error) (msg : Message) (w : World)
    (s : Session) :
  userFileSequences w !! from_id msg = Some s ->
  files s <> [] ->
  Forall has_media (files s) ->
  outcome (calls w)
    (CtxReply (StartingToSequence (Z.of_nat (length (files s))))) = None ->
  exists sorted evs fates left evs_after,
    array_sort (comparator localeCompare) (files s) = Ok sorted /\
    concat (make_batches sorted) = sorted /\
    Forall (fun b => (0 < length b <= 50)%nat) (make_batches sorted) /\
    delivery_trace (Z.of_nat (length (make_batches sorted))) 0
      (make_batches sorted) evs fates left /\
    trace (snd (endSequence localeCompare outcome msg w))
    = trace w
      ++ [Called (CtxReply (StartingToSequence (Z.of_nat (length (files s)))))
            None]
      ++ evs ++ evs_after /\
    (left = None ->
     exists evs0 c rejected,
       evs = evs0 ++ [Called c rejected] /\ is_send c = true) /\
    CONFIG.BATCH_SIZE = 50 /\
    CONFIG.DELAY_BETWEEN_FILES = 100 /\
    CONFIG.DELAY_BETWEEN_BATCHES = 100.
Proof.
  intros Hs Hne Hmedia Hout.
  set (sorted := sort_by (compareItems localeCompare) (files s)).
  assert (Hsorted : Forall has_media sorted).
  { rewrite Forall_forall in *. intros x Hx. apply Hmedia.
    by rewrite (sort_by_perm (compareItems localeCompare) (files s)). }
  assert (Hsne : sorted <> []).
  { intros H. apply Hne. apply length_zero_iff_nil.
    rewrite <- (sort_by_length (compareItems localeCompare)).
    fold sorted. by rewrite H. }
  destruct (make_batches_spec sorted) as [Hconcat Hsizes].
  rewrite (endSequence_found localeCompare outcome msg w s Hs Hne).
  unfold bind. unfold reply at 1. rewrite external_run, Hout. cbv beta iota.
  destruct (guarded_block_trace localeCompare outcome (from_id msg) s
              (Z.of_nat (length (files s)))
              (after_call w
                 (CtxReply (StartingToSequence (Z.of_nat (length (files s)))))
                 None) Hmedia)
    as (evs & fates & left & evs_after & Hdt & _ & Htrace & _).
  fold sorted in Hdt.
  exists sorted, evs, fates, left, evs_after.
  split; [by apply array_sort_media|].
  split; [exact Hconcat|]. split; [exact Hsizes|]. split; [exact Hdt|].
  split; [rewrite Htrace; simpl; by rewrite <- app_assoc|].
  split; [|by repeat split].
  intros ->.
  apply (delivery_trace_last _ _ _ _ _ Hdt).
  - by apply make_batches_nonempty.
  - eapply Forall_impl; [exact Hsizes|]. intros b Hb ->. simpl in Hb. lia.
  - by apply make_batches_media.
  - lia.
Qed.

Lemma batched_delivery_witness :
  let w := world_with 7
             (Build_Session [show_480p_E02; show_720p_E01; show_480p_E01] 0 0)
             5000 in
  let s := Build_Session [show_480p_E02; show_720p_E01; show_480p_E01] 0 0 in
  userFileSequences w !! from_id (command_message 7) = Some s /\
  files s <> [] /\
  Forall has_media (files s) /\
  always_resolves (calls w)
    (CtxReply (StartingToSequence (Z.of_nat (length (files s))))) = None /\
  exists sorted evs fates left evs_after,
    array_sort (comparator codeUnitCompare) (files s) = Ok sorted /\
    concat (make_batches sorted) = sorted /\
    Forall (fun b => (0 < length b <= 50)%nat) (make_batches sorted) /\
    delivery_trace (Z.of_nat (length (make_batches sorted))) 0
      (make_batches sorted) evs fates left /\
    trace (snd (endSequence codeUnitCompare always_resolves
                  (command_message 7) w))
    = trace w
      ++ [Called (CtxReply (StartingToSequence (Z.of_nat (length (files s)))))
            None]
      ++ evs ++ evs_after /\
    (left = None ->
     exists evs0 c rejected,
       evs = evs0 ++ [Called c rejected] /\ is_send c = true) /\
    CONFIG.BATCH_SIZE = 50 /\
    CONFIG.DELAY_BETWEEN_FILES = 100 /\
    CONFIG.DELAY_BETWEEN_BATCHES = 100.
Proof.
  intros w s.
  assert (H1 : userFileSequences w !! from_id (command_message 7) = Some s)
    by reflexivity.
  assert (H2 : files s <> []) by discriminate.
  assert (H3 : Forall has_media (files s))
    by (repeat constructor; eexists; reflexivity).
  assert (H4 : always_resolves (calls w)
                 (CtxReply (StartingToSequence (Z.of_nat (length (files s)))))
               = None) by reflexivity.
  split; [exact H1|]. split; [exact H2|]. split; [exact H3|].
  split; [exact H4|].
  exact (batched_delivery codeUnitCompare always_resolves
           (command_message 7) w s H1 H2 H3 H4).
Defined.

(** The run of the witness. *)
Example delivery_run_example :
  trace (snd (endSequence codeUnitCompare always_resolves (command_message 7)
                (world_with 7
                   (Build_Session
                      [show_480p_E02; show_720p_E01; show_480p_E01] 0 0)
                   5000)))
  = [Called (CtxReply (StartingToSequence 3)) None;
     Called (ReplyWithDocument "file-3" "") None;
     Slept BetweenFiles 100;
     Called (ReplyWithDocument "file-1" "") None;
     Slept BetweenFiles 100;
     Called (ReplyWithDocument "file-2" "") None;
     Called (CtxReply (SequencingCompleted 3 3 None [] None)) None;
     Called (FindOne 7) None;
     Called (UpdateOne 7 (Build_UserDoc (Some 3) (Some 5200) (Some 3))) None].
Proof. vm_compute. reflexivity. Qed.

(** C5 fails on the code: the pause between files, commented as a
    delay between files to respect rate limits, stands inside the [try]
    of [processBatch] after the count of a success, so it is skipped when
    the delivery fails: when the first of two items of a batch cannot be
    delivered, the second one is sent right after the last attempt on the
    first, with no pause of [DELAY_BETWEEN_FILES] between them. *)
Lemma no_pause_after_failed_item :
  let w := world_with 7 (Build_Session [show_480p_E02; show_480p_E01] 0 0)
             5000 in
  let w' := snd (endSequence codeUnitCompare
                   (rejects_document "file-3" "ETIMEDOUT")
                   (command_message 7) w) in
  trace w'
  = [Called (CtxReply (StartingToSequence 2)) None;
     Called (ReplyWithDocument "file-3" "") (Some "ETIMEDOUT");
     Slept Backoff 1000;
     Called (ReplyWithDocument "file-3" "") (Some "ETIMEDOUT");
     Slept Backoff 2000;
     Called (ReplyWithDocument "file-3" "") (Some "ETIMEDOUT");
     Called (ReplyWithDocument "file-1" "") None;
     Called (CtxReply
               (SequencingCompleted 2 1 (Some 1)
                  ["Show.480p.E01.mkv: ETIMEDOUT"] None)) None;
     Called (FindOne 7) None;
     Called (UpdateOne 7 (Build_UserDoc (Some 1) (Some 8000) (Some 1))) None]
  /\ ~ In (Slept BetweenFiles CONFIG.DELAY_BETWEEN_FILES) (trace w').
Proof.
  assert (H : trace (snd (endSequence codeUnitCompare
                   (rejects_document "file-3" "ETIMEDOUT")
                   (command_message 7)
                   (world_with 7
                      (Build_Session [show_480p_E02; show_480p_E01] 0 0)
                      5000)))
  = [Called (CtxReply (StartingToSequence 2)) None;
     Called (ReplyWithDocument "file-3" "") (Some "ETIMEDOUT");
     Slept Backoff 1000;
     Called (ReplyWithDocument "file-3" "") (Some "ETIMEDOUT");
     Slept Backoff 2000;
     Called (ReplyWithDocument "file-3" "") (Some "ETIMEDOUT");
     Called (ReplyWithDocument "file-1" "") None;
     Called (CtxReply
               (SequencingCompleted 2 1 (Some 1)
                  ["Show.480p.E01.mkv: ETIMEDOUT"] None)) None;
     Called (FindOne 7) None;
     Called (UpdateOne 7 (Build_UserDoc (Some 1) (Some 8000) (Some 1))) None])
    by (vm_compute; reflexivity).
  cbv zeta. rewrite H. split; [reflexivity|].
  simpl. intros Hin.
  repeat (destruct Hin as [Hin|Hin]; [discriminate|]). exact Hin.
Qed.

(** C7 fails on the code: when the first reply of [endSequence] is
    rejected, the function throws before the [try] block (and before the
    [delete] of the empty case), and the session stays in the map. *)
Theorem endSequence_rejected_notice_keeps_session :
  let full := Build_Session [show_480p_E02] 0 0 in
  let empty := Build_Session [] 0 0 in
  let blocked := rejects_call 0 "Forbidden: bot was blocked by the user" in
  let r1 := endSequence codeUnitCompare blocked (command_message 7)
              (world_with 7 full 5000) in
  let r2 := endSequence codeUnitCompare blocked (command_message 7)
              (world_with 7 empty 5000) in
  fst r1 = Throw "Forbidden: bot was blocked by the user" /\
  userFileSequences (snd r1) !! 7 = Some full /\
  trace (snd r1)
  = [Called (CtxReply (StartingToSequence 1))
       (Some "Forbidden: bot was blocked by the user")] /\
  fst r2 = Throw "Forbidden: bot was blocked by the user" /\
  userFileSequences (snd r2) !! 7 = Some empty /\
  trace (snd r2)
  = [Called (CtxReply NoFilesToSequence)
       (Some "Forbidden: bot was blocked by the user")].
Proof. vm_compute. repeat split; reflexivity. Qed.

(** ** The handlers and the session store *)

Lemma filter_key_absent (uid : Z) (l : list (Z * Session)) :
  uid ∉ l.*1 -> filter (fun entry => fst entry = uid) l = [].
Proof.
  induction l as [|[k s] l IH]; intros Hnot; [reflexivity|].
  rewrite fmap_cons in Hnot. apply not_elem_of_cons in Hnot as [Hk Hl].
  rewrite filter_cons. destruct (decide ((k, s).1 = uid)) as [Heq|_].
  - simpl in *. congruence.
  - by apply IH.
Qed.

Lemma sessions_of_le_1 uid (st : gmap Z Session) :
  (sessions_of uid st <= 1)%nat.
Proof.
  unfold sessions_of.
  pose proof (NoDup_fst_map_to_list st) as Hnd.
  induction (map_to_list st) as [|[k s] l IH]; [simpl; lia|].
  rewrite fmap_cons in Hnd. apply NoDup_cons in Hnd as [Hk Hnd].
  specialize (IH Hnd). rewrite filter_cons.
  destruct (decide ((k, s).1 = uid)) as [Heq|]; [|exact IH].
  simpl in Heq. subst k.
  simpl in Hk. rewrite (filter_key_absent uid l Hk). simpl. lia.
Qed.

Lemma msg_field_media m t f : msg_field m t = Some f -> is_Some (media m).
Proof.
  unfold media, or_else. destruct t; simpl; intros H;
    destruct (msg_document m), (msg_video m), (msg_audio m);
    try discriminate; by eexists.
Qed.

Section Handlers.

Variable localeCompare : string -> string -> Z.
Variable outcome : nat -> Call -> option Error.

Lemma reply_run text w :
  reply outcome text w
  = (match outcome (calls w) (CtxReply text) with
     | None => Ok tt
     | Some e => Throw e
     end, after_call w (CtxReply text) (outcome (calls w) (CtxReply text))).
Proof. apply external_run. Qed.

Lemma ssequence_active msg w s :
  userFileSequences w !! from_id msg = Some s ->
  ssequence outcome msg w
  = reply outcome (AlreadyActive (Z.of_nat (length (files s)))) w.
Proof. intros Hs. unfold ssequence. unfold bind at 1, gets. by rewrite Hs. Qed.

Lemma ssequence_fresh msg w :
  userFileSequences w !! from_id msg = None ->
  ssequence outcome msg w
  = reply outcome (SequencingStarted CONFIG.MAX_FILES_PER_USER)
      (mkWorld
         (<[from_id msg := Build_Session [] (clock w) (clock w)]>
            (userFileSequences w))
         (usersCollection w) (clock w) (calls w) (trace w)).
Proof. intros Hs. unfold ssequence. unfold bind at 1, gets. by rewrite Hs. Qed.

Lemma processFileSequence_none msg t w :
  userFileSequences w !! from_id msg = None ->
  processFileSequence outcome msg t w = reply outcome NoActiveSession w.
Proof.
  intros Hs. unfold processFileSequence. unfold bind at 1, gets.
  by rewrite Hs.
Qed.

Lemma processFileSequence_unsupported msg t w s :
  userFileSequences w !! from_id msg = Some s ->
  msg_field msg t = None ->
  processFileSequence outcome msg t w = reply outcome UnsupportedFileType w.
Proof.
  intros Hs Hf. unfold processFileSequence. unfold bind at 1, gets.
  by rewrite Hs, Hf.
Qed.

Lemma processFileSequence_full msg t w s file :
  userFileSequences w !! from_id msg = Some s ->
  msg_field msg t = Some file ->
  Z.of_nat (length (files s)) >= CONFIG.MAX_FILES_PER_USER ->
  processFileSequence outcome msg t w
  = reply outcome (FileLimitReached CONFIG.MAX_FILES_PER_USER) w.
Proof.
  intros Hs Hf Hlen. unfold processFileSequence. unfold bind at 1, gets.
  rewrite Hs, Hf.
  destruct (Z.geb_spec (Z.of_nat (length (files s))) CONFIG.MAX_FILES_PER_USER);
    [reflexivity | lia].
Qed.

Lemma processFileSequence_accept msg t w s file :
  userFileSequences w !! from_id msg = Some s ->
  msg_field msg t = Some file ->
  Z.of_nat (length (files s)) < CONFIG.MAX_FILES_PER_USER ->
  userFileSequences (snd (processFileSequence outcome msg t w))
  = <[from_id msg :=
        Build_Session (files s ++ [ingested msg t file w]) (startTime s)
          (clock w)]> (userFileSequences w).
Proof.
  intros Hs Hf Hlen. unfold processFileSequence. unfold bind at 1, gets.
  rewrite Hs, Hf.
  destruct (Z.geb_spec (Z.of_nat (length (files s))) CONFIG.MAX_FILES_PER_USER);
    [lia|].
  unfold try_catch, bind, now, gets, set_sessions, modify, reply.
  cbv beta iota zeta.
  match goal with
  | |- context [if ?b then _ else _] => destruct b
  end; rewrite external_run;
  match goal with
  | |- context [outcome ?n ?c] => destruct (outcome n c)
  end; try rewrite external_run; reflexivity.
Qed.

Lemma status_sessions msg w :
  userFileSequences (snd (status outcome msg w)) = userFileSequences w.
Proof.
  unfold status. unfold bind at 1, gets.
  destruct (userFileSequences w !! from_id msg).
  - unfold bind, now, gets. by rewrite reply_run.
  - by rewrite reply_run.
Qed.

Lemma cancel_sessions msg w :
  userFileSequences (snd (cancel outcome msg w))
  = match userFileSequences w !! from_id msg with
    | Some _ => delete (from_id msg) (userFileSequences w)
    | None => userFileSequences w
    end.
Proof.
  unfold cancel. unfold bind at 1, gets.
  destruct (userFileSequences w !! from_id msg).
  - unfold bind, set_sessions, modify. by rewrite reply_run.
  - by rewrite reply_run.
Qed.

Lemma cleanup_sessions w :
  userFileSequences (snd (cleanupInactiveSessions w))
  = filter (fun entry => ~ (clock w - lastActivity (snd entry) > TIMEOUT))
      (userFileSequences w).
Proof. reflexivity. Qed.

(** The sessions after one step, for each kind of update. *)
Lemma step_sessions w u :
  let st := userFileSequences w in
  let st' := userFileSequences (step localeCompare outcome w u) in
  match u with
  | Command_ssequence msg =>
      st' = st \/
      (st !! from_id msg = None /\
       st' = <[from_id msg := Build_Session [] (clock w) (clock w)]> st)
  | Command_esequence msg | Command_cancel msg =>
      st' = st \/ st' = delete (from_id msg) st
  | On_file t msg =>
      st' = st \/
      exists s file,
        st !! from_id msg = Some s /\
        msg_field msg t = Some file /\
        Z.of_nat (length (files s)) < CONFIG.MAX_FILES_PER_USER /\
        st' = <[from_id msg :=
                  Build_Session (files s ++ [ingested msg t file w])
                    (startTime s) (clock w)]> st
  | Timer_cleanup =>
      st' = filter (fun entry => ~ (clock w - lastActivity (snd entry) > TIMEOUT))
              st
  | Command_status _ | Elapse _ => st' = st
  end.
Proof.
  cbv zeta. unfold step. destruct u as [msg|msg|msg|msg|t msg| |ms];
    cbn [handle].
  - destruct (userFileSequences w !! from_id msg) as [s|] eqn:Hs.
    + left. by rewrite (ssequence_active msg w s Hs), reply_run.
    + right. split; [reflexivity|].
      by rewrite (ssequence_fresh msg w Hs), reply_run.
  - apply status_sessions.
  - destruct (userFileSequences w !! from_id msg) as [s|] eqn:Hs.
    + destruct (outcome (calls w) (CtxReply (close_notice s))) as [e|] eqn:Ho.
      * left. by rewrite (endSequence_keeps _ _ msg w s e Hs Ho).
      * right. by apply (endSequence_removes _ _ msg w s Hs Ho).
    + left. by rewrite (endSequence_none _ _ msg w Hs), reply_run.
  - rewrite cancel_sessions.
    destruct (userFileSequences w !! from_id msg); [by right | by left].
  - destruct (userFileSequences w !! from_id msg) as [s|] eqn:Hs.
    + destruct (msg_field msg t) as [file|] eqn:Hf.
      * destruct (Z.lt_ge_cases (Z.of_nat (length (files s)))
                    CONFIG.MAX_FILES_PER_USER) as [Hlt|Hge].
        -- right. exists s, file. repeat split; try assumption.
           by apply processFileSequence_accept.
        -- left. rewrite (processFileSequence_full msg t w s file Hs Hf);
             [by rewrite reply_run | lia].
      * left. by rewrite (processFileSequence_unsupported msg t w s Hs Hf),
                reply_run.
    + left. by rewrite (processFileSequence_none msg t w Hs), reply_run.
  - apply cleanup_sessions.
  - reflexivity.
Qed.

(** The invariant is kept by every step. *)
Lemma step_sessions_ok w u :
  sessions_ok (userFileSequences w) ->
  sessions_ok (userFileSequences (step localeCompare outcome w u)).
Proof.
  intros Hok. pose proof (step_sessions w u) as H. cbv zeta in H.
  destruct u as [msg|msg|msg|msg|t msg| |ms].
  - destruct H as [-> | [_ ->]]; [exact Hok|].
    intros uid s Hs. apply lookup_insert_Some in Hs as [[_ <-]|[_ Hs]].
    + simpl. unfold CONFIG.MAX_FILES_PER_USER. split; [lia | constructor].
    + by apply (Hok uid).
  - by rewrite H.
  - destruct H as [-> | ->]; [exact Hok|].
    intros uid s Hs. apply lookup_delete_Some in Hs as [_ Hs].
    by apply (Hok uid).
  - destruct H as [-> | ->]; [exact Hok|].
    intros uid s Hs. apply lookup_delete_Some in Hs as [_ Hs].
    by apply (Hok uid).
  - destruct H as [-> | (s0 & file & Hs0 & Hf & Hlt & ->)]; [exact Hok|].
    intros uid s Hs. apply lookup_insert_Some in Hs as [[_ <-]|[_ Hs]].
    + destruct (Hok _ _ Hs0) as [_ Hm]. cbn [files].
      rewrite length_app. cbn [length]. split; [lia|].
      apply Forall_app. split; [exact Hm|].
      constructor; [|constructor].
      unfold has_media, ingested. cbn [message].
      by eapply msg_field_media.
    + by apply (Hok uid).
  - rewrite H. intros uid s Hs.
    apply map_lookup_filter_Some in Hs as [Hs _]. by apply (Hok uid).
  - by rewrite H.
Qed.

Lemma reachable_sessions_ok w :
  reachable localeCompare outcome w -> sessions_ok (userFileSequences w).
Proof.
  induction 1 as [t | w u Hw IH].
  - intros uid s Hs. simpl in Hs. by rewrite lookup_empty in Hs.
  - by apply step_sessions_ok.
Qed.

Lemma reachable_run w us :
  reachable localeCompare outcome w ->
  reachable localeCompare outcome (run localeCompare outcome w us).
Proof.
  revert w. induction us as [|u us IH]; intros w Hw; [exact Hw|].
  simpl. apply IH. by constructor.
Qed.

End Handlers.

(** ** The claims on the session manager *)

(** C8: a user never has two sessions; [/ssequence] on an open session
    changes nothing in the world but the trace, where it reports the
    number of files of the session; on a user without session it stores
    an empty session whose two time stamps are the current time; and no
    other update gives a session to a user who has none. *)
Theorem ssequence_single_session (localeCompare : string -> string -> Z)
    (outcome : nat -> Call -> option Error) (msg : Message) (w : World) :
  (forall s,
     userFileSequences w !! from_id msg = Some s ->
     let notice := CtxReply (AlreadyActive (Z.of_nat (length (files s)))) in
     snd (ssequence outcome msg w)
     = after_call w notice (outcome (calls w) notice)) /\
  (userFileSequences w !! from_id msg = None ->
   userFileSequences (snd (ssequence outcome msg w))
   = <[from_id msg := Build_Session [] (clock w) (clock w)]>
       (userFileSequences w)) /\
  (forall uid,
     (sessions_of uid (userFileSequences (snd (ssequence outcome msg w)))
      <= 1)%nat) /\
  (forall u uid,
     userFileSequences w !! uid = None ->
     is_Some (userFileSequences (step localeCompare outcome w u) !! uid) ->
     exists m, u = Command_ssequence m /\ from_id m = uid).
Proof.
  split; [|split; [|split]].
  - intros s Hs notice.
    by rewrite (ssequence_active outcome msg w s Hs), reply_run.
  - intros Hs. by rewrite (ssequence_fresh outcome msg w Hs), reply_run.
  - intros uid. apply sessions_of_le_1.
  - intros u uid Hnone [s Hs].
    pose proof (step_sessions localeCompare outcome w u) as H.
    cbv zeta in H.
    destruct u as [m|m|m|m|t m| |ms].
    + destruct H as [H | [_ H]]; rewrite H in Hs; [congruence|].
      apply lookup_insert_Some in Hs as [[<- _]|[_ Hs]]; [|congruence].
      by exists m.
    + rewrite H in Hs. congruence.
    + destruct H as [H | H]; rewrite H in Hs; [congruence|].
      apply lookup_delete_Some in Hs as [_ Hs]. congruence.
    + destruct H as [H | H]; rewrite H in Hs; [congruence|].
      apply lookup_delete_Some in Hs as [_ Hs]. congruence.
    + destruct H as [H | (s0 & file & Hs0 & _ & _ & H)];
        rewrite H in Hs; [congruence|].
      apply lookup_insert_Some in Hs as [[<- _]|[_ Hs]]; congruence.
    + rewrite H in Hs. apply map_lookup_filter_Some in Hs as [Hs _].
      congruence.
    + rewrite H in Hs. congruence.
Qed.

Example ssequence_twice :
  let w := run codeUnitCompare always_resolves (initial_world 1000)
             (collect 2 ++ [Elapse 60000; Command_ssequence (command_message 7)]) in
  userFileSequences w
  = {[ 7 := Build_Session
              [document_item 7 "file-1" (Some "Show.480p.E02.mkv") 1000;
               document_item 7 "file-1" (Some "Show.480p.E02.mkv") 1000]
              1000 1000 ]} /\
  last (trace w) = Some (Called (CtxReply (AlreadyActive 2)) None).
Proof. vm_compute. split; reflexivity. Qed.

(** C9: in every reachable world no session holds more than
    [MAX_FILES_PER_USER] = 200 files; and a file sent to a session that
    already holds that many is answered by the limit message and changes
    nothing in the world but the trace. *)
Theorem capacity_limit (localeCompare : string -> string -> Z)
    (outcome : nat -> Call -> option Error) (w : World) :
  reachable localeCompare outcome w ->
  (forall uid s,
     userFileSequences w !! uid = Some s ->
     Z.of_nat (length (files s)) <= CONFIG.MAX_FILES_PER_USER) /\
  CONFIG.MAX_FILES_PER_USER = 200 /\
  (forall msg t file s,
     userFileSequences w !! from_id msg = Some s ->
     msg_field msg t = Some file ->
     Z.of_nat (length (files s)) >= CONFIG.MAX_FILES_PER_USER ->
     let notice := CtxReply (FileLimitReached CONFIG.MAX_FILES_PER_USER) in
     processFileSequence outcome msg t w
     = (match outcome (calls w) notice with
        | None => Ok tt
        | Some e => Throw e
        end, after_call w notice (outcome (calls w) notice)) /\
     userFileSequences (snd (processFileSequence outcome msg t w))
       !! from_id msg = Some s).
Proof.
  intros Hreach. split; [|split; [reflexivity|]].
  - intros uid s Hs.
    by destruct (reachable_sessions_ok _ _ w Hreach uid s Hs).
  - intros msg t file s Hs Hf Hlen notice.
    rewrite (processFileSequence_full outcome msg t w s file Hs Hf Hlen).
    rewrite reply_run. split; [reflexivity | exact Hs].
Qed.

Lemma capacity_limit_witness :
  let w := run codeUnitCompare always_resolves (initial_world 1000)
             (collect 200) in
  reachable codeUnitCompare always_resolves w /\
  (forall uid s,
     userFileSequences w !! uid = Some s ->
     Z.of_nat (length (files s)) <= CONFIG.MAX_FILES_PER_USER) /\
  CONFIG.MAX_FILES_PER_USER = 200 /\
  (forall msg t file s,
     userFileSequences w !! from_id msg = Some s ->
     msg_field msg t = Some file ->
     Z.of_nat (length (files s)) >= CONFIG.MAX_FILES_PER_USER ->
     let notice := CtxReply (FileLimitReached CONFIG.MAX_FILES_PER_USER) in
     processFileSequence always_resolves msg t w
     = (match always_resolves (calls w) notice with
        | None => Ok tt
        | Some e => Throw e
        end, after_call w notice (always_resolves (calls w) notice)) /\
     userFileSequences (snd (processFileSequence always_resolves msg t w))
       !! from_id msg = Some s).
Proof.
  intros w.
  assert (H : reachable codeUnitCompare always_resolves w)
    by (apply reachable_run; constructor).
  split; [exact H|].
  exact (capacity_limit codeUnitCompare always_resolves w H).
Defined.

(** The run of the witness: the session holds 200 files, and the next
    file is refused. *)
Example capacity_run :
  let w := run codeUnitCompare always_resolves (initial_world 1000)
             (collect 200) in
  let w' := step codeUnitCompare always_resolves w
              (On_file document sample_document_message) in
  (length <$> (files <$> userFileSequences w !! 7)) = Some 200%nat /\
  userFileSequences w' = userFileSequences w /\
  last (trace w') = Some (Called (CtxReply (FileLimitReached 200)) None).
Proof. vm_compute. repeat split; reflexivity. Qed.

(** A session idle for more than thirty minutes is gone after the next
    sweep. *)
Example idle_session_reaped :
  let w := run codeUnitCompare always_resolves (initial_world 1000)
             (collect 2 ++ [Elapse (TIMEOUT + 1); Timer_cleanup]) in
  userFileSequences w = ∅.
Proof. vm_compute. reflexivity. Qed.

(** * Further properties of the code *)

(** ** The sweep of idle sessions *)

Lemma cleanup_run w :
  cleanupInactiveSessions w
  = (Ok tt,
     mkWorld
       (filter (fun entry => ~ (clock w - lastActivity (snd entry) > TIMEOUT))
          (userFileSequences w))
       (usersCollection w) (clock w) (calls w) (trace w)).
Proof. reflexivity. Qed.

(** X1: [cleanupInactiveSessions] removes the sessions whose last
    activity is more than thirty minutes (1800000 ms) old and no other: a
    session idle for exactly thirty minutes stays; the sweep calls nobody,
    leaves the statistics and the clock alone, and a second sweep at the
    same time removes nothing more. *)
Theorem cleanup_removes_exactly_stale (w : World) :
  let w' := snd (cleanupInactiveSessions w) in
  fst (cleanupInactiveSessions w) = Ok tt /\
  (forall uid s,
     userFileSequences w' !! uid = Some s <->
     userFileSequences w !! uid = Some s /\
     clock w - lastActivity s <= 30 * 60 * 1000) /\
  trace w' = trace w /\ calls w' = calls w /\
  usersCollection w' = usersCollection w /\ clock w' = clock w /\
  snd (cleanupInactiveSessions w') = w'.
Proof.
  cbv zeta. rewrite cleanup_run. cbn [fst snd].
  split; [reflexivity|]. split.
  { intros uid s. cbn [userFileSequences].
    rewrite map_lookup_filter_Some. cbn [snd]. unfold TIMEOUT. split.
    - intros [Hs Hold]. split; [exact Hs | lia].
    - intros [Hs Hold]. split; [exact Hs | lia]. }
  repeat (split; [reflexivity|]).
  rewrite cleanup_run. cbn [snd userFileSequences usersCollection clock calls trace].
  f_equal. apply map_eq. intros uid. apply option_eq. intros s.
  rewrite !map_lookup_filter_Some. tauto.
Qed.

(** ** [/cancel] and [/status] *)

Section SmallHandlers.

Variable outcome : nat -> Call -> option Error.

Lemma cancel_run msg w :
  cancel outcome msg w
  = match userFileSequences w !! from_id msg with
    | Some s =>
        reply outcome (Canceled (Z.of_nat (length (files s))))
          (mkWorld (delete (from_id msg) (userFileSequences w))
             (usersCollection w) (clock w) (calls w) (trace w))
    | None => reply outcome NoSessionFound w
    end.
Proof.
  unfold cancel. unfold bind at 1, gets.
  by destruct (userFileSequences w !! from_id msg).
Qed.

Lemma status_run msg w :
  status outcome msg w
  = match userFileSequences w !! from_id msg with
    | Some s =>
        reply outcome
          (SessionStatus (Z.of_nat (length (files s)))
             CONFIG.MAX_FILES_PER_USER
             (round_seconds (clock w - startTime s))) w
    | None => reply outcome NoActiveSession w
    end.
Proof.
  unfold status. unfold bind at 1, gets.
  by destruct (userFileSequences w !! from_id msg).
Qed.

(** X2: [/cancel] removes the session of the user before it replies, so
    the session is gone even when the reply is rejected; it tells the
    number of files discarded (or that there was no session), sends no
    file, and touches neither the statistics nor the sessions of the
    other users. *)
Theorem cancel_discards (msg : Message) (w : World) :
  let r := cancel outcome msg w in
  let notice :=
    CtxReply
      (match userFileSequences w !! from_id msg with
       | Some s => Canceled (Z.of_nat (length (files s)))
       | None => NoSessionFound
       end) in
  userFileSequences (snd r) = delete (from_id msg) (userFileSequences w) /\
  userFileSequences (snd r) !! from_id msg = None /\
  trace (snd r) = trace w ++ [Called notice (outcome (calls w) notice)] /\
  fst r = match outcome (calls w) notice with
          | None => Ok tt
          | Some e => Throw e
          end /\
  usersCollection (snd r) = usersCollection w /\
  clock (snd r) = clock w.
Proof.
  cbv zeta. rewrite cancel_run.
  destruct (userFileSequences w !! from_id msg) as [s|] eqn:Hs.
  - rewrite reply_run.
    cbn [fst snd after_call userFileSequences trace usersCollection clock calls].
    repeat split; try reflexivity. apply lookup_delete_eq.
  - rewrite reply_run.
    cbn [fst snd after_call userFileSequences trace usersCollection clock calls].
    repeat split; try reflexivity; [|exact Hs].
    symmetry. by apply delete_id.
Qed.

Lemma round_seconds_bounds ms :
  1000 * round_seconds ms - 500 <= ms < 1000 * round_seconds ms + 500.
Proof.
  unfold round_seconds.
  pose proof (Z.div_mod (ms + 500) 1000 ltac:(lia)).
  pose proof (Z.mod_pos_bound (ms + 500) 1000 ltac:(lia)).
  lia.
Qed.

(** X3: [/status] only reads: the world after it is the world before
    with one more reply; on an open session the reply carries the number
    of files, the limit 200 and the age of the session in seconds,
    rounded to the nearest second (half a second rounds up). *)
Theorem status_reads_only (msg : Message) (w : World) :
  exists text,
    snd (status outcome msg w)
    = after_call w (CtxReply text) (outcome (calls w) (CtxReply text)) /\
    match userFileSequences w !! from_id msg with
    | Some s =>
        exists duration,
          text = SessionStatus (Z.of_nat (length (files s))) 200 duration /\
          1000 * duration - 500 <= clock w - startTime s
            < 1000 * duration + 500
    | None => text = NoActiveSession
    end.
Proof.
  rewrite status_run.
  destruct (userFileSequences w !! from_id msg) as [s|] eqn:Hs.
  - rewrite reply_run. cbn [snd].
    eexists. split; [reflexivity|].
    eexists. split; [reflexivity | apply round_seconds_bounds].
  - rewrite reply_run. by eexists.
Qed.

End SmallHandlers.

(** ** [processFileSequence] *)

Section Ingest.

Variable outcome : nat -> Call -> option Error.

(** X4: the refusals of [processFileSequence] come in a fixed order: a
    user without session is told so whatever the message carries; on an
    open session a message without the expected media is refused as
    unsupported, also when the session is full; only then is the limit
    looked at. A refusal is one reply and changes nothing in the world
    but the trace; a message that is not refused has a session, a media
    and room below the limit. *)
Theorem processFileSequence_refusals (msg : Message) (t : FileType)
    (w : World) :
  match refusal w msg t with
  | Some text =>
      processFileSequence outcome msg t w
      = (match outcome (calls w) (CtxReply text) with
         | None => Ok tt
         | Some e => Throw e
         end,
         after_call w (CtxReply text) (outcome (calls w) (CtxReply text)))
  | None =>
      exists s file,
        userFileSequences w !! from_id msg = Some s /\
        msg_field msg t = Some file /\
        Z.of_nat (length (files s)) < CONFIG.MAX_FILES_PER_USER
  end.
Proof.
  unfold refusal.
  destruct (userFileSequences w !! from_id msg) as [s|] eqn:Hs.
  - destruct (msg_field msg t) as [file|] eqn:Hf.
    + destruct (Z.geb_spec (Z.of_nat (length (files s)))
                  CONFIG.MAX_FILES_PER_USER) as [Hfull|Hroom].
      * by rewrite (processFileSequence_full outcome msg t w s file Hs Hf
                      ltac:(lia)), reply_run.
      * by exists s, file.
    + by rewrite (processFileSequence_unsupported outcome msg t w s Hs Hf),
        reply_run.
  - by rewrite (processFileSequence_none outcome msg t w Hs), reply_run.
Qed.

Lemma acknowledge_call (b : bool) n :
  (if b then reply outcome (FilesCollected n) else external outcome CtxReact)
  = external outcome (if b then CtxReply (FilesCollected n) else CtxReact).
Proof. by destruct b. Qed.

Lemma processFileSequence_accept_run msg t w s file :
  userFileSequences w !! from_id msg = Some s ->
  msg_field msg t = Some file ->
  Z.of_nat (length (files s)) < CONFIG.MAX_FILES_PER_USER ->
  let ack := acknowledgement (Z.of_nat (length (files s)) + 1) in
  let stored :=
    mkWorld
      (<[from_id msg :=
           Build_Session (files s ++ [ingested msg t file w]) (startTime s)
             (clock w)]> (userFileSequences w))
      (usersCollection w) (clock w) (calls w) (trace w) in
  processFileSequence outcome msg t w
  = match outcome (calls w) ack with
    | None => (Ok tt, after_call stored ack None)
    | Some e =>
        reply outcome ErrorProcessingFile (after_call stored ack (Some e))
    end.
Proof.
  intros Hs Hf Hlen. cbv zeta.
  unfold processFileSequence. unfold bind at 1, gets.
  rewrite Hs, Hf.
  destruct (Z.geb_spec (Z.of_nat (length (files s))) CONFIG.MAX_FILES_PER_USER);
    [lia|].
  unfold try_catch, bind, now, gets, set_sessions, modify.
  cbv beta iota zeta. rewrite acknowledge_call.
  cbn [files]. rewrite length_app, Nat2Z.inj_add. cbn [length].
  change (Z.of_nat 1) with 1.
  fold (acknowledgement (Z.of_nat (length (files s)) + 1)).
  rewrite external_run. cbn [calls].
  by destruct (outcome (calls w)
                 (acknowledgement (Z.of_nat (length (files s)) + 1))).
Qed.

(** X5: a supported file sent to a session below the limit is appended
    after the files already collected, with the clock as last activity
    and the start time kept; this holds whatever becomes of the
    acknowledgement, which is a reply with the new count for the first five
    files and for every fiftieth, and a reaction otherwise; when the
    acknowledgement is rejected the user gets one error reply, and the
    handler throws only when that reply is rejected too. *)
Theorem processFileSequence_appends (msg : Message) (t : FileType)
    (w : World) (s : Session) (file : TgFile) :
  userFileSequences w !! from_id msg = Some s ->
  msg_field msg t = Some file ->
  Z.of_nat (length (files s)) < CONFIG.MAX_FILES_PER_USER ->
  let r := processFileSequence outcome msg t w in
  let ack := acknowledgement (Z.of_nat (length (files s)) + 1) in
  let o1 := outcome (calls w) ack in
  let o2 := outcome (S (calls w)) (CtxReply ErrorProcessingFile) in
  userFileSequences (snd r)
  = <[from_id msg :=
        Build_Session (files s ++ [ingested msg t file w]) (startTime s)
          (clock w)]> (userFileSequences w) /\
  trace (snd r)
  = trace w ++ Called ack o1
      :: match o1 with
         | None => []
         | Some _ => [Called (CtxReply ErrorProcessingFile) o2]
         end /\
  fst r = match o1, o2 with
          | Some _, Some e => Throw e
          | _, _ => Ok tt
          end /\
  usersCollection (snd r) = usersCollection w /\
  clock (snd r) = clock w /\
  (let n := Z.of_nat (length (files s)) + 1 in
   (ack = CtxReply (FilesCollected n) /\ (n mod 50 = 0 \/ n <= 5)) \/
   (ack = CtxReact /\ n mod 50 <> 0 /\ 5 < n)).
Proof.
  intros Hs Hf Hlen. cbv zeta.
  split; [|split; [|split; [|split; [|split]]]]; cycle 5.
  { unfold acknowledgement, CONFIG.PROGRESS_UPDATE_INTERVAL.
    destruct (Z.eqb_spec ((Z.of_nat (length (files s)) + 1) mod 50) 0);
      destruct (Z.leb_spec (Z.of_nat (length (files s)) + 1) 5);
      cbn [orb]; [left | left | left | right]; split; try reflexivity; lia. }
  all: rewrite (processFileSequence_accept_run msg t w s file Hs Hf Hlen).
  all: cbv zeta.
  all: destruct (outcome (calls w)
                   (acknowledgement (Z.of_nat (length (files s)) + 1)))
         as [e1|];
       [rewrite reply_run|];
       cbn [calls after_call fst snd userFileSequences trace usersCollection
              clock];
       try reflexivity.
  by rewrite <- app_assoc.
Qed.

End Ingest.

Lemma processFileSequence_appends_witness :
  let w := world_with 7 (Build_Session [show_480p_E02] 0 0) 5000 in
  let s := Build_Session [show_480p_E02] 0 0 in
  let msg := sample_document_message in
  let file := Build_TgFile "file-1" (Some "Show.480p.E02.mkv") None in
  userFileSequences w !! from_id msg = Some s /\
  msg_field msg document = Some file /\
  Z.of_nat (length (files s)) < CONFIG.MAX_FILES_PER_USER /\
  let r := processFileSequence (rejects_call 0 "Bad Request") msg document w in
  let ack := acknowledgement (Z.of_nat (length (files s)) + 1) in
  let o1 := rejects_call 0 "Bad Request" (calls w) ack in
  let o2 := rejects_call 0 "Bad Request" (S (calls w))
              (CtxReply ErrorProcessingFile) in
  userFileSequences (snd r)
  = <[from_id msg :=
        Build_Session (files s ++ [ingested msg document file w]) (startTime s)
          (clock w)]> (userFileSequences w) /\
  trace (snd r)
  = trace w ++ Called ack o1
      :: match o1 with
         | None => []
         | Some _ => [Called (CtxReply ErrorProcessingFile) o2]
         end /\
  fst r = match o1, o2 with
          | Some _, Some e => Throw e
          | _, _ => Ok tt
          end /\
  usersCollection (snd r) = usersCollection w /\
  clock (snd r) = clock w /\
  (let n := Z.of_nat (length (files s)) + 1 in
   (ack = CtxReply (FilesCollected n) /\ (n mod 50 = 0 \/ n <= 5)) \/
   (ack = CtxReact /\ n mod 50 <> 0 /\ 5 < n)).
Proof.
  intros w s msg file.
  split; [reflexivity|]. split; [reflexivity|].
  split; [vm_compute; reflexivity|].
  apply (processFileSequence_appends (rejects_call 0 "Bad Request")
           msg document w s file);
    [reflexivity | reflexivity | vm_compute; reflexivity].
Defined.


(** ** What every handler respects *)

Section HandlerFrame.

Variable localeCompare : string -> string -> Z.
Variable outcome : nat -> Call -> option Error.
Variable R : World -> World -> Prop.
Hypothesis R_refl : forall w, R w w.
Hypothesis R_trans : forall w1 w2 w3, R w1 w2 -> R w2 w3 -> R w1 w3.
Hypothesis R_external : forall c, respects R (external outcome c).
Hypothesis R_sleep : forall site ms, respects R (sleep site ms).
Hypothesis R_set_users : forall f, respects R (set_users f).
Hypothesis R_set_sessions : forall f, respects R (set_sessions f).
Hypothesis R_elapse :
  forall ms w,
    R w (mkWorld (userFileSequences w) (usersCollection w)
           (clock w + Z.max 0 ms) (calls w) (trace w)).

Lemma frame_sequenceFiles userId s n :
  respects R (sequenceFiles localeCompare outcome userId s n).
Proof.
  unfold sequenceFiles.
  apply respects_bind; [exact R_trans | |intros sorted].
  { apply respects_lift, R_refl. }
  apply respects_bind; [exact R_trans | apply R_set_sessions |intros _].
  cbv zeta.
  apply (frame_after_delivery outcome R R_refl R_trans R_external R_sleep
           R_set_users).
  apply (frame_deliver_from outcome R R_refl R_trans R_external R_sleep).
Qed.

Lemma frame_endSequence msg :
  respects R (endSequence localeCompare outcome msg).
Proof.
  unfold endSequence.
  apply respects_bind; [exact R_trans | apply respects_gets, R_refl |].
  intros [s|]; [|apply R_external].
  destruct (Z.of_nat (length (files s)) =? 0).
  - apply respects_bind; [exact R_trans | apply R_external | intros _].
    apply R_set_sessions.
  - cbv zeta.
    apply respects_bind; [exact R_trans | apply R_external | intros _].
    apply respects_try_finally; [exact R_trans | | apply R_set_sessions].
    apply respects_try_catch; [exact R_trans | | intros e; apply R_external].
    apply frame_sequenceFiles.
Qed.

Lemma frame_processFileSequence msg t :
  respects R (processFileSequence outcome msg t).
Proof.
  unfold processFileSequence.
  apply respects_bind; [exact R_trans | apply respects_gets, R_refl |].
  intros [s|]; [|apply R_external].
  destruct (msg_field msg t) as [file|]; [|apply R_external].
  destruct (Z.of_nat (length (files s)) >=? CONFIG.MAX_FILES_PER_USER);
    [apply R_external|].
  apply respects_try_catch; [exact R_trans | | intros e; apply R_external].
  unfold now.
  do 3 (apply respects_bind;
        [exact R_trans | apply respects_gets, R_refl | intros ?]).
  cbv zeta.
  apply respects_bind; [exact R_trans | apply R_set_sessions | intros _].
  match goal with
  | |- respects R (if ?b then _ else _) => destruct b
  end; apply R_external.
Qed.

Lemma frame_handle u : respects R (handle localeCompare outcome u).
Proof.
  destruct u as [msg|msg|msg|msg|t msg| |ms]; cbn [handle].
  - unfold ssequence.
    apply respects_bind; [exact R_trans | apply respects_gets, R_refl |].
    intros [s|]; [apply R_external|]. unfold now.
    do 2 (apply respects_bind;
          [exact R_trans | apply respects_gets, R_refl | intros ?]).
    apply respects_bind; [exact R_trans | apply R_set_sessions | intros _].
    apply R_external.
  - unfold status.
    apply respects_bind; [exact R_trans | apply respects_gets, R_refl |].
    intros [s|]; [|apply R_external]. cbv zeta. unfold now.
    apply respects_bind; [exact R_trans | apply respects_gets, R_refl |].
    intros ?. apply R_external.
  - apply frame_endSequence.
  - unfold cancel.
    apply respects_bind; [exact R_trans | apply respects_gets, R_refl |].
    intros [s|]; [|apply R_external]. cbv zeta.
    apply respects_bind; [exact R_trans | apply R_set_sessions | intros _].
    apply R_external.
  - apply frame_processFileSequence.
  - unfold cleanupInactiveSessions, now.
    apply respects_bind; [exact R_trans | apply respects_gets, R_refl |].
    intros ?. apply R_set_sessions.
  - intros w. apply R_elapse.
Qed.

End HandlerFrame.

(** The clock never goes back, whatever the handler and whatever the
    outside world answers. *)
Lemma clock_le_refl w : clock_le w w.
Proof. unfold clock_le. lia. Qed.

Lemma clock_le_trans w1 w2 w3 :
  clock_le w1 w2 -> clock_le w2 w3 -> clock_le w1 w3.
Proof. unfold clock_le. lia. Qed.

Lemma step_clock localeCompare outcome w u :
  clock w <= clock (step localeCompare outcome w u).
Proof.
  apply (frame_handle localeCompare outcome clock_le clock_le_refl
           clock_le_trans).
  - intros c w0. unfold clock_le, external.
    destruct (outcome (calls w0) c); simpl; lia.
  - intros site ms w0. unfold clock_le. simpl. lia.
  - intros f w0. unfold clock_le. simpl. lia.
  - intros f w0. unfold clock_le. simpl. lia.
  - intros ms w0. unfold clock_le. simpl. lia.
Qed.

Lemma step_trace_grows localeCompare outcome w u :
  trace_grows w (step localeCompare outcome w u).
Proof.
  apply (frame_handle localeCompare outcome trace_grows trace_grows_refl
           trace_grows_trans).
  - apply external_grows.
  - apply sleep_grows.
  - apply set_users_grows.
  - apply set_sessions_grows.
  - intros ms w0. exists []. simpl. by rewrite app_nil_r.
Qed.

(** ** Time stamps *)

Section Stamps.

Variable localeCompare : string -> string -> Z.
Variable outcome : nat -> Call -> option Error.

Lemma step_stamps_ok w u :
  stamps_ok w -> stamps_ok (step localeCompare outcome w u).
Proof.
  intros Hok uid s Hs.
  pose proof (step_clock localeCompare outcome w u) as Hclock.
  pose proof (step_sessions localeCompare outcome w u) as H. cbv zeta in H.
  assert (Hold : forall s0, userFileSequences w !! uid = Some s0 ->
            startTime s0 <= lastActivity s0 /\
            lastActivity s0 <= clock (step localeCompare outcome w u)).
  { intros s0 Hs0. destruct (Hok uid s0 Hs0). lia. }
  destruct u as [msg|msg|msg|msg|t msg| |ms].
  - destruct H as [H | [_ H]]; rewrite H in Hs; [by apply Hold|].
    apply lookup_insert_Some in Hs as [[_ <-]|[_ Hs]]; [|by apply Hold].
    cbn [startTime lastActivity]. lia.
  - rewrite H in Hs. by apply Hold.
  - destruct H as [H | H]; rewrite H in Hs; [by apply Hold|].
    apply lookup_delete_Some in Hs as [_ Hs]. by apply Hold.
  - destruct H as [H | H]; rewrite H in Hs; [by apply Hold|].
    apply lookup_delete_Some in Hs as [_ Hs]. by apply Hold.
  - destruct H as [H | (s0 & file & Hs0 & _ & _ & H)];
      rewrite H in Hs; [by apply Hold|].
    apply lookup_insert_Some in Hs as [[_ <-]|[_ Hs]]; [|by apply Hold].
    cbn [startTime lastActivity]. destruct (Hok _ _ Hs0). lia.
  - rewrite H in Hs. apply map_lookup_filter_Some in Hs as [Hs _].
    by apply Hold.
  - rewrite H in Hs. by apply Hold.
Qed.

Lemma reachable_stamps_ok w :
  reachable localeCompare outcome w -> stamps_ok w.
Proof.
  induction 1 as [t | w u Hw IH].
  - intros uid s Hs. simpl in Hs. by rewrite lookup_empty in Hs.
  - by apply step_stamps_ok.
Qed.

(** X6: with a clock that does not go back, in every reachable world
    each session started no later than its last activity, which is no
    later than the clock; and as long as a session stays open its start
    time is kept and its last activity never goes back, whatever update is
    handled. *)
Theorem last_activity_monotone (w : World) :
  reachable localeCompare outcome w ->
  (forall uid s,
     userFileSequences w !! uid = Some s ->
     startTime s <= lastActivity s /\ lastActivity s <= clock w) /\
  (forall u uid s s',
     userFileSequences w !! uid = Some s ->
     userFileSequences (step localeCompare outcome w u) !! uid = Some s' ->
     startTime s' = startTime s /\ lastActivity s <= lastActivity s').
Proof.
  intros Hreach. pose proof (reachable_stamps_ok w Hreach) as Hok.
  split; [exact Hok|].
  intros u uid s s' Hs Hs'.
  pose proof (step_sessions localeCompare outcome w u) as H. cbv zeta in H.
  assert (Hsame : userFileSequences w !! uid = Some s' ->
            startTime s' = startTime s /\ lastActivity s <= lastActivity s').
  { intros Heq. rewrite Hs in Heq. injection Heq as <-. lia. }
  destruct u as [msg|msg|msg|msg|t msg| |ms].
  - destruct H as [H | [Hnone H]]; rewrite H in Hs'; [by apply Hsame|].
    apply lookup_insert_Some in Hs' as [[<- _]|[_ Hs']];
      [congruence | by apply Hsame].
  - rewrite H in Hs'. by apply Hsame.
  - destruct H as [H | H]; rewrite H in Hs'; [by apply Hsame|].
    apply lookup_delete_Some in Hs' as [_ Hs']. by apply Hsame.
  - destruct H as [H | H]; rewrite H in Hs'; [by apply Hsame|].
    apply lookup_delete_Some in Hs' as [_ Hs']. by apply Hsame.
  - destruct H as [H | (s0 & file & Hs0 & _ & _ & H)];
      rewrite H in Hs'; [by apply Hsame|].
    apply lookup_insert_Some in Hs' as [[<- <-]|[_ Hs']]; [|by apply Hsame].
    rewrite Hs in Hs0. injection Hs0 as <-.
    cbn [startTime lastActivity]. destruct (Hok _ _ Hs). lia.
  - rewrite H in Hs'. apply map_lookup_filter_Some in Hs' as [Hs' _].
    by apply Hsame.
  - rewrite H in Hs'. by apply Hsame.
Qed.

(** X7: an update that comes from a user changes no session but that
    user's own, and the passing of time changes none; only the sweep of
    idle sessions touches the sessions of several users. *)
Theorem sessions_isolated (w : World) (u : Update) (uid : Z) :
  update_user u <> Some uid ->
  u <> Timer_cleanup ->
  userFileSequences (step localeCompare outcome w u) !! uid
  = userFileSequences w !! uid.
Proof.
  intros Huser Hsweep.
  pose proof (step_sessions localeCompare outcome w u) as H. cbv zeta in H.
  destruct u as [msg|msg|msg|msg|t msg| |ms]; cbn [update_user] in Huser.
  - destruct H as [-> | [_ ->]]; [reflexivity|].
    apply lookup_insert_ne. congruence.
  - by rewrite H.
  - destruct H as [-> | ->]; [reflexivity|].
    apply lookup_delete_ne. congruence.
  - destruct H as [-> | ->]; [reflexivity|].
    apply lookup_delete_ne. congruence.
  - destruct H as [-> | (s0 & file & _ & _ & _ & ->)]; [reflexivity|].
    apply lookup_insert_ne. congruence.
  - congruence.
  - by rewrite H.
Qed.

End Stamps.

Lemma last_activity_monotone_witness :
  let w := run codeUnitCompare always_resolves (initial_world 1000)
             (collect 2 ++ [Elapse 60000]) in
  reachable codeUnitCompare always_resolves w /\
  (forall uid s,
     userFileSequences w !! uid = Some s ->
     startTime s <= lastActivity s /\ lastActivity s <= clock w) /\
  (forall u uid s s',
     userFileSequences w !! uid = Some s ->
     userFileSequences (step codeUnitCompare always_resolves w u) !! uid
       = Some s' ->
     startTime s' = startTime s /\ lastActivity s <= lastActivity s').
Proof.
  intros w.
  assert (H : reachable codeUnitCompare always_resolves w)
    by (apply reachable_run; constructor).
  split; [exact H|].
  exact (last_activity_monotone codeUnitCompare always_resolves w H).
Defined.

Lemma sessions_isolated_witness :
  let w := run codeUnitCompare always_resolves (initial_world 1000)
             (collect 2) in
  let u := Command_esequence (command_message 8) in
  update_user u <> Some 7 /\
  u <> Timer_cleanup /\
  userFileSequences (step codeUnitCompare always_resolves w u) !! 7
  = userFileSequences w !! 7.
Proof.
  intros w u.
  assert (H1 : update_user u <> Some 7) by discriminate.
  assert (H2 : u <> Timer_cleanup) by discriminate.
  split; [exact H1|]. split; [exact H2|].
  exact (sessions_isolated codeUnitCompare always_resolves w u 7 H1 H2).
Defined.

(** ** Grouping by quality and episode, whatever [localeCompare] does *)

Lemma tier_key_lex a b :
  tier_key a <= tier_key b <->
  getQualityRank a < getQualityRank b \/
  (getQualityRank a = getQualityRank b /\
   getEpisodeNumber a <= getEpisodeNumber b).
Proof.
  unfold tier_key.
  pose proof (getEpisodeNumber_range a). pose proof (getEpisodeNumber_range b).
  lia.
Qed.

Lemma compareNames_tier_key lc a b :
  (compareNames lc a b <= 0 -> tier_key a <= tier_key b) /\
  (0 < compareNames lc a b -> tier_key b <= tier_key a).
Proof.
  rewrite !tier_key_lex. unfold compareNames, num_or.
  destruct (Z.eqb_spec (getQualityRank a - getQualityRank b) 0);
    destruct (Z.eqb_spec (getEpisodeNumber a - getEpisodeNumber b) 0);
    split; intros H; lia.
Qed.

Section KeySort.

Context {A : Type}.
Variable c : A -> A -> Z.
Variable key : A -> Z.
Hypothesis c_le : forall x y, c x y <= 0 -> key x <= key y.
Hypothesis c_gt : forall x y, 0 < c x y -> key y <= key x.

Lemma insert_by_key x l :
  StronglySorted (fun a b => key a <= key b) l ->
  StronglySorted (fun a b => key a <= key b) (insert_by c x l).
Proof.
  induction 1 as [|y l Hs IH Hall]; simpl.
  - by repeat constructor.
  - destruct (Z.leb_spec (c x y) 0) as [Hle|Hgt].
    + constructor; [by constructor|].
      constructor; [by apply c_le|].
      eapply Forall_impl; [exact Hall|]. intros z Hz. cbv beta in *.
      specialize (c_le x y Hle). lia.
    + constructor; [exact IH|].
      rewrite List.Forall_forall. intros z Hz.
      apply (Permutation_in _ (Permutation_sym (insert_by_perm c x l))) in Hz.
      destruct Hz as [<- | Hz]; [by apply c_gt|].
      rewrite List.Forall_forall in Hall. by apply Hall.
Qed.

Lemma sort_by_key l :
  StronglySorted (fun a b => key a <= key b) (sort_by c l).
Proof.
  induction l as [|x l IH]; simpl; [constructor|].
  by apply insert_by_key.
Qed.

End KeySort.

Lemma strongly_sorted_lookup {A} (R : A -> A -> Prop) l i j x y :
  StronglySorted R l -> (i < j)%nat ->
  l !! i = Some x -> l !! j = Some y -> R x y.
Proof.
  intros Hs. revert i j. induction Hs as [|a l Hs IH Hall]; intros i j Hij Hi Hj.
  - by rewrite lookup_nil in Hi.
  - destruct j as [|j]; [lia|]. simpl in Hj.
    destruct i as [|i].
    + simpl in Hi. injection Hi as <-.
      rewrite List.Forall_forall in Hall. apply Hall.
      apply list_elem_of_In. by eapply list_elem_of_lookup_2.
    + simpl in Hi. apply (IH i j); [lia | assumption | assumption].
Qed.

(** X8: the sort of [endSequence] returns the files grouped by quality
    rank in ascending order and, within a rank, in ascending order of the
    episode key: of two files of the result, the later one never has a
    lower rank, nor the same rank and a lower episode key. The first two
    tiers of the comparator decide this alone; nothing is asked of
    [localeCompare]. *)
Theorem order_groups_by_quality (localeCompare : string -> string -> Z)
    (l : list FileInfo) :
  Forall has_media l ->
  exists sorted,
    array_sort (comparator localeCompare) l = Ok sorted /\
    Permutation l sorted /\
    forall i j x y,
      (i < j)%nat -> sorted !! i = Some x -> sorted !! j = Some y ->
      getQualityRank (sortKeyName x) < getQualityRank (sortKeyName y) \/
      (getQualityRank (sortKeyName x) = getQualityRank (sortKeyName y) /\
       getEpisodeNumber (sortKeyName x) <= getEpisodeNumber (sortKeyName y)).
Proof.
  intros Hl. exists (sort_by (compareItems localeCompare) l).
  split; [by apply array_sort_media|]. split; [apply sort_by_perm|].
  intros i j x y Hij Hi Hj. apply tier_key_lex.
  apply (strongly_sorted_lookup tiers_le
           (sort_by (compareItems localeCompare) l) i j x y);
    try assumption.
  apply (sort_by_key (compareItems localeCompare)
           (fun a => tier_key (sortKeyName a))).
  - intros a b. apply compareNames_tier_key.
  - intros a b. apply compareNames_tier_key.
Qed.

Lemma order_groups_by_quality_witness :
  Forall has_media [show_480p_E02; show_720p_E01; show_480p_E01] /\
  exists sorted,
    array_sort (comparator codeUnitCompare)
      [show_480p_E02; show_720p_E01; show_480p_E01] = Ok sorted /\
    Permutation [show_480p_E02; show_720p_E01; show_480p_E01] sorted /\
    forall i j x y,
      (i < j)%nat -> sorted !! i = Some x -> sorted !! j = Some y ->
      getQualityRank (sortKeyName x) < getQualityRank (sortKeyName y) \/
      (getQualityRank (sortKeyName x) = getQualityRank (sortKeyName y) /\
       getEpisodeNumber (sortKeyName x) <= getEpisodeNumber (sortKeyName y)).
Proof.
  assert (H : Forall has_media [show_480p_E02; show_720p_E01; show_480p_E01])
    by (repeat constructor; eexists; reflexivity).
  split; [exact H|].
  exact (order_groups_by_quality codeUnitCompare _ H).
Defined.

(** ** The batches, one by one *)

Lemma batches_from_lookup fuel i l j :
  0 <= i ->
  i + CONFIG.BATCH_SIZE * Z.of_nat j < Z.of_nat (length l) ->
  (Z.to_nat (Z.of_nat (length l) - i) <= fuel)%nat ->
  batches_from fuel i l !! j
  = Some (take 50 (drop (Z.to_nat (i + CONFIG.BATCH_SIZE * Z.of_nat j)) l)).
Proof.
  unfold CONFIG.BATCH_SIZE.
  revert fuel i. induction j as [|j IH]; intros fuel i Hi Hlt Hfuel.
  - destruct fuel as [|fuel]; [lia|]. cbn [batches_from].
    destruct (Z.ltb_spec i (Z.of_nat (length l))); [|lia].
    rewrite slice_take_drop by (unfold CONFIG.BATCH_SIZE; lia).
    simpl. unfold CONFIG.BATCH_SIZE. do 3 f_equal. lia.
  - destruct fuel as [|fuel]; [lia|]. cbn [batches_from].
    destruct (Z.ltb_spec i (Z.of_nat (length l))); [|lia].
    rewrite lookup_cons. unfold CONFIG.BATCH_SIZE.
    rewrite (IH fuel (i + 50)) by lia.
    do 3 f_equal. lia.
Qed.

Lemma batches_from_length fuel i l :
  0 <= i ->
  (Z.to_nat (Z.of_nat (length l) - i) <= fuel)%nat ->
  Z.of_nat (length (batches_from fuel i l))
  = Z.max 0 ((Z.of_nat (length l) - i + 49) / 50).
Proof.
  revert i. induction fuel as [|fuel IH]; intros i Hi Hfuel.
  - simpl.
    assert ((Z.of_nat (length l) - i + 49) / 50 <= 0); [|lia].
    assert ((Z.of_nat (length l) - i + 49) / 50 < 1); [|lia].
    apply Z.div_lt_upper_bound; lia.
  - cbn [batches_from].
    destruct (Z.ltb_spec i (Z.of_nat (length l))) as [Hlt|Hge].
    + cbn [length]. rewrite Nat2Z.inj_succ.
      rewrite (IH (i + CONFIG.BATCH_SIZE))
        by (unfold CONFIG.BATCH_SIZE; lia).
      unfold CONFIG.BATCH_SIZE.
      replace (Z.of_nat (length l) - i + 49)
        with (Z.of_nat (length l) - (i + 50) + 49 + 1 * 50) by lia.
      rewrite Z.div_add by lia.
      assert (0 <= (Z.of_nat (length l) - (i + 50) + 49) / 50)
        by (apply Z.div_pos; lia).
      lia.
    + simpl.
      assert ((Z.of_nat (length l) - i + 49) / 50 < 1); [|lia].
      apply Z.div_lt_upper_bound; lia.
Qed.

Lemma make_batches_length l :
  Z.of_nat (length (make_batches l)) = (Z.of_nat (length l) + 49) / 50.
Proof.
  unfold make_batches.
  rewrite batches_from_length by lia.
  replace (Z.of_nat (length l) - 0 + 49) with (Z.of_nat (length l) + 49)
    by lia.
  assert (0 <= (Z.of_nat (length l) + 49) / 50) by (apply Z.div_pos; lia).
  lia.
Qed.

Lemma make_batches_single l :
  (length l <= 50)%nat -> (length (make_batches l) <= 1)%nat.
Proof.
  intros H. pose proof (make_batches_length l) as Hlen.
  assert ((Z.of_nat (length l) + 49) / 50 < 2); [|lia].
  apply Z.div_lt_upper_bound; lia.
Qed.

(** X9: [endSequence] cuts a list of [n] files into [ceil(n / 50)]
    batches; batch number [j] (from 0) holds the files [50 j] to
    [50 j + 49] of the list, so that every batch but the last holds
    exactly 50 files; a session within the limit of 200 files gives four
    batches at most, and one of 50 files or fewer a single batch. *)
Theorem make_batches_slices (l : list FileInfo) :
  Z.of_nat (length (make_batches l)) = (Z.of_nat (length l) + 49) / 50 /\
  (forall j,
     (j < length (make_batches l))%nat ->
     make_batches l !! j = Some (take 50 (drop (50 * j) l))) /\
  (forall j b,
     (S j < length (make_batches l))%nat ->
     make_batches l !! j = Some b -> length b = 50%nat) /\
  (Z.of_nat (length l) <= CONFIG.MAX_FILES_PER_USER ->
   (length (make_batches l) <= 4)%nat) /\
  ((0 < length l <= 50)%nat -> make_batches l = [l]).
Proof.
  pose proof (make_batches_length l) as Hlen.
  assert (Hbound : forall j, (j < length (make_batches l))%nat ->
            50 * Z.of_nat j < Z.of_nat (length l)).
  { intros j Hj.
    assert (Z.of_nat j < (Z.of_nat (length l) + 49) / 50) by lia.
    pose proof (Z.div_mod (Z.of_nat (length l) + 49) 50 ltac:(lia)).
    pose proof (Z.mod_pos_bound (Z.of_nat (length l) + 49) 50 ltac:(lia)).
    lia. }
  assert (Hlook : forall j, (j < length (make_batches l))%nat ->
            make_batches l !! j = Some (take 50 (drop (50 * j) l))).
  { intros j Hj. unfold make_batches.
    rewrite batches_from_lookup;
      [|lia | unfold CONFIG.BATCH_SIZE; specialize (Hbound j Hj); lia | lia].
    unfold CONFIG.BATCH_SIZE. do 3 f_equal. lia. }
  split; [exact Hlen|]. split; [exact Hlook|]. split; [|split].
  - intros j b Hj Hb. rewrite Hlook in Hb by lia. injection Hb as <-.
    specialize (Hbound (S j) Hj).
    rewrite length_take, length_drop. lia.
  - unfold CONFIG.MAX_FILES_PER_USER. intros Hmax.
    assert ((Z.of_nat (length l) + 49) / 50 < 5); [|lia].
    apply Z.div_lt_upper_bound; lia.
  - intros Hsmall.
    assert (Hone : length (make_batches l) = 1%nat).
    { assert ((Z.of_nat (length l) + 49) / 50 = 1); [|lia].
      symmetry. apply (Z.div_unique _ _ 1 (Z.of_nat (length l) - 1)); lia. }
    pose proof (Hlook 0%nat ltac:(lia)) as H0.
    destruct (make_batches l) as [|b [|b' rest]]; try discriminate.
    simpl in H0. injection H0 as ->. f_equal.
    rewrite drop_0. apply take_ge. lia.
Qed.

(** ** The backoff of [retryOperation] *)

Lemma paused_app evs evs' : paused (evs ++ evs') = paused evs + paused evs'.
Proof.
  induction evs as [|[c r|site ms] evs IH]; simpl; lia.
Qed.

Lemma resolved_app evs evs' : resolved (evs ++ evs') = resolved evs ++ resolved evs'.
Proof.
  induction evs as [|[c [e|]|site ms] evs IH]; simpl; congruence.
Qed.

Lemma attempts_cons_call c r evs :
  attempts (Called c r :: evs) = 1 + attempts evs.
Proof. unfold attempts. rewrite filter_cons. simpl. lia. Qed.

Lemma attempts_cons_sleep site ms evs :
  attempts (Slept site ms :: evs) = attempts evs.
Proof. unfold attempts. by rewrite filter_cons. Qed.

Lemma retry_trace_paused c maxRetries delay attempt evs r :
  1 <= attempt ->
  retry_trace c maxRetries delay attempt evs r ->
  paused evs = delay * 2 ^ (attempt - 1) * (2 ^ (attempts evs - 1) - 1).
Proof.
  intros Hattempt Htr.
  induction Htr as [attempt H | e | attempt e evs r Hlt Htr IH].
  - rewrite attempts_cons_call. simpl. unfold attempts. simpl. lia.
  - rewrite attempts_cons_call. simpl. unfold attempts. simpl. lia.
  - pose proof (retry_trace_attempts _ _ _ _ _ _ Htr) as Hk.
    rewrite attempts_cons_call, attempts_cons_sleep.
    cbn [paused]. rewrite IH by lia.
    replace (attempt + 1 - 1) with (Z.succ (attempt - 1)) by lia.
    replace (1 + attempts evs - 1) with (Z.succ (attempts evs - 1)) by lia.
    rewrite !Z.pow_succ_r by lia. ring.
Qed.

Lemma retry_trace_exhausted c maxRetries delay attempt evs e :
  retry_trace c maxRetries delay attempt evs (Throw e) ->
  attempts evs = maxRetries - attempt + 1.
Proof.
  intros Htr. remember (Throw e) as r eqn:Hr.
  induction Htr as [attempt H | e' | attempt e' evs r Hlt Htr IH].
  - discriminate.
  - rewrite attempts_cons_call. unfold attempts. simpl. lia.
  - rewrite attempts_cons_call, attempts_cons_sleep, IH by done. lia.
Qed.

Lemma retry_trace_resolved c maxRetries delay attempt evs r :
  retry_trace c maxRetries delay attempt evs r ->
  resolved evs = match r with Ok _ => [c] | Throw _ => [] end.
Proof.
  induction 1 as [attempt H | e | attempt e evs r Hlt Htr IH]; simpl; done.
Qed.

(** X10: [retryOperation] on a call that may be rejected, with a budget of
    at least one attempt: it makes between one and [maxRetries] attempts of
    that call, stops at the first that resolves, and gives up with the last
    error after exactly [maxRetries] rejections. Before attempt [k + 1] it
    sleeps [delay * 2^(k-1)], so that [k] attempts have waited
    [delay * (2^(k-1) - 1)] in all, and it sleeps neither before the first
    attempt nor after the last. With a budget of zero or less it calls
    nothing and returns [undefined], whatever the operation. *)
Theorem retry_backoff (outcome : nat -> Call -> option Error) (c : Call)
    (maxRetries delay : Z) (w : World) :
  1 <= maxRetries ->
  (exists evs r w',
     retryOperation (external outcome c) maxRetries delay w = (r, w') /\
     trace w' = trace w ++ evs /\
     1 <= attempts evs <= maxRetries /\
     paused evs = delay * (2 ^ (attempts evs - 1) - 1) /\
     (exists evs0 rejected, evs = evs0 ++ [Called c rejected] /\
        resolved evs0 = [] /\
        r = match rejected with
            | None => Ok (Some tt)
            | Some e => Throw e
            end /\
        (rejected <> None -> attempts evs = maxRetries)) /\
     head evs = Some (Called c (outcome (calls w) c))) /\
  (forall (A : Type) (operation : M A) (budget : Z),
     budget <= 0 -> retryOperation operation budget delay w = (Ok None, w)).
Proof.
  intros Hmax. split.
  - destruct (retryOperation_spec outcome c maxRetries delay w Hmax)
      as (evs & r & w' & Htr & Hans & Hrun & Hw').
    exists evs, (match r with Ok _ => Ok (Some tt) | Throw e => Throw e end), w'.
    split; [exact Hrun|]. split; [apply Hw'|].
    pose proof (retry_trace_attempts _ _ _ _ _ _ Htr) as Hk.
    split; [lia|]. split.
    { rewrite (retry_trace_paused c maxRetries delay 1 evs _ ltac:(lia) Htr).
      change (2 ^ (1 - 1)) with 1. ring. }
    split.
    + destruct (retry_trace_last _ _ _ _ _ _ Htr) as (evs0 & rej & -> & Hrej).
      exists evs0, rej. split; [done|].
      pose proof (retry_trace_resolved _ _ _ _ _ _ Htr) as Hres.
      rewrite resolved_app in Hres.
      destruct r as [[]|e], rej as [e'|]; simpl in Hres.
      * destruct Hrej as [_ Hrej]. by specialize (Hrej eq_refl).
      * split; [|split; [done|done]].
        destruct (resolved evs0); [done|]. by destruct l.
      * rewrite app_nil_r in Hres. split; [done|].
        destruct (retry_trace_thrown _ _ _ _ _ _ Htr) as (evs1 & Heq).
        apply app_inj_tail in Heq as [_ Heq]. injection Heq as ->.
        split; [done|]. intros _.
        rewrite (retry_trace_exhausted _ _ _ _ _ _ Htr). lia.
      * destruct Hrej as [Hrej _]. by specialize (Hrej eq_refl).
    + unfold retryOperation in Hrun.
      destruct (Z.to_nat maxRetries) as [|fuel] eqn:Hfuel; [lia|].
      cbn [retry_from] in Hrun.
      destruct (Z.leb_spec 1 maxRetries); [|lia].
      unfold bind at 1, try_catch at 1, bind at 1 in Hrun.
      rewrite external_run in Hrun.
      destruct Hw' as (Htrace & _ & _).
      destruct (outcome (calls w) c) as [e|] eqn:Hout.
      * destruct (Z.eqb_spec 1 maxRetries) as [Heq|Hne].
        -- unfold throw in Hrun. injection Hrun as _ <-.
           simpl in Htrace. apply app_inv_head in Htrace. by subst evs.
        -- unfold bind at 1, sleep at 1, modify in Hrun.
           unfold ret at 1 in Hrun.
           match type of Hrun with
           | retry_from _ _ _ _ _ ?w1 = _ =>
               pose proof (respects_retry_from trace_grows trace_grows_refl
                             trace_grows_trans
                             (external outcome c) maxRetries delay fuel (1 + 1)
                             (external_grows outcome c)
                             (sleep_grows Backoff) w1) as [more Hmore]
           end.
           rewrite Hrun in Hmore. simpl in Hmore.
           rewrite Htrace, <- !app_assoc in Hmore.
           apply app_inv_head in Hmore. by subst evs.
      * unfold ret in Hrun. injection Hrun as _ <-.
        simpl in Htrace. apply app_inv_head in Htrace. by subst evs.
  - intros A operation budget Hbudget. unfold retryOperation.
    by replace (Z.to_nat budget) with 0%nat by lia.
Qed.

Lemma retry_backoff_witness :
  let outcome := rejects_sends "ETIMEDOUT" in
  let c := ReplyWithVideo "file-9" "" in
  let w := initial_world 0 in
  1 <= CONFIG.MAX_RETRIES /\
  (exists evs r w',
     retryOperation (external outcome c) CONFIG.MAX_RETRIES
       CONFIG.RETRY_DELAY w = (r, w') /\
     trace w' = trace w ++ evs /\
     1 <= attempts evs <= CONFIG.MAX_RETRIES /\
     paused evs = CONFIG.RETRY_DELAY * (2 ^ (attempts evs - 1) - 1) /\
     (exists evs0 rejected, evs = evs0 ++ [Called c rejected] /\
        resolved evs0 = [] /\
        r = match rejected with
            | None => Ok (Some tt)
            | Some e => Throw e
            end /\
        (rejected <> None -> attempts evs = CONFIG.MAX_RETRIES)) /\
     head evs = Some (Called c (outcome (calls w) c))) /\
  (forall (A : Type) (operation : M A) (budget : Z),
     budget <= 0 ->
     retryOperation operation budget CONFIG.RETRY_DELAY w = (Ok None, w)).
Proof.
  cbv zeta.
  assert (H : 1 <= CONFIG.MAX_RETRIES) by (unfold CONFIG.MAX_RETRIES; lia).
  split; [exact H|].
  exact (retry_backoff (rejects_sends "ETIMEDOUT")
           (ReplyWithVideo "file-9" "") CONFIG.MAX_RETRIES
           CONFIG.RETRY_DELAY (initial_world 0) H).
Defined.

(** Three rejections of a send wait one second, then two: three seconds. *)
Example retry_gives_up_after_three_seconds :
  let r := retryOperation
             (external (rejects_sends "ETIMEDOUT")
                (ReplyWithVideo "file-9" ""))
             CONFIG.MAX_RETRIES CONFIG.RETRY_DELAY (initial_world 0) in
  fst r = Throw "ETIMEDOUT" /\
  attempts (trace (snd r)) = 3 /\ paused (trace (snd r)) = 3000.
Proof. repeat split. Qed.

(** ** The statistics of [endSequence] *)

Section Statistics.

Variable outcome : nat -> Call -> option Error.

Lemma updateStatistics_run userId k w :
  let doc := statistics_doc (usersCollection w !! userId) k (clock w) in
  updateStatistics outcome userId k w
  = match outcome (calls w) (FindOne userId) with
    | Some e => (Throw e, after_call w (FindOne userId) (Some e))
    | None =>
        match outcome (S (calls w)) (UpdateOne userId doc) with
        | Some e =>
            (Throw e,
             after_call (after_call w (FindOne userId) None)
               (UpdateOne userId doc) (Some e))
        | None =>
            (Ok tt,
             mkWorld (userFileSequences w)
               (alter (fun _ => doc) userId (usersCollection w))
               (clock w) (S (S (calls w)))
               ((trace w ++ [Called (FindOne userId) None])
                  ++ [Called (UpdateOne userId doc) None]))
        end
    end.
Proof.
  cbv zeta. unfold updateStatistics.
  unfold bind at 1. rewrite external_run.
  destruct (outcome (calls w) (FindOne userId)) as [e|]; [reflexivity|].
  unfold bind at 1, gets. unfold bind at 1, now, gets.
  unfold bind at 1. rewrite external_run. cbn [calls after_call usersCollection clock].
  fold (statistics_doc (usersCollection w !! userId) k (clock w)).
  destruct (outcome (S (calls w)) _) as [e|]; reflexivity.
Qed.

(** One attempt of the update: it writes the document when both calls
    resolve, and nothing otherwise. *)
Lemma updateStatistics_spec userId k w :
  exists evs r w',
    updateStatistics outcome userId k w = (r, w') /\
    trace w' = trace w ++ evs /\
    userFileSequences w' = userFileSequences w /\
    clock w' = clock w /\
    Forall (fun ev => is_statistics userId ev = true) evs /\
    attempts evs <= 2 /\
    match r with
    | Throw _ =>
        usersCollection w' = usersCollection w /\
        forall doc, Called (UpdateOne userId doc) None ∉ evs
    | Ok _ =>
        let doc := statistics_doc (usersCollection w !! userId) k (clock w) in
        usersCollection w' = alter (fun _ => doc) userId (usersCollection w) /\
        evs = [Called (FindOne userId) None;
               Called (UpdateOne userId doc) None]
    end.
Proof.
  rewrite updateStatistics_run. cbv zeta.
  set (doc := statistics_doc (usersCollection w !! userId) k (clock w)).
  assert (Hid : (userId =? userId) = true) by apply Z.eqb_refl.
  destruct (outcome (calls w) (FindOne userId)) as [e|].
  - exists [Called (FindOne userId) (Some e)]. do 2 eexists.
    split; [reflexivity|]. repeat split.
    + constructor; [exact Hid|constructor].
    + unfold attempts. simpl. lia.
    + intros d Hin. apply list_elem_of_singleton in Hin. discriminate.
  - destruct (outcome (S (calls w)) (UpdateOne userId doc)) as [e|].
    + exists [Called (FindOne userId) None;
              Called (UpdateOne userId doc) (Some e)].
      do 2 eexists. split; [reflexivity|]. repeat split.
      * simpl. by rewrite <- app_assoc.
      * repeat constructor; exact Hid.
      * unfold attempts. simpl. lia.
      * intros d Hin.
        apply elem_of_cons in Hin as [Hin|Hin]; [discriminate|].
        apply list_elem_of_singleton in Hin. discriminate.
    + exists [Called (FindOne userId) None;
              Called (UpdateOne userId doc) None].
      do 2 eexists. split; [reflexivity|]. repeat split.
      * simpl. by rewrite <- app_assoc.
      * repeat constructor; exact Hid.
      * unfold attempts. simpl. lia.
Qed.

Lemma attempts_app evs evs' : attempts (evs ++ evs') = attempts evs + attempts evs'.
Proof.
  unfold attempts. rewrite filter_app, length_app. lia.
Qed.

(** The retried update writes the document at most once: at the attempt
    whose two calls resolve, which is the last. *)
Lemma retry_statistics userId k maxRetries delay fuel attempt w :
  exists evs r w',
    retry_from (updateStatistics outcome userId k) maxRetries delay fuel
      attempt w = (r, w') /\
    trace w' = trace w ++ evs /\
    userFileSequences w' = userFileSequences w /\
    clock w <= clock w' /\
    Forall (fun ev => is_statistics userId ev = true) evs /\
    attempts evs <= 2 * Z.of_nat fuel /\
    ((r <> Ok (Some tt) /\
      usersCollection w' = usersCollection w /\
      forall doc, Called (UpdateOne userId doc) None ∉ evs) \/
     (r = Ok (Some tt) /\
      exists date evs0,
        clock w <= date <= clock w' /\
        let doc := statistics_doc (usersCollection w !! userId) k date in
        usersCollection w' = alter (fun _ => doc) userId (usersCollection w) /\
        evs = evs0 ++ [Called (FindOne userId) None;
                       Called (UpdateOne userId doc) None] /\
        forall doc', Called (UpdateOne userId doc') None ∉ evs0)).
Proof.
  revert attempt w. induction fuel as [|fuel IH]; intros attempt w.
  - exists [], (Ok None), w. simpl. rewrite app_nil_r.
    repeat split; try done; try lia.
    left. repeat split; try done. intros d Hin. by apply elem_of_nil in Hin.
  - cbn [retry_from].
    destruct (attempt <=? maxRetries).
    2:{ exists [], (Ok None), w. unfold ret. rewrite app_nil_r.
        repeat split; try done; try lia.
        left. repeat split; try done.
        intros d Hin. by apply elem_of_nil in Hin. }
    destruct (updateStatistics_spec userId k w)
      as (evs1 & r1 & w1 & Hrun1 & Htr1 & Hs1 & Hc1 & Hst1 & Hat1 & Hr1).
    unfold bind at 1, try_catch at 1, bind at 1. rewrite Hrun1.
    destruct r1 as [[]|e].
    + cbv zeta in Hr1. destruct Hr1 as [Hu1 ->].
      exists [Called (FindOne userId) None;
              Called (UpdateOne userId
                        (statistics_doc (usersCollection w !! userId) k
                           (clock w))) None],
        (Ok (Some tt)), w1.
      unfold ret. repeat split; try done; try lia.
      right. split; [done|]. exists (clock w), [].
      repeat split; try done; try lia.
      intros d Hin. by apply elem_of_nil in Hin.
    + destruct Hr1 as [Hu1 Hno1].
      destruct (attempt =? maxRetries).
      * exists evs1, (Throw e), w1. unfold throw.
        repeat split; try done; try lia.
        left. repeat split; done.
      * unfold bind at 1, sleep at 1, modify. unfold ret at 1.
        cbv beta iota.
        set (ms := delay * 2 ^ (attempt - 1)).
        set (w2 := mkWorld (userFileSequences w1) (usersCollection w1)
                     (clock w1 + Z.max 0 ms) (calls w1)
                     (trace w1 ++ [Slept Backoff ms])).
        destruct (IH (attempt + 1) w2)
          as (evs2 & r2 & w3 & Hrun2 & Htr2 & Hs2 & Hc2 & Hst2 & Hat2 & Hr2).
        rewrite Hrun2.
        exists (evs1 ++ Slept Backoff ms :: evs2), r2, w3.
        split; [reflexivity|]. split.
        { rewrite Htr2. simpl. rewrite Htr1, <- !app_assoc. reflexivity. }
        split; [by rewrite Hs2|].
        split; [simpl in Hc2; lia|].
        split.
        { apply Forall_app. split; [exact Hst1|]. by constructor. }
        split.
        { rewrite attempts_app, attempts_cons_sleep. lia. }
        unfold w2 in Hr2. cbn [usersCollection clock] in Hr2.
        rewrite Hu1 in Hr2.
        destruct Hr2 as [(Hne & Hu2 & Hno2)|(-> & date & evs0 & Hd & Hr2)].
        -- left. split; [exact Hne|]. split; [exact Hu2|].
           intros d Hin. apply elem_of_app in Hin as [Hin|Hin].
           ++ by apply (Hno1 d).
           ++ apply elem_of_cons in Hin as [Hin|Hin]; [discriminate|].
              by apply (Hno2 d).
        -- right. split; [done|].
           exists date, (evs1 ++ Slept Backoff ms :: evs0).
           cbv zeta in Hr2. destruct Hr2 as (Hu2 & -> & Hno2).
           split; [lia|]. cbv zeta. split; [exact Hu2|].
           split; [by rewrite <- app_assoc|].
           intros d Hin. apply elem_of_app in Hin as [Hin|Hin].
           ++ by apply (Hno1 d).
           ++ apply elem_of_cons in Hin as [Hin|Hin]; [discriminate|].
              by apply (Hno2 d).
Qed.

(** The [try] block around the statistics: it never throws. *)
Lemma statistics_block_spec userId k w :
  exists evs w',
    try_catch
      (retryOperation (updateStatistics outcome userId k)
         CONFIG.MAX_RETRIES CONFIG.RETRY_DELAY ;;
       ret tt)
      (fun error => ret tt) w = (Ok tt, w') /\
    trace w' = trace w ++ evs /\
    userFileSequences w' = userFileSequences w /\
    clock w <= clock w' /\
    Forall (fun ev => is_statistics userId ev = true) evs /\
    attempts evs <= 6 /\
    ((usersCollection w' = usersCollection w /\
      forall doc, Called (UpdateOne userId doc) None ∉ evs) \/
     (exists date evs0,
        clock w <= date <= clock w' /\
        let doc := statistics_doc (usersCollection w !! userId) k date in
        usersCollection w' = alter (fun _ => doc) userId (usersCollection w) /\
        evs = evs0 ++ [Called (FindOne userId) None;
                       Called (UpdateOne userId doc) None] /\
        forall doc', Called (UpdateOne userId doc') None ∉ evs0)).
Proof.
  destruct (retry_statistics userId k CONFIG.MAX_RETRIES CONFIG.RETRY_DELAY
              (Z.to_nat CONFIG.MAX_RETRIES) 1 w)
    as (evs & r & w' & Hrun & Htr & Hs & Hc & Hst & Hat & Hr).
  exists evs, w'. unfold try_catch, bind, retryOperation. rewrite Hrun.
  split; [by destruct r as [[[]|]|e]|].
  change (2 * Z.of_nat (Z.to_nat CONFIG.MAX_RETRIES)) with 6 in Hat.
  do 5 (split; [assumption|]).
  destruct Hr as [(_ & Hu & Hno)|(_ & Hr)]; [left | right]; done.
Qed.

End Statistics.

(** ** The files that went out *)

Lemma sends_app evs evs' : sends (evs ++ evs') = sends evs ++ sends evs'.
Proof. unfold sends. by rewrite resolved_app, filter_app. Qed.

Lemma sends_pause_after_item batchLength i :
  sends (pause_after_item batchLength i) = [].
Proof. unfold pause_after_item. by destruct (i <? batchLength - 1). Qed.

Lemma sends_pause_after_batch batchesLength i :
  sends (pause_after_batch batchesLength i) = [].
Proof. unfold pause_after_batch. by destruct (i <? batchesLength - 1). Qed.

Lemma sends_progress_notice batchesLength i rejected :
  sends (progress_notice batchesLength i rejected) = [].
Proof.
  unfold progress_notice.
  destruct (batchesLength >? 1); [|done]. by destruct rejected.
Qed.

Lemma item_trace_sends batchLength i x evs fate :
  item_trace batchLength i x evs fate ->
  sends evs = match fate with
              | Delivered => option_list (send_of x)
              | _ => []
              end.
Proof.
  intros [Hnone | file c evs' Hm Hc Htr | file c evs' e Hm Hc Htr].
  - done.
  - rewrite sends_app, sends_pause_after_item, app_nil_r.
    unfold sends. rewrite (retry_trace_resolved _ _ _ _ _ _ Htr).
    rewrite filter_cons, (sendCall_send _ _ _ Hc).
    unfold send_of. rewrite Hm. simpl. by rewrite Hc.
  - unfold sends. by rewrite (retry_trace_resolved _ _ _ _ _ _ Htr).
Qed.

Lemma batch_trace_sends batchLength i rest evs fates :
  batch_trace batchLength i rest evs fates ->
  sends evs = omap send_of (delivered rest fates).
Proof.
  induction 1 as [i | i x rest evs fate evs' fates Hit Hbt IH]; [done|].
  rewrite sends_app, IH, (item_trace_sends _ _ _ _ _ Hit).
  destruct fate; cbn [delivered]; [|done|done].
  cbn [omap list_omap]. by destruct (send_of x).
Qed.

Lemma delivery_trace_sends batchesLength i rest evs fates left :
  delivery_trace batchesLength i rest evs fates left ->
  sends evs = omap send_of (delivered_all rest fates).
Proof.
  induction 1 as [i | i batch rest e Hgt
                 | i batch rest evs fs evs' fates left Hbt Hdt IH].
  - done.
  - by rewrite sends_progress_notice.
  - rewrite !sends_app, sends_progress_notice, sends_pause_after_batch, IH,
      (batch_trace_sends _ _ _ _ _ Hbt).
    cbn [delivered_all]. by rewrite omap_app.
Qed.

Lemma delivered_sublist batch fates : sublist (delivered batch fates) batch.
Proof.
  revert fates. induction batch as [|x batch IH]; intros fates.
  - by destruct fates.
  - destruct fates as [|[| |] fates]; cbn [delivered].
    + apply sublist_nil_l.
    + apply sublist_skip, IH.
    + apply sublist_cons, IH.
    + apply sublist_cons, IH.
Qed.

Lemma delivered_all_sublist batches fates :
  sublist (delivered_all batches fates) (concat batches).
Proof.
  revert fates. induction batches as [|b batches IH]; intros fates.
  - by destruct fates.
  - destruct fates as [|fs fates]; cbn [delivered_all concat].
    + apply sublist_nil_l.
    + apply sublist_app; [apply delivered_sublist | apply IH].
Qed.

Lemma count_items_success batch fates r :
  success (count_items batch fates r)
  = success r + Z.of_nat (length (delivered batch fates)).
Proof.
  revert fates r. induction batch as [|x batch IH]; intros fates r.
  - destruct fates; simpl; lia.
  - destruct fates as [|[| |] fates]; cbn [count_items delivered].
    + simpl. lia.
    + rewrite IH. cbn [count_item success length]. lia.
    + rewrite IH. cbn [count_item success length]. lia.
    + rewrite IH. cbn [count_item success length]. lia.
Qed.

Lemma add_batches_success batches fates t :
  totalSuccess (add_batches batches fates t)
  = totalSuccess t + Z.of_nat (length (delivered_all batches fates)).
Proof.
  revert fates t. induction batches as [|b batches IH]; intros fates t.
  - destruct fates; simpl; lia.
  - destruct fates as [|fs fates]; cbn [add_batches delivered_all].
    + simpl. lia.
    + rewrite IH. unfold add_results. cbn [totalSuccess].
      rewrite count_items_success, length_app. cbn [success]. lia.
Qed.

(** With a media in every item, every failure leaves one line in the list
    of errors. *)
Lemma count_skipped_media batch :
  Forall has_media batch -> count_skipped batch = 0.
Proof.
  intros H. unfold count_skipped.
  induction H as [|x batch [f Hx] H IH]; [done|].
  rewrite filter_cons. destruct (decide (media (message x) = None)); [|done].
  congruence.
Qed.

Lemma delivery_trace_errors batchesLength i rest evs fates t :
  delivery_trace batchesLength i rest evs fates None ->
  Forall has_media (concat rest) ->
  Z.of_nat (length (allErrors (add_batches rest fates t)))
  = Z.of_nat (length (allErrors t))
    + (totalFailed (add_batches rest fates t) - totalFailed t).
Proof.
  intros H. remember None as left eqn:Hleft. revert t.
  induction H as [i | i batch rest e Hgt
                 | i batch rest evs fs evs' fates left Hbt Hdt IH];
    intros t Hmedia; [|discriminate|].
  - simpl. lia.
  - cbn [add_batches concat] in *.
    apply Forall_app in Hmedia as [Hb Hrest].
    rewrite (IH Hleft _ Hrest).
    destruct (batch_trace_counts _ _ _ _ _ (mkResults 0 0 []) Hbt)
      as (_ & _ & _ & B4).
    rewrite (count_skipped_media _ Hb) in B4.
    unfold add_results. cbn [totalSuccess totalFailed allErrors] in *.
    cbn [success failed errors length] in B4.
    rewrite length_app, Nat2Z.inj_add. lia.
Qed.

(** ** The whole of [endSequence] *)

Section Closing.

Variable localeCompare : string -> string -> Z.
Variable outcome : nat -> Call -> option Error.

Lemma external_clock c : respects clock_le (external outcome c).
Proof.
  intros w. unfold clock_le, external.
  destruct (outcome (calls w) c); simpl; lia.
Qed.

Lemma sleep_clock site ms : respects clock_le (sleep site ms).
Proof. intros w. unfold clock_le. simpl. lia. Qed.

(** The guarded block of [endSequence], from the sort to the [finally]:
    the delivery, then the notice of an error or the summary, then the
    statistics. *)
Lemma guarded_block_run userId s n w :
  Forall has_media (files s) ->
  let batches :=
    make_batches (sort_by (compareItems localeCompare) (files s)) in
  exists evs fates left w2,
    delivery_trace (Z.of_nat (length batches)) 0 batches evs fates left /\
    Forall (answered_by outcome) evs /\
    trace w2 = trace w ++ evs /\
    usersCollection w2 = usersCollection w /\
    clock w <= clock w2 /\
    try_finally
      (try_catch (sequenceFiles localeCompare outcome userId s n)
         (fun error => reply outcome SequencingError))
      (set_sessions (delete userId)) w
    = after_finally userId
        match left with
        | Some e => reply outcome SequencingError w2
        | None =>
            let t := add_batches batches fates (mkTotals 0 0 []) in
            let summary := CtxReply (summaryMessage n t) in
            match outcome (calls w2) summary with
            | Some e =>
                reply outcome SequencingError
                  (after_call w2 summary (Some e))
            | None =>
                try_catch
                  (retryOperation
                     (updateStatistics outcome userId (totalSuccess t))
                     CONFIG.MAX_RETRIES CONFIG.RETRY_DELAY ;;
                   ret tt)
                  (fun error => ret tt)
                  (after_call w2 summary None)
            end
        end.
Proof.
  intros Hmedia. cbv zeta.
  set (batches := make_batches (sort_by (compareItems localeCompare) (files s))).
  unfold try_finally, try_catch at 1, sequenceFiles.
  unfold bind at 1, lift. rewrite (array_sort_media _ _ Hmedia).
  unfold bind at 1, set_sessions at 1, modify.
  cbv zeta. fold batches. unfold bind at 1.
  match goal with
  | |- context [deliver_from _ _ _ _ _ ?w1] =>
      destruct (deliver_from_spec outcome (Z.of_nat (length batches)) 0
                  batches (mkTotals 0 0 []) w1)
        as (evs & fates & left & w2 & Hdt & Hans & Hrun & Hw2);
      pose proof (frame_deliver_from outcome clock_le clock_le_refl
                    clock_le_trans external_clock sleep_clock
                    (Z.of_nat (length batches)) 0 batches (mkTotals 0 0 [])
                    w1) as Hclock
  end.
  rewrite Hrun in Hclock |- *. unfold clock_le in Hclock.
  destruct Hw2 as (Htr2 & _ & Hu2). simpl in Htr2, Hu2, Hclock.
  exists evs, fates, left, w2.
  do 5 (split; [assumption|]).
  destruct left as [e|].
  - by destruct (reply outcome SequencingError w2) as [[[]|e'] w3].
  - unfold bind at 1, reply at 1. rewrite external_run.
    set (t := add_batches batches fates (mkTotals 0 0 [])).
    set (summary := CtxReply (summaryMessage n t)).
    destruct (outcome (calls w2) summary) as [e|] eqn:Hout.
    + by destruct (reply outcome SequencingError _) as [[[]|e'] w3].
    + destruct (statistics_block_spec outcome userId (totalSuccess t)
                  (after_call w2 summary None))
        as (evs_s & w3 & Hrun3 & _).
      by rewrite Hrun3.
Qed.

Lemma guarded_block_spec userId s n w :
  Forall has_media (files s) ->
  let batches :=
    make_batches (sort_by (compareItems localeCompare) (files s)) in
  let r :=
    try_finally
      (try_catch (sequenceFiles localeCompare outcome userId s n)
         (fun error => reply outcome SequencingError))
      (set_sessions (delete userId)) w in
  exists evs fates left evs_after,
    delivery_trace (Z.of_nat (length batches)) 0 batches evs fates left /\
    Forall (answered_by outcome) evs /\
    trace (snd r) = trace w ++ evs ++ evs_after /\
    clock w <= clock (snd r) /\
    match left with
    | Some e =>
        exists rejected,
          evs_after = [Called (CtxReply SequencingError) rejected] /\
          fst r = match rejected with None => Ok tt | Some e' => Throw e' end /\
          usersCollection (snd r) = usersCollection w
    | None =>
        let t := add_batches batches fates (mkTotals 0 0 []) in
        let summary := CtxReply (summaryMessage n t) in
        (exists e rejected,
           evs_after = [Called summary (Some e);
                        Called (CtxReply SequencingError) rejected] /\
           fst r = match rejected with None => Ok tt | Some e' => Throw e' end /\
           usersCollection (snd r) = usersCollection w) \/
        (exists evs_s,
           evs_after = Called summary None :: evs_s /\
           fst r = Ok tt /\
           Forall (fun ev => is_statistics userId ev = true) evs_s /\
           attempts evs_s <= 6 /\
           ((usersCollection (snd r) = usersCollection w /\
             forall doc, Called (UpdateOne userId doc) None ∉ evs_s) \/
            (exists date evs0,
               clock w <= date <= clock (snd r) /\
               let doc := statistics_doc (usersCollection w !! userId)
                            (totalSuccess t) date in
               usersCollection (snd r)
               = alter (fun _ => doc) userId (usersCollection w) /\
               evs_s = evs0 ++ [Called (FindOne userId) None;
                                Called (UpdateOne userId doc) None] /\
               forall doc', Called (UpdateOne userId doc') None ∉ evs0)))
    end.
Proof.
  intros Hmedia. cbv zeta.
  destruct (guarded_block_run userId s n w Hmedia)
    as (evs & fates & left & w2 & Hdt & Hans & Htr2 & Hu2 & Hclock & ->).
  exists evs, fates, left.
  destruct left as [e|].
  - rewrite reply_run.
    exists [Called (CtxReply SequencingError)
              (outcome (calls w2) (CtxReply SequencingError))].
    split; [exact Hdt|]. split; [exact Hans|].
    split; [simpl; by rewrite Htr2, <- app_assoc|].
    split; [exact Hclock|].
    eexists. split; [reflexivity|].
    split; [|exact Hu2].
    simpl. by destruct (outcome (calls w2) (CtxReply SequencingError)).
  - cbv zeta.
    set (t := add_batches
                (make_batches (sort_by (compareItems localeCompare) (files s)))
                fates (mkTotals 0 0 [])).
    set (summary := CtxReply (summaryMessage n t)).
    destruct (outcome (calls w2) summary) as [e|] eqn:Hout.
    + rewrite reply_run. eexists.
      split; [exact Hdt|]. split; [exact Hans|].
      split; [simpl; rewrite Htr2, <- !app_assoc; reflexivity|].
      split; [exact Hclock|].
      left. exists e. eexists. split; [reflexivity|].
      split; [|exact Hu2].
      simpl. by destruct (outcome _ (CtxReply SequencingError)).
    + destruct (statistics_block_spec outcome userId (totalSuccess t)
                  (after_call w2 summary None))
        as (evs_s & w3 & Hrun3 & Htr3 & Hs3 & Hc3 & Hst3 & Hat3 & Hr3).
      rewrite Hrun3. simpl in Htr3, Hc3, Hr3. rewrite Hu2 in Hr3.
      exists (Called summary None :: evs_s).
      split; [exact Hdt|]. split; [exact Hans|].
      split; [simpl; rewrite Htr3, Htr2, <- !app_assoc; reflexivity|].
      split; [simpl; lia|].
      right. exists evs_s. split; [reflexivity|]. split; [reflexivity|].
      split; [exact Hst3|]. split; [exact Hat3|].
      simpl. destruct Hr3 as [Hr3|(date & evs0 & Hd & Hr3)]; [by left|].
      right. exists date, evs0. split; [lia|]. exact Hr3.
Qed.

End Closing.

(** ** What the events of a close can be *)

Lemma sends_statistics uid evs :
  Forall (fun ev => is_statistics uid ev = true) evs -> sends evs = [].
Proof.
  induction 1 as [|ev evs Hev H IH]; [done|].
  change (ev :: evs) with ([ev] ++ evs). rewrite sends_app, IH, app_nil_r.
  destruct ev as [[] [e|]|[] ms]; try done.
Qed.

Lemma is_send_delivery c rejected :
  is_send c = true -> is_delivery (Called c rejected) = true.
Proof. by destruct c. Qed.

Lemma retry_trace_delivery c maxRetries delay attempt evs r :
  is_send c = true ->
  retry_trace c maxRetries delay attempt evs r ->
  Forall (fun ev => is_delivery ev = true) evs.
Proof.
  intros Hc. induction 1 as [attempt H | e | attempt e evs r Hlt Htr IH].
  - constructor; [by apply is_send_delivery | constructor].
  - constructor; [by apply is_send_delivery | constructor].
  - constructor; [by apply is_send_delivery|]. by constructor.
Qed.

Lemma item_trace_delivery batchLength i x evs fate :
  item_trace batchLength i x evs fate ->
  Forall (fun ev => is_delivery ev = true) evs.
Proof.
  intros [Hnone | file c evs' Hm Hc Htr | file c evs' e Hm Hc Htr].
  - constructor.
  - apply Forall_app. split.
    + eapply retry_trace_delivery; [|exact Htr]. by eapply sendCall_send.
    + unfold pause_after_item. destruct (i <? batchLength - 1); by repeat constructor.
  - eapply retry_trace_delivery; [|exact Htr]. by eapply sendCall_send.
Qed.

Lemma batch_trace_delivery batchLength i rest evs fates :
  batch_trace batchLength i rest evs fates ->
  Forall (fun ev => is_delivery ev = true) evs.
Proof.
  induction 1 as [i | i x rest evs fate evs' fates Hit Hbt IH];
    [constructor|].
  apply Forall_app. split; [by eapply item_trace_delivery | exact IH].
Qed.

Lemma delivery_trace_delivery batchesLength i rest evs fates left :
  delivery_trace batchesLength i rest evs fates left ->
  Forall (fun ev => is_delivery ev = true) evs.
Proof.
  induction 1 as [i | i batch rest e Hgt
                 | i batch rest evs fs evs' fates left Hbt Hdt IH].
  - constructor.
  - unfold progress_notice. destruct (batchesLength >? 1); by repeat constructor.
  - apply Forall_app. split.
    { unfold progress_notice. destruct (batchesLength >? 1); by repeat constructor. }
    apply Forall_app. split; [by eapply batch_trace_delivery|].
    apply Forall_app. split; [|exact IH].
    unfold pause_after_batch.
    destruct (i <? batchesLength - 1); by repeat constructor.
Qed.

Lemma delivery_no_update evs u doc rejected :
  Forall (fun ev => is_delivery ev = true) evs ->
  Called (UpdateOne u doc) rejected ∉ evs.
Proof.
  intros H Hin. rewrite Forall_forall in H. by specialize (H _ Hin).
Qed.

Lemma statistics_no_summary uid evs text rejected :
  Forall (fun ev => is_statistics uid ev = true) evs ->
  Called (CtxReply text) rejected ∉ evs.
Proof.
  intros H Hin. rewrite Forall_forall in H. by specialize (H _ Hin).
Qed.

(** The loop is left by a rejected progress notice only, which takes more
    than one batch. *)
Lemma delivery_trace_left batchesLength i rest evs fates e :
  delivery_trace batchesLength i rest evs fates (Some e) ->
  batchesLength > 1 /\
  exists evs0 j,
    evs = evs0 ++ [Called (CtxReply (ProcessingBatch j batchesLength))
                     (Some e)].
Proof.
  intros H. remember (Some e) as left eqn:Hleft.
  induction H as [i | i batch rest e' Hgt
                 | i batch rest evs fs evs' fates left Hbt Hdt IH].
  - discriminate.
  - injection Hleft as ->. split; [exact Hgt|].
    exists [], (i + 1). unfold progress_notice.
    by destruct (Z.gtb_spec batchesLength 1); [|lia].
  - destruct (IH Hleft) as (Hgt & evs0 & j & ->). split; [exact Hgt|].
    exists (progress_notice batchesLength i None ++ evs
              ++ pause_after_batch batchesLength i ++ evs0), j.
    by rewrite <- !app_assoc.
Qed.

Lemma send_of_media x : has_media x -> is_Some (send_of x).
Proof.
  intros [f Hf]. unfold send_of. rewrite Hf. simpl.
  destruct (sendCall_media _ _ Hf) as (c & -> & _). by exists c.
Qed.

Lemma omap_send_of_length D :
  Forall has_media D -> length (omap send_of D) = length D.
Proof.
  induction 1 as [|x D Hx H IH]; [done|].
  destruct (send_of_media x Hx) as [c Hc].
  cbn [omap list_omap]. rewrite Hc. simpl. f_equal. exact IH.
Qed.

(** When no call is rejected, every item is delivered. *)
Lemma retry_trace_no_rejection c maxRetries delay attempt evs e :
  retry_trace c maxRetries delay attempt evs (Throw e) ->
  Called c (Some e) ∈ evs.
Proof.
  intros H. destruct (retry_trace_thrown _ _ _ _ _ _ H) as [evs0 ->].
  apply elem_of_app. right. by apply list_elem_of_singleton.
Qed.

Lemma batch_trace_all_delivered batchLength i rest evs fates :
  batch_trace batchLength i rest evs fates ->
  Forall has_media rest ->
  (forall c e, Called c (Some e) ∉ evs) ->
  delivered rest fates = rest.
Proof.
  induction 1 as [i | i x rest evs fate evs' fates Hit Hbt IH];
    intros Hmedia Hno; [done|].
  apply Forall_cons in Hmedia as [[f Hx] Hmedia].
  assert (Hrest : delivered rest fates = rest).
  { apply IH; [exact Hmedia|]. intros c e Hin.
    apply (Hno c e), elem_of_app. by right. }
  destruct Hit as [Hnone | file c evs1 Hm Hc Htr | file c evs1 e Hm Hc Htr].
  - congruence.
  - cbn [delivered]. by rewrite Hrest.
  - exfalso. apply (Hno c e), elem_of_app. left.
    by eapply retry_trace_no_rejection.
Qed.

Lemma delivery_trace_all_delivered batchesLength i rest evs fates left :
  delivery_trace batchesLength i rest evs fates left ->
  Forall has_media (concat rest) ->
  (forall c e, Called c (Some e) ∉ evs) ->
  left = None /\ delivered_all rest fates = concat rest.
Proof.
  induction 1 as [i | i batch rest e Hgt
                 | i batch rest evs fs evs' fates left Hbt Hdt IH];
    intros Hmedia Hno.
  - done.
  - exfalso.
    apply (Hno (CtxReply (ProcessingBatch (i + 1) batchesLength)) e).
    unfold progress_notice. destruct (Z.gtb_spec batchesLength 1); [|lia].
    by apply list_elem_of_singleton.
  - cbn [concat] in Hmedia. apply Forall_app in Hmedia as [Hb Hrest].
    destruct IH as [-> IH]; [exact Hrest| |].
    { intros c e Hin. apply (Hno c e).
      apply elem_of_app. right. apply elem_of_app. right.
      apply elem_of_app. by right. }
    split; [done|]. cbn [delivered_all concat]. rewrite IH. f_equal.
    eapply batch_trace_all_delivered; [exact Hbt | exact Hb |].
    intros c e Hin. apply (Hno c e).
    apply elem_of_app. right. apply elem_of_app. by left.
Qed.

(** ** Reports of a close *)

Lemma sends_cons_reply text rejected evs :
  sends (Called (CtxReply text) rejected :: evs) = sends evs.
Proof. by destruct rejected. Qed.

Lemma sublist_Forall' {A} (P : A -> Prop) (l k : list A) :
  sublist l k -> Forall P k -> Forall P l.
Proof.
  induction 1 as [|x l k H IH|x l k H IH]; intros Hk.
  - constructor.
  - apply Forall_cons in Hk as [Hx Hk]. constructor; [exact Hx | by apply IH].
  - apply Forall_cons in Hk as [_ Hk]. by apply IH.
Qed.

Lemma sorted_media lc l :
  Forall has_media l -> Forall has_media (sort_by (compareItems lc) l).
Proof.
  intros H. by rewrite <- (sort_by_perm (compareItems lc) l).
Qed.

Lemma delivered_all_media lc l fates :
  Forall has_media l ->
  Forall has_media
    (delivered_all (make_batches (sort_by (compareItems lc) l)) fates).
Proof.
  intros H. eapply sublist_Forall'; [apply delivered_all_sublist|].
  destruct (make_batches_spec (sort_by (compareItems lc) l)) as [-> _].
  by apply sorted_media.
Qed.

Section CloseReport.

Variable localeCompare : string -> string -> Z.
Variable outcome : nat -> Call -> option Error.

(** [endSequence] once its first notice is through. *)
Lemma endSequence_resolved msg w s :
  userFileSequences w !! from_id msg = Some s ->
  files s <> [] ->
  outcome (calls w)
    (CtxReply (StartingToSequence (Z.of_nat (length (files s))))) = None ->
  endSequence localeCompare outcome msg w
  = try_finally
      (try_catch
         (sequenceFiles localeCompare outcome (from_id msg) s
            (Z.of_nat (length (files s))))
         (fun error => reply outcome SequencingError))
      (set_sessions (delete (from_id msg)))
      (after_call w
         (CtxReply (StartingToSequence (Z.of_nat (length (files s))))) None).
Proof.
  intros Hs Hne Hout.
  rewrite (endSequence_found localeCompare outcome msg w s Hs Hne).
  unfold bind at 1. by rewrite reply_run, Hout.
Qed.

(** The count of the summary is the number of files that went out. *)
Lemma delivery_success_sends batchesLength i l evs fates left :
  Forall has_media l ->
  delivery_trace batchesLength i
    (make_batches (sort_by (compareItems localeCompare) l)) evs fates left ->
  totalSuccess
    (add_batches (make_batches (sort_by (compareItems localeCompare) l))
       fates (mkTotals 0 0 []))
  = Z.of_nat (length (sends evs)).
Proof.
  intros Hmedia Hdt.
  rewrite add_batches_success, (delivery_trace_sends _ _ _ _ _ _ Hdt).
  rewrite omap_send_of_length by by apply delivered_all_media.
  simpl. lia.
Qed.

Lemma statistics_core_of_close msg w :
  (forall s,
     userFileSequences w !! from_id msg = Some s ->
     Forall has_media (files s)) ->
  let uid := from_id msg in
  let w' := snd (endSequence localeCompare outcome msg w) in
  exists evs,
    trace w' = trace w ++ evs /\
    ((usersCollection w' = usersCollection w /\
      forall doc, Called (UpdateOne uid doc) None ∉ evs) \/
     (exists date evs0 total t,
        clock w <= date <= clock w' /\
        totalSuccess t = Z.of_nat (length (sends evs)) /\
        let doc := statistics_doc (usersCollection w !! uid)
                     (totalSuccess t) date in
        usersCollection w' = alter (fun _ => doc) uid (usersCollection w) /\
        evs = evs0 ++ [Called (FindOne uid) None;
                       Called (UpdateOne uid doc) None] /\
        (forall doc', Called (UpdateOne uid doc') None ∉ evs0) /\
        Called (CtxReply (summaryMessage total t)) None ∈ evs0)).
Proof.
  intros Hmedia. cbv zeta.
  assert (Hone : forall text rejected doc,
            Called (UpdateOne (from_id msg) doc) None
              ∉ [Called (CtxReply text) rejected]).
  { intros text rejected doc Hin.
    apply list_elem_of_singleton in Hin. discriminate. }
  destruct (userFileSequences w !! from_id msg) as [s|] eqn:Hs.
  2:{ rewrite (endSequence_none localeCompare outcome msg w Hs), reply_run.
      eexists. split; [reflexivity|]. left. split; [done|]. apply Hone. }
  specialize (Hmedia s eq_refl).
  destruct (decide (files s = [])) as [Hnil|Hne].
  { rewrite (endSequence_empty localeCompare outcome msg w s Hs Hnil).
    unfold bind. rewrite reply_run.
    destruct (outcome (calls w) (CtxReply NoFilesToSequence)) as [e|];
      (eexists; split; [reflexivity|]; left; split; [done|]; apply Hone). }
  set (n := Z.of_nat (length (files s))).
  destruct (outcome (calls w) (CtxReply (StartingToSequence n)))
    as [e|] eqn:Hout.
  { rewrite (endSequence_keeps localeCompare outcome msg w s e Hs)
      by (by rewrite close_notice_found).
    rewrite close_notice_found by done.
    eexists. split; [reflexivity|]. left. split; [done|]. apply Hone. }
  rewrite (endSequence_resolved msg w s Hs Hne Hout). fold n.
  set (w1 := after_call w (CtxReply (StartingToSequence n)) None).
  destruct (guarded_block_spec localeCompare outcome (from_id msg) s n w1
              Hmedia)
    as (evs & fates & left & evs_after & Hdt & Hans & Htr & Hclock & Hcase).
  cbv zeta in Hdt, Htr, Hclock, Hcase.
  pose proof (delivery_trace_delivery _ _ _ _ _ _ Hdt) as Hdel.
  exists (Called (CtxReply (StartingToSequence n)) None :: evs ++ evs_after).
  split.
  { rewrite Htr. unfold w1. simpl. by rewrite <- app_assoc. }
  assert (Hpre : forall doc,
            Called (UpdateOne (from_id msg) doc) None
              ∉ Called (CtxReply (StartingToSequence n)) None :: evs).
  { intros doc Hin. apply elem_of_cons in Hin as [Hin|Hin]; [discriminate|].
    by apply (delivery_no_update _ _ _ _ Hdel) in Hin. }
  assert (Hsplit : forall doc tail,
            Called (UpdateOne (from_id msg) doc) None ∉ tail ->
            Called (UpdateOne (from_id msg) doc) None
              ∉ Called (CtxReply (StartingToSequence n)) None
                  :: evs ++ tail).
  { intros doc tail Htail Hin.
    change (Called (CtxReply (StartingToSequence n)) None :: evs ++ tail)
      with ((Called (CtxReply (StartingToSequence n)) None :: evs) ++ tail)
      in Hin.
    apply elem_of_app in Hin as [Hin|Hin]; [by apply (Hpre doc)|done]. }
  destruct left as [e|].
  - destruct Hcase as (rejected & -> & _ & Hu).
    left. split; [exact Hu|]. intros doc. apply Hsplit, Hone.
  - destruct Hcase as [(e & rejected & -> & _ & Hu)
                      |(evs_s & -> & _ & Hst & _ & Hcase)].
    + left. split; [exact Hu|]. intros doc. apply Hsplit.
      intros Hin. apply elem_of_cons in Hin as [Hin|Hin]; [discriminate|].
      by apply Hone in Hin.
    + destruct Hcase as [(Hu & Hno)|(date & evs0 & Hd & Hu & -> & Hno)].
      * left. split; [exact Hu|]. intros doc. apply Hsplit.
        intros Hin. apply elem_of_cons in Hin as [Hin|Hin]; [discriminate|].
        by apply Hno in Hin.
      * right.
        set (t := add_batches
                    (make_batches
                       (sort_by (compareItems localeCompare) (files s)))
                    fates (mkTotals 0 0 [])) in *.
        exists date,
          (Called (CtxReply (StartingToSequence n)) None
             :: evs ++ Called (CtxReply (summaryMessage n t)) None :: evs0),
          n, t.
        split; [change (clock w1) with (clock w) in Hd; exact Hd|].
        split.
        { rewrite sends_cons_reply, sends_app, sends_cons_reply.
          rewrite (sends_statistics (from_id msg) _ Hst), app_nil_r.
          unfold t. by eapply delivery_success_sends. }
        cbv zeta. split; [exact Hu|].
        split; [simpl; by rewrite <- app_assoc|].
        split.
        { intros doc. apply Hsplit.
          intros Hin. apply elem_of_cons in Hin as [Hin|Hin]; [discriminate|].
          by apply Hno in Hin. }
        apply elem_of_cons. right. apply elem_of_app. right.
        apply elem_of_cons. by left.
Qed.

End CloseReport.

(** X11: the statistics of a close. [endSequence] writes the statistics
    at most once, after the summary went through, and only in the document
    of the user who closes: the total goes up by the number of files that
    went out in this close, which is the count of the summary. The
    documents of the other users stay as they are, and a user without
    document gets none: the update does not insert. When the database or
    the summary fails, nothing is written. *)
Theorem endSequence_statistics (localeCompare : string -> string -> Z)
    (outcome : nat -> Call -> option Error) (msg : Message) (w : World) :
  (forall s,
     userFileSequences w !! from_id msg = Some s ->
     Forall has_media (files s)) ->
  let uid := from_id msg in
  let w' := snd (endSequence localeCompare outcome msg w) in
  exists evs,
    trace w' = trace w ++ evs /\
    (forall other,
       other <> uid ->
       usersCollection w' !! other = usersCollection w !! other) /\
    (usersCollection w !! uid = None -> usersCollection w' !! uid = None) /\
    ((usersCollection w' = usersCollection w /\
      forall doc, Called (UpdateOne uid doc) None ∉ evs) \/
     (exists date evs0 total t,
        clock w <= date <= clock w' /\
        totalSuccess t = Z.of_nat (length (sends evs)) /\
        let doc := statistics_doc (usersCollection w !! uid)
                     (totalSuccess t) date in
        usersCollection w' = alter (fun _ => doc) uid (usersCollection w) /\
        evs = evs0 ++ [Called (FindOne uid) None;
                       Called (UpdateOne uid doc) None] /\
        (forall doc', Called (UpdateOne uid doc') None ∉ evs0) /\
        Called (CtxReply (summaryMessage total t)) None ∈ evs0)).
Proof.
  intros Hmedia. cbv zeta.
  destruct (statistics_core_of_close localeCompare outcome msg w Hmedia)
    as (evs & Htr & Hcase).
  cbv zeta in Hcase.
  exists evs. split; [exact Htr|].
  split; [|split; [|exact Hcase]].
  - intros other Hother.
    destruct Hcase as [(-> & _)|(date & evs0 & total & t & _ & _ & -> & _)];
      [done|].
    by apply lookup_alter_ne.
  - intros Hnone.
    destruct Hcase as [(-> & _)|(date & evs0 & total & t & _ & _ & -> & _)];
      [done|].
    by apply lookup_alter_None.
Qed.

Lemma endSequence_statistics_witness :
  let localeCompare := codeUnitCompare in
  let outcome := always_resolves in
  let msg := command_message 7 in
  let w := world_with_statistics 7
             (Build_Session [show_480p_E02; show_720p_E01] 0 0)
             (Build_UserDoc (Some 10) None None) 5000 in
  (forall s,
     userFileSequences w !! from_id msg = Some s ->
     Forall has_media (files s)) /\
  let uid := from_id msg in
  let w' := snd (endSequence localeCompare outcome msg w) in
  exists evs,
    trace w' = trace w ++ evs /\
    (forall other,
       other <> uid ->
       usersCollection w' !! other = usersCollection w !! other) /\
    (usersCollection w !! uid = None -> usersCollection w' !! uid = None) /\
    ((usersCollection w' = usersCollection w /\
      forall doc, Called (UpdateOne uid doc) None ∉ evs) \/
     (exists date evs0 total t,
        clock w <= date <= clock w' /\
        totalSuccess t = Z.of_nat (length (sends evs)) /\
        let doc := statistics_doc (usersCollection w !! uid)
                     (totalSuccess t) date in
        usersCollection w' = alter (fun _ => doc) uid (usersCollection w) /\
        evs = evs0 ++ [Called (FindOne uid) None;
                       Called (UpdateOne uid doc) None] /\
        (forall doc', Called (UpdateOne uid doc') None ∉ evs0) /\
        Called (CtxReply (summaryMessage total t)) None ∈ evs0)).
Proof.
  intros localeCompare outcome msg w.
  assert (H : forall s,
            userFileSequences w !! from_id msg = Some s ->
            Forall has_media (files s)).
  { intros s Hs. unfold w, world_with_statistics in Hs. simpl in Hs.
    rewrite lookup_singleton_eq in Hs. injection Hs as <-.
    repeat constructor; by eexists. }
  split; [exact H|].
  exact (endSequence_statistics localeCompare outcome msg w H).
Defined.

(** Two files sent and a total of 10 before: the total is 12. *)
Example statistics_after_two_files :
  usersCollection
    (snd (endSequence codeUnitCompare always_resolves (command_message 7)
            (world_with_statistics 7
               (Build_Session [show_480p_E02; show_720p_E01] 0 0)
               (Build_UserDoc (Some 10) None None) 5000))) !! 7
  = Some (Build_UserDoc (Some 12) (Some 5100) (Some 2)).
Proof. vm_compute. reflexivity. Qed.

Lemma same_users_refl w : same_users w w.
Proof. reflexivity. Qed.

Lemma same_users_trans w1 w2 w3 :
  same_users w1 w2 -> same_users w2 w3 -> same_users w1 w3.
Proof. unfold same_users. congruence. Qed.

Lemma external_users outcome c : respects same_users (external outcome c).
Proof. intros w. unfold external. by destruct (outcome (calls w) c). Qed.

Lemma set_sessions_users f : respects same_users (set_sessions f).
Proof. by intros w. Qed.

(** X12: of the updates, the command [/esequence] alone writes
    statistics: the commands [/ssequence], [/status] and [/cancel], a file
    coming in, the sweep of the timer and the passing of time leave the
    statistics of every document as they are, whatever the outside world
    answers. (The command [/start] writes the profile fields of the
    document, which are no part of [UserDoc].) *)
Theorem statistics_written_by_close_only
    (localeCompare : string -> string -> Z)
    (outcome : nat -> Call -> option Error) (w : World) (u : Update) :
  is_close u = false ->
  usersCollection (step localeCompare outcome w u) = usersCollection w.
Proof.
  intros Hu. unfold step.
  destruct u as [msg|msg|msg|msg|t msg| |ms]; cbn [handle];
    try discriminate.
  - unfold ssequence, bind, gets, now, gets, set_sessions, modify.
    destruct (userFileSequences w !! from_id msg);
      rewrite reply_run; reflexivity.
  - rewrite status_run.
    destruct (userFileSequences w !! from_id msg);
      rewrite reply_run; reflexivity.
  - rewrite cancel_run.
    destruct (userFileSequences w !! from_id msg);
      rewrite reply_run; reflexivity.
  - apply (frame_processFileSequence outcome same_users same_users_refl
             same_users_trans (external_users outcome) set_sessions_users).
  - by rewrite cleanup_run.
  - reflexivity.
Qed.

Lemma statistics_written_by_close_only_witness :
  let w := world_with_statistics 7
             (Build_Session [show_480p_E02] 0 0)
             (Build_UserDoc (Some 10) None None) 5000 in
  let u := Command_cancel (command_message 7) in
  is_close u = false /\
  usersCollection (step codeUnitCompare always_resolves w u)
  = usersCollection w.
Proof.
  intros w u.
  assert (H : is_close u = false) by reflexivity.
  split; [exact H|].
  exact (statistics_written_by_close_only codeUnitCompare always_resolves
           w u H).
Defined.

Section Deliveries.

Variable localeCompare : string -> string -> Z.
Variable outcome : nat -> Call -> option Error.

(** X13: the files that go out in a close are files of the session, in
    the sorted order, each at most once: the sends that resolved are the
    sends of a sublist of the sorted files. Nothing goes out when the
    session is empty or when the first notice is rejected. *)
Theorem deliveries_in_order (msg : Message) (w : World) (s : Session) :
  userFileSequences w !! from_id msg = Some s ->
  Forall has_media (files s) ->
  let w' := snd (endSequence localeCompare outcome msg w) in
  exists evs D,
    trace w' = trace w ++ evs /\
    sends evs = omap send_of D /\
    length (sends evs) = length D /\
    sublist D (sort_by (compareItems localeCompare) (files s)) /\
    Permutation (sort_by (compareItems localeCompare) (files s)) (files s) /\
    (files s = [] -> D = []) /\
    (outcome (calls w) (CtxReply (close_notice s)) <> None -> D = []).
Proof.
  intros Hs Hmedia. cbv zeta.
  assert (Hperm : Permutation (sort_by (compareItems localeCompare) (files s))
                    (files s))
    by (symmetry; apply sort_by_perm).
  destruct (decide (files s = [])) as [Hnil|Hne].
  { rewrite (endSequence_empty localeCompare outcome msg w s Hs Hnil).
    unfold bind. rewrite reply_run.
    destruct (outcome (calls w) (CtxReply NoFilesToSequence)) as [e|];
      (eexists; exists []; split; [reflexivity|]; rewrite Hnil;
       repeat split; try done; constructor). }
  rewrite close_notice_found by done.
  set (n := Z.of_nat (length (files s))).
  destruct (outcome (calls w) (CtxReply (StartingToSequence n)))
    as [e|] eqn:Hout.
  { rewrite (endSequence_keeps localeCompare outcome msg w s e Hs)
      by (by rewrite close_notice_found).
    eexists. exists []. split; [reflexivity|].
    rewrite close_notice_found by done.
    repeat split; try done. apply sublist_nil_l. }
  rewrite (endSequence_resolved localeCompare outcome msg w s Hs Hne Hout).
  fold n.
  set (w1 := after_call w (CtxReply (StartingToSequence n)) None).
  destruct (guarded_block_spec localeCompare outcome (from_id msg) s n w1
              Hmedia)
    as (evs & fates & left & evs_after & Hdt & Hans & Htr & Hclock & Hcase).
  cbv zeta in Hdt, Htr, Hclock, Hcase.
  exists (Called (CtxReply (StartingToSequence n)) None :: evs ++ evs_after),
    (delivered_all
       (make_batches (sort_by (compareItems localeCompare) (files s))) fates).
  split.
  { rewrite Htr. unfold w1. simpl. by rewrite <- app_assoc. }
  assert (Hafter : sends evs_after = []).
  { destruct left as [e|].
    - destruct Hcase as (rejected & -> & _). by rewrite sends_cons_reply.
    - destruct Hcase as [(e & rejected & -> & _)|(evs_s & -> & _ & Hst & _)].
      + by rewrite !sends_cons_reply.
      + by rewrite sends_cons_reply, (sends_statistics _ _ Hst). }
  assert (Hsends : sends (Called (CtxReply (StartingToSequence n)) None
                            :: evs ++ evs_after)
                   = omap send_of
                       (delivered_all
                          (make_batches
                             (sort_by (compareItems localeCompare) (files s)))
                          fates)).
  { rewrite sends_cons_reply, sends_app, Hafter, app_nil_r.
    by eapply delivery_trace_sends. }
  split; [exact Hsends|]. split.
  { rewrite Hsends. apply omap_send_of_length.
    by apply delivered_all_media. }
  split.
  { pose proof (delivered_all_sublist
                  (make_batches (sort_by (compareItems localeCompare) (files s)))
                  fates) as Hsub.
    by rewrite (proj1 (make_batches_spec
                         (sort_by (compareItems localeCompare) (files s))))
      in Hsub. }
  split; [exact Hperm|]. split; [done|]. intros Hno. by destruct Hno.
Qed.

(** X14: the summary of a close. Once the first notice is through, either
    the loop is left by a rejected progress notice, which takes more than
    50 files, and the user is told of an error; or the summary goes out:
    it counts the files that went out, the failed ones make up the rest,
    the failures are announced only when there are some, five error lines
    are shown at most and the others are counted. *)
Theorem summary_accounts (msg : Message) (w : World) (s : Session) :
  userFileSequences w !! from_id msg = Some s ->
  files s <> [] ->
  Forall has_media (files s) ->
  let n := Z.of_nat (length (files s)) in
  outcome (calls w) (CtxReply (StartingToSequence n)) = None ->
  let w' := snd (endSequence localeCompare outcome msg w) in
  exists evs evs_after,
    trace w' = trace w ++ Called (CtxReply (StartingToSequence n)) None
                 :: evs ++ evs_after /\
    Forall (fun ev => is_delivery ev = true) evs /\
    ((50 < n /\
      exists evs0 j e rejected,
        evs = evs0 ++ [Called (CtxReply (ProcessingBatch j ((n + 49) / 50)))
                         (Some e)] /\
        evs_after = [Called (CtxReply SequencingError) rejected]) \/
     (exists failed shown rejected more,
        Z.of_nat (length (sends evs)) + failed = n /\
        0 <= failed /\
        Z.of_nat (length shown) = Z.min 5 failed /\
        evs_after
        = Called
            (CtxReply
               (SequencingCompleted n (Z.of_nat (length (sends evs)))
                  (if failed >? 0 then Some failed else None)
                  shown
                  (if failed >? 5 then Some (failed - 5) else None)))
            rejected :: more)).
Proof.
  intros Hs Hne Hmedia n Hout. cbv zeta.
  rewrite (endSequence_resolved localeCompare outcome msg w s Hs Hne Hout).
  fold n.
  set (w1 := after_call w (CtxReply (StartingToSequence n)) None).
  destruct (guarded_block_spec localeCompare outcome (from_id msg) s n w1
              Hmedia)
    as (evs & fates & left & evs_after & Hdt & Hans & Htr & Hclock & Hcase).
  cbv zeta in Hdt, Htr, Hclock, Hcase.
  set (sorted := sort_by (compareItems localeCompare) (files s)) in *.
  assert (Hlen : Z.of_nat (length sorted) = n)
    by (unfold sorted, n; by rewrite sort_by_length).
  exists evs, evs_after.
  split.
  { rewrite Htr. unfold w1. simpl. by rewrite <- app_assoc. }
  split; [by eapply delivery_trace_delivery|].
  destruct left as [e|].
  - left. destruct Hcase as (rejected & -> & _).
    destruct (delivery_trace_left _ _ _ _ _ _ Hdt) as (Hgt & evs0 & j & ->).
    split.
    { destruct (Z.lt_ge_cases 50 n) as [|Hsmall]; [done|].
      pose proof (make_batches_single sorted ltac:(lia)). lia. }
    exists evs0, j, e, rejected. split; [|done].
    by rewrite make_batches_length, Hlen.
  - right.
    set (t := add_batches (make_batches sorted) fates (mkTotals 0 0 [])) in *.
    assert (Hconcat : concat (make_batches sorted) = sorted)
      by apply make_batches_spec.
    destruct (delivery_trace_counts _ _ _ _ _ (mkTotals 0 0 []) Hdt)
      as (Hsum & Hok & Hfailed).
    fold t in Hsum, Hok, Hfailed. rewrite Hconcat, Hlen in Hsum.
    cbn [totalSuccess totalFailed] in Hsum, Hok, Hfailed.
    assert (Herr : Z.of_nat (length (allErrors t)) = totalFailed t).
    { unfold t.
      rewrite (delivery_trace_errors _ _ _ _ _ (mkTotals 0 0 []) Hdt).
      - simpl. lia.
      - rewrite Hconcat. by apply sorted_media. }
    assert (Hsent : totalSuccess t = Z.of_nat (length (sends evs)))
      by (unfold t, sorted; by eapply delivery_success_sends).
    assert (Hsummary :
              summaryMessage n t
              = SequencingCompleted n (Z.of_nat (length (sends evs)))
                  (if totalFailed t >? 0 then Some (totalFailed t) else None)
                  (take 5 (allErrors t))
                  (if totalFailed t >? 5 then Some (totalFailed t - 5)
                   else None)).
    { unfold summaryMessage. cbv zeta. rewrite Herr, Hsent.
      destruct (Z.gtb_spec (totalFailed t) 0) as [Hpos|Hzero].
      - rewrite andb_diag. cbn [andb]. reflexivity.
      - cbn [andb].
        assert (allErrors t = []) as ->
          by (apply length_zero_iff_nil; lia).
        by destruct (Z.gtb_spec (totalFailed t) 5); [lia|]. }
    exists (totalFailed t), (take 5 (allErrors t)).
    assert (Hshown : Z.of_nat (length (take 5 (allErrors t)))
                     = Z.min 5 (totalFailed t))
      by (rewrite length_take; lia).
    destruct Hcase as [(e & rejected & -> & _)|(evs_s & -> & _)].
    + exists (Some e). eexists.
      split; [lia|]. split; [lia|]. split; [exact Hshown|].
      by rewrite Hsummary.
    + exists None, evs_s.
      split; [lia|]. split; [lia|]. split; [exact Hshown|].
      by rewrite Hsummary.
Qed.

End Deliveries.

Section AllResolves.

Variable localeCompare : string -> string -> Z.
Variable outcome : nat -> Call -> option Error.
Hypothesis outcome_resolves : forall k c, outcome k c = None.

Lemma statistics_block_resolved userId k w :
  let doc := statistics_doc (usersCollection w !! userId) k (clock w) in
  try_catch
    (retryOperation (updateStatistics outcome userId k)
       CONFIG.MAX_RETRIES CONFIG.RETRY_DELAY ;;
     ret tt)
    (fun error => ret tt) w
  = (Ok tt,
     mkWorld (userFileSequences w)
       (alter (fun _ => doc) userId (usersCollection w))
       (clock w) (S (S (calls w)))
       ((trace w ++ [Called (FindOne userId) None])
          ++ [Called (UpdateOne userId doc) None])).
Proof.
  cbv zeta. unfold retryOperation.
  change (Z.to_nat CONFIG.MAX_RETRIES) with 3%nat. cbn [retry_from].
  change (1 <=? CONFIG.MAX_RETRIES) with true. cbv iota.
  unfold try_catch, bind.
  rewrite updateStatistics_run, !outcome_resolves. reflexivity.
Qed.

Lemma answered_no_rejection evs :
  Forall (answered_by outcome) evs ->
  forall c e, Called c (Some e) ∉ evs.
Proof.
  intros H c e Hin. rewrite Forall_forall in H.
  destruct (H _ Hin) as [k Hk]. by rewrite outcome_resolves in Hk.
Qed.

Lemma retry_trace_first_try c maxRetries delay attempt evs r :
  retry_trace c maxRetries delay attempt evs r ->
  (forall c' e, Called c' (Some e) ∉ evs) ->
  evs = [Called c None].
Proof.
  intros [attempt' H | e | attempt' e evs' r' Hlt Htr] Hno.
  - done.
  - exfalso. apply (Hno c e). by apply list_elem_of_singleton.
  - exfalso. apply (Hno c e). apply elem_of_cons. by left.
Qed.

Lemma attempts_pause_after_item batchLength i :
  attempts (pause_after_item batchLength i) = 0.
Proof. unfold pause_after_item. by destruct (i <? batchLength - 1). Qed.

Lemma attempts_pause_after_batch batchesLength i :
  attempts (pause_after_batch batchesLength i) = 0.
Proof. unfold pause_after_batch. by destruct (i <? batchesLength - 1). Qed.

Lemma batch_trace_first_try batchLength i rest evs fates :
  batch_trace batchLength i rest evs fates ->
  Forall has_media rest ->
  (forall c e, Called c (Some e) ∉ evs) ->
  attempts evs = Z.of_nat (length rest).
Proof.
  induction 1 as [i | i x rest evs fate evs' fates Hit Hbt IH];
    intros Hmedia Hno; [done|].
  apply Forall_cons in Hmedia as [[f Hx] Hmedia].
  rewrite attempts_app, IH; [|exact Hmedia|].
  2:{ intros c e Hin. apply (Hno c e), elem_of_app. by right. }
  assert (Hno' : forall c e, Called c (Some e) ∉ evs).
  { intros c e Hin. apply (Hno c e), elem_of_app. by left. }
  cbn [length]. rewrite Nat2Z.inj_succ.
  destruct Hit as [Hnone | file c evs1 Hm Hc Htr | file c evs1 e Hm Hc Htr].
  - congruence.
  - rewrite attempts_app, attempts_pause_after_item.
    rewrite (retry_trace_first_try _ _ _ _ _ _ Htr).
    + unfold attempts. simpl. lia.
    + intros c' e Hin. apply (Hno' c' e), elem_of_app. by left.
  - exfalso. apply (Hno' c e). by eapply retry_trace_no_rejection.
Qed.

Lemma delivery_trace_first_try batchesLength i rest evs fates left :
  delivery_trace batchesLength i rest evs fates left ->
  Forall has_media (concat rest) ->
  (forall c e, Called c (Some e) ∉ evs) ->
  attempts evs
  = Z.of_nat (length (concat rest))
    + (if batchesLength >? 1 then Z.of_nat (length rest) else 0).
Proof.
  induction 1 as [i | i batch rest e Hgt
                 | i batch rest evs fs evs' fates left Hbt Hdt IH];
    intros Hmedia Hno.
  - simpl. by destruct (batchesLength >? 1).
  - exfalso.
    apply (Hno (CtxReply (ProcessingBatch (i + 1) batchesLength)) e).
    unfold progress_notice. destruct (Z.gtb_spec batchesLength 1); [|lia].
    by apply list_elem_of_singleton.
  - cbn [concat] in Hmedia. apply Forall_app in Hmedia as [Hb Hrest].
    rewrite !attempts_app, attempts_pause_after_batch, IH; [|exact Hrest|].
    2:{ intros c e Hin. apply (Hno c e).
        apply elem_of_app. right. apply elem_of_app. right.
        apply elem_of_app. by right. }
    rewrite (batch_trace_first_try _ _ _ _ _ Hbt Hb).
    2:{ intros c e Hin. apply (Hno c e).
        apply elem_of_app. right. apply elem_of_app. by left. }
    cbn [concat length]. rewrite length_app, Nat2Z.inj_add, Nat2Z.inj_succ.
    unfold progress_notice.
    destruct (batchesLength >? 1); unfold attempts; simpl; lia.
Qed.

(** What a conversation needs of a close: the files that go out and the
    session that goes away. *)
Lemma close_sends_all_resolve msg w s :
  userFileSequences w !! from_id msg = Some s ->
  files s <> [] ->
  Forall has_media (files s) ->
  let r := endSequence localeCompare outcome msg w in
  userFileSequences (snd r) = delete (from_id msg) (userFileSequences w) /\
  exists evs,
    trace (snd r) = trace w ++ evs /\
    sends evs
    = omap send_of (sort_by (compareItems localeCompare) (files s)).
Proof.
  intros Hs Hne Hmedia. cbv zeta.
  set (n := Z.of_nat (length (files s))).
  assert (Hout : outcome (calls w) (CtxReply (StartingToSequence n)) = None)
    by apply outcome_resolves.
  split.
  { apply (endSequence_removes localeCompare outcome msg w s Hs).
    apply outcome_resolves. }
  rewrite (endSequence_resolved localeCompare outcome msg w s Hs Hne Hout).
  fold n.
  set (w1 := after_call w (CtxReply (StartingToSequence n)) None).
  destruct (guarded_block_spec localeCompare outcome (from_id msg) s n w1
              Hmedia)
    as (evs & fates & left & evs_after & Hdt & Hans & Htr & _ & Hcase).
  cbv zeta in Hdt, Htr, Hcase.
  set (sorted := sort_by (compareItems localeCompare) (files s)) in *.
  assert (Hconcat : concat (make_batches sorted) = sorted)
    by apply make_batches_spec.
  destruct (delivery_trace_all_delivered _ _ _ _ _ _ Hdt
              ltac:(rewrite Hconcat; by apply sorted_media)
              (answered_no_rejection evs Hans)) as [-> Hall].
  exists (Called (CtxReply (StartingToSequence n)) None :: evs ++ evs_after).
  split.
  { rewrite Htr. unfold w1. simpl. by rewrite <- app_assoc. }
  rewrite sends_cons_reply, sends_app.
  rewrite (delivery_trace_sends _ _ _ _ _ _ Hdt), Hall, Hconcat.
  destruct Hcase as [(e & rejected & -> & _)|(evs_s & -> & _ & Hst & _)].
  - by rewrite !sends_cons_reply, app_nil_r.
  - by rewrite sends_cons_reply, (sends_statistics _ _ Hst), app_nil_r.
Qed.

(** X15: a close in which every call resolves. Every file of the session
    goes out, in the sorted order and at the first attempt; the summary
    counts them all and shows no failure; the statistics of the user, when
    there is a document, go up by the number of files; the session is
    removed and [endSequence] returns. *)
Theorem close_when_all_resolves (msg : Message) (w : World) (s : Session) :
  userFileSequences w !! from_id msg = Some s ->
  files s <> [] ->
  Forall has_media (files s) ->
  let uid := from_id msg in
  let n := Z.of_nat (length (files s)) in
  let r := endSequence localeCompare outcome msg w in
  fst r = Ok tt /\
  userFileSequences (snd r) = delete uid (userFileSequences w) /\
  exists evs date,
    let doc := statistics_doc (usersCollection w !! uid) n date in
    trace (snd r)
    = trace w
      ++ Called (CtxReply (StartingToSequence n)) None
      :: evs
      ++ [Called (CtxReply (SequencingCompleted n n None [] None)) None;
          Called (FindOne uid) None;
          Called (UpdateOne uid doc) None] /\
    sends evs
    = omap send_of (sort_by (compareItems localeCompare) (files s)) /\
    attempts evs = n + (if n >? 50 then (n + 49) / 50 else 0) /\
    clock w <= date <= clock (snd r) /\
    usersCollection (snd r) = alter (fun _ => doc) uid (usersCollection w).
Proof.
  intros Hs Hne Hmedia. cbv zeta.
  set (n := Z.of_nat (length (files s))).
  assert (Hout : outcome (calls w) (CtxReply (StartingToSequence n)) = None)
    by apply outcome_resolves.
  rewrite (endSequence_resolved localeCompare outcome msg w s Hs Hne Hout).
  fold n.
  set (w1 := after_call w (CtxReply (StartingToSequence n)) None).
  set (sorted := sort_by (compareItems localeCompare) (files s)).
  assert (Hsessions :
            userFileSequences
              (snd (try_finally
                      (try_catch
                         (sequenceFiles localeCompare outcome (from_id msg) s n)
                         (fun error => reply outcome SequencingError))
                      (set_sessions (delete (from_id msg))) w1))
            = delete (from_id msg) (userFileSequences w))
    by exact (guarded_block_sessions localeCompare outcome (from_id msg)
                s n w1).
  destruct (guarded_block_run localeCompare outcome (from_id msg) s n w1
              Hmedia)
    as (evs & fates & left & w2 & Hdt & Hans & Htr2 & Hu2 & Hclock & Heq).
  cbv zeta in Hdt, Heq. fold sorted in Hdt, Heq.
  rewrite Heq in Hsessions |- *. clear Heq.
  pose proof (answered_no_rejection evs Hans) as Hno.
  assert (Hconcat : concat (make_batches sorted) = sorted)
    by apply make_batches_spec.
  assert (Hlen : Z.of_nat (length sorted) = n)
    by (unfold sorted, n; by rewrite sort_by_length).
  assert (Hsorted : Forall has_media sorted) by by apply sorted_media.
  destruct (delivery_trace_all_delivered _ _ _ _ _ _ Hdt
              ltac:(by rewrite Hconcat) Hno) as [-> Hall].
  set (t := add_batches (make_batches sorted) fates (mkTotals 0 0 [])) in *.
  assert (Hsucc : totalSuccess t = n).
  { unfold t. rewrite add_batches_success, Hall, Hconcat. simpl. lia. }
  destruct (delivery_trace_counts _ _ _ _ _ (mkTotals 0 0 []) Hdt)
    as (Hsum & _ & _).
  fold t in Hsum. rewrite Hconcat, Hlen in Hsum.
  cbn [totalSuccess totalFailed] in Hsum.
  assert (Hfailed : totalFailed t = 0) by lia.
  assert (Herr : allErrors t = []).
  { apply length_zero_iff_nil.
    pose proof (delivery_trace_errors _ _ _ _ _ (mkTotals 0 0 []) Hdt
                  ltac:(by rewrite Hconcat)) as H.
    fold t in H. simpl in H. lia. }
  assert (Hsummary : summaryMessage n t = SequencingCompleted n n None [] None).
  { unfold summaryMessage. by rewrite Hsucc, Hfailed, Herr. }
  cbv zeta in Hsessions |- *.
  rewrite outcome_resolves, statistics_block_resolved in Hsessions |- *.
  rewrite Hsucc, Hsummary in Hsessions |- *.
  split; [reflexivity|]. split; [exact Hsessions|].
  exists evs, (clock w2).
  unfold after_finally. cbn [fst snd trace clock usersCollection after_call].
  rewrite Hu2. change (usersCollection w1) with (usersCollection w).
  change (clock w1) with (clock w) in Hclock.
  split.
  { rewrite Htr2. unfold w1. simpl. rewrite <- !app_assoc. reflexivity. }
  split.
  { rewrite (delivery_trace_sends _ _ _ _ _ _ Hdt), Hall. by rewrite Hconcat. }
  split.
  { rewrite (delivery_trace_first_try _ _ _ _ _ _ Hdt
               ltac:(by rewrite Hconcat) Hno).
    rewrite Hconcat, Hlen, make_batches_length, Hlen. f_equal.
    destruct (Z.gtb_spec n 50) as [Hbig|Hsmall].
    - assert (2 <= (n + 49) / 50) by (apply Z.div_le_lower_bound; lia).
      by destruct (Z.gtb_spec ((n + 49) / 50) 1); [|lia].
    - assert ((n + 49) / 50 < 2) by (apply Z.div_lt_upper_bound; lia).
      by destruct (Z.gtb_spec ((n + 49) / 50) 1); [lia|]. }
  split; [lia|]. reflexivity.
Qed.

End AllResolves.

Lemma deliveries_in_order_witness :
  let localeCompare := codeUnitCompare in
  let outcome := rejects_document "file-2" "ETIMEDOUT" in
  let msg := command_message 7 in
  let s := Build_Session [show_480p_E02; show_720p_E01; show_480p_E01] 0 0 in
  let w := world_with 7 s 5000 in
  userFileSequences w !! from_id msg = Some s /\
  Forall has_media (files s) /\
  let w' := snd (endSequence localeCompare outcome msg w) in
  exists evs D,
    trace w' = trace w ++ evs /\
    sends evs = omap send_of D /\
    length (sends evs) = length D /\
    sublist D (sort_by (compareItems localeCompare) (files s)) /\
    Permutation (sort_by (compareItems localeCompare) (files s)) (files s) /\
    (files s = [] -> D = []) /\
    (outcome (calls w) (CtxReply (close_notice s)) <> None -> D = []).
Proof.
  intros localeCompare outcome msg s w.
  assert (H1 : userFileSequences w !! from_id msg = Some s) by reflexivity.
  assert (H2 : Forall has_media (files s))
    by (repeat constructor; eexists; reflexivity).
  split; [exact H1|]. split; [exact H2|].
  exact (deliveries_in_order localeCompare outcome msg w s H1 H2).
Defined.

(** The run of the witness: the second file of the order fails three
    times, the other two go out. *)
Example delivery_with_a_failure :
  sends
    (trace (snd (endSequence codeUnitCompare
                   (rejects_document "file-1" "ETIMEDOUT")
                   (command_message 7)
                   (world_with 7
                      (Build_Session
                         [show_480p_E02; show_720p_E01; show_480p_E01] 0 0)
                      5000))))
  = [ReplyWithDocument "file-3" ""; ReplyWithDocument "file-2" ""].
Proof. vm_compute. reflexivity. Qed.

Lemma summary_accounts_witness :
  let localeCompare := codeUnitCompare in
  let outcome := rejects_document "file-2" "ETIMEDOUT" in
  let msg := command_message 7 in
  let s := Build_Session [show_480p_E02; show_720p_E01; show_480p_E01] 0 0 in
  let w := world_with 7 s 5000 in
  userFileSequences w !! from_id msg = Some s /\
  files s <> [] /\
  Forall has_media (files s) /\
  let n := Z.of_nat (length (files s)) in
  outcome (calls w) (CtxReply (StartingToSequence n)) = None /\
  let w' := snd (endSequence localeCompare outcome msg w) in
  exists evs evs_after,
    trace w' = trace w ++ Called (CtxReply (StartingToSequence n)) None
                 :: evs ++ evs_after /\
    Forall (fun ev => is_delivery ev = true) evs /\
    ((50 < n /\
      exists evs0 j e rejected,
        evs = evs0 ++ [Called (CtxReply (ProcessingBatch j ((n + 49) / 50)))
                         (Some e)] /\
        evs_after = [Called (CtxReply SequencingError) rejected]) \/
     (exists failed shown rejected more,
        Z.of_nat (length (sends evs)) + failed = n /\
        0 <= failed /\
        Z.of_nat (length shown) = Z.min 5 failed /\
        evs_after
        = Called
            (CtxReply
               (SequencingCompleted n (Z.of_nat (length (sends evs)))
                  (if failed >? 0 then Some failed else None)
                  shown
                  (if failed >? 5 then Some (failed - 5) else None)))
            rejected :: more)).
Proof.
  intros localeCompare outcome msg s w.
  assert (H1 : userFileSequences w !! from_id msg = Some s) by reflexivity.
  assert (H2 : files s <> []) by discriminate.
  assert (H3 : Forall has_media (files s))
    by (repeat constructor; eexists; reflexivity).
  assert (H4 : outcome (calls w)
                 (CtxReply (StartingToSequence (Z.of_nat (length (files s)))))
               = None) by reflexivity.
  split; [exact H1|]. split; [exact H2|]. split; [exact H3|].
  split; [exact H4|].
  exact (summary_accounts localeCompare outcome msg w s H1 H2 H3 H4).
Defined.

(** The summary of the witness. *)
Example summary_with_a_failure :
  In (Called
        (CtxReply
           (SequencingCompleted 3 2 (Some 1)
              ["Show.720p.E01.mkv: ETIMEDOUT"] None)) None)
    (trace (snd (endSequence codeUnitCompare
                   (rejects_document "file-2" "ETIMEDOUT")
                   (command_message 7)
                   (world_with 7
                      (Build_Session
                         [show_480p_E02; show_720p_E01; show_480p_E01] 0 0)
                      5000)))).
Proof. vm_compute. tauto. Qed.

Lemma close_when_all_resolves_witness :
  let localeCompare := codeUnitCompare in
  let outcome := always_resolves in
  let msg := command_message 7 in
  let s := Build_Session [show_480p_E02; show_720p_E01; show_480p_E01] 0 0 in
  let w := world_with_statistics 7 s (Build_UserDoc (Some 10) None None)
             5000 in
  (forall k c, outcome k c = None) /\
  userFileSequences w !! from_id msg = Some s /\
  files s <> [] /\
  Forall has_media (files s) /\
  let uid := from_id msg in
  let n := Z.of_nat (length (files s)) in
  let r := endSequence localeCompare outcome msg w in
  fst r = Ok tt /\
  userFileSequences (snd r) = delete uid (userFileSequences w) /\
  exists evs date,
    let doc := statistics_doc (usersCollection w !! uid) n date in
    trace (snd r)
    = trace w
      ++ Called (CtxReply (StartingToSequence n)) None
      :: evs
      ++ [Called (CtxReply (SequencingCompleted n n None [] None)) None;
          Called (FindOne uid) None;
          Called (UpdateOne uid doc) None] /\
    sends evs
    = omap send_of (sort_by (compareItems localeCompare) (files s)) /\
    attempts evs = n + (if n >? 50 then (n + 49) / 50 else 0) /\
    clock w <= date <= clock (snd r) /\
    usersCollection (snd r) = alter (fun _ => doc) uid (usersCollection w).
Proof.
  intros localeCompare outcome msg s w.
  assert (H0 : forall k c, outcome k c = None) by reflexivity.
  assert (H1 : userFileSequences w !! from_id msg = Some s) by reflexivity.
  assert (H2 : files s <> []) by discriminate.
  assert (H3 : Forall has_media (files s))
    by (repeat constructor; eexists; reflexivity).
  split; [exact H0|]. split; [exact H1|]. split; [exact H2|].
  split; [exact H3|].
  exact (close_when_all_resolves localeCompare outcome H0 msg w s H1 H2 H3).
Defined.

(** ** A whole conversation *)

Section LifeCycle.

Variable localeCompare : string -> string -> Z.
Variable outcome : nat -> Call -> option Error.
Hypothesis outcome_resolves : forall k c, outcome k c = None.

Lemma acknowledgement_no_send k : is_send (acknowledgement k) = false.
Proof.
  unfold acknowledgement.
  by destruct ((k mod CONFIG.PROGRESS_UPDATE_INTERVAL =? 0) || (k <=? 5)).
Qed.

Lemma sends_call c rejected evs :
  is_send c = false -> sends (Called c rejected :: evs) = sends evs.
Proof.
  intros Hc. destruct rejected; [done|].
  unfold sends. cbn [resolved]. rewrite filter_cons.
  by destruct (decide (is_send c = true)); [congruence|].
Qed.

Lemma ingested_media msg t file w :
  msg_field msg t = Some file -> has_media (ingested msg t file w).
Proof. intros H. unfold has_media. simpl. by eapply msg_field_media. Qed.

Lemma run_cons w u us :
  run localeCompare outcome w (u :: us)
  = run localeCompare outcome (step localeCompare outcome w u) us.
Proof. reflexivity. Qed.

Lemma run_app w us us' :
  run localeCompare outcome w (us ++ us')
  = run localeCompare outcome (run localeCompare outcome w us) us'.
Proof. unfold run. apply fold_left_app. Qed.

(** The files of a user with a session and room for them are all added,
    in the order of their coming. *)
Lemma ingest_run uid l w s :
  userFileSequences w !! uid = Some s ->
  Forall (file_from uid) l ->
  Z.of_nat (length (files s)) + Z.of_nat (length l)
    <= CONFIG.MAX_FILES_PER_USER ->
  let w' := run localeCompare outcome w (file_updates l) in
  exists s' items evs,
    userFileSequences w' !! uid = Some s' /\
    files s' = files s ++ items /\
    Forall2 item_of l items /\
    Forall has_media items /\
    trace w' = trace w ++ evs /\
    sends evs = [] /\
    usersCollection w' = usersCollection w /\
    forall other,
      other <> uid ->
      userFileSequences w' !! other = userFileSequences w !! other.
Proof.
  revert w s. induction l as [|[t m] l IH]; intros w s Hs Hl Hroom.
  - exists s, [], []. simpl. rewrite !app_nil_r.
    repeat split; try done; constructor.
  - apply Forall_cons in Hl as [[Hfrom [file Hfile]] Hl].
    simpl in Hfrom, Hfile. subst uid.
    cbn [length] in Hroom. rewrite Nat2Z.inj_succ in Hroom.
    cbn [file_updates map fst snd]. fold (file_updates l).
    rewrite run_cons. unfold step. cbn [handle].
    rewrite (processFileSequence_accept_run outcome m t w s file Hs Hfile
               ltac:(lia)).
    rewrite outcome_resolves. cbn [snd].
    set (x := ingested m t file w).
    set (s1 := Build_Session (files s ++ [x]) (startTime s) (clock w)).
    set (ack := acknowledgement (Z.of_nat (length (files s)) + 1)).
    match goal with
    | |- context [run _ _ ?w0 (file_updates l)] => set (w1 := w0)
    end.
    assert (Hs1 : userFileSequences w1 !! from_id m = Some s1)
      by (unfold w1; simpl; apply lookup_insert_eq).
    destruct (IH w1 s1 Hs1 Hl) as (s' & items & evs & H1 & H2 & H3 & H4 & H5
                                   & H6 & H7 & H8).
    { unfold s1. cbn [files]. rewrite length_app, Nat2Z.inj_add. simpl. lia. }
    exists s', (x :: items), (Called ack None :: evs).
    split; [exact H1|].
    split; [rewrite H2; unfold s1; cbn [files]; by rewrite <- app_assoc|].
    split; [constructor; [done | exact H3]|].
    split; [constructor; [by apply ingested_media | exact H4]|].
    split; [rewrite H5; unfold w1; simpl; by rewrite <- app_assoc|].
    split; [rewrite sends_call; [exact H6 | apply acknowledgement_no_send]|].
    split; [by rewrite H7|].
    intros other Hother. rewrite (H8 other Hother).
    unfold w1. simpl. by apply lookup_insert_ne.
Qed.

(** X16: a whole conversation in which every call resolves. A user
    without session who sends [/ssequence], then up to 200 files, then
    [/esequence], gets every one of these files back once, in the sorted
    order, and has no session afterwards; the sessions of the other users
    are left as they were. *)
Theorem conversation_returns_every_file (uid : Z)
    (l : list (FileType * Message)) (w : World) :
  userFileSequences w !! uid = None ->
  l <> [] ->
  Z.of_nat (length l) <= CONFIG.MAX_FILES_PER_USER ->
  Forall (file_from uid) l ->
  let w' := run localeCompare outcome w (conversation uid l) in
  userFileSequences w' !! uid = None /\
  (forall other,
     other <> uid ->
     userFileSequences w' !! other = userFileSequences w !! other) /\
  exists items evs,
    Forall2 item_of l items /\
    trace w' = trace w ++ evs /\
    sends evs = omap send_of (sort_by (compareItems localeCompare) items) /\
    length (sends evs) = length l.
Proof.
  intros Hnone Hne Hmax Hl. cbv zeta.
  unfold conversation. rewrite run_cons, run_app, run_cons.
  change (run localeCompare outcome ?x []) with x.
  assert (Hstart :
            step localeCompare outcome w (Command_ssequence (command_message uid))
            = after_call
                (mkWorld
                   (<[uid := Build_Session [] (clock w) (clock w)]>
                      (userFileSequences w))
                   (usersCollection w) (clock w) (calls w) (trace w))
                (CtxReply (SequencingStarted CONFIG.MAX_FILES_PER_USER)) None).
  { unfold step. cbn [handle].
    rewrite (ssequence_fresh outcome (command_message uid) w Hnone).
    by rewrite reply_run, outcome_resolves. }
  rewrite Hstart. clear Hstart.
  match goal with
  | |- context [run _ _ ?x (file_updates l)] => set (w0 := x)
  end.
  set (s0 := Build_Session [] (clock w) (clock w)).
  assert (Hs0 : userFileSequences w0 !! uid = Some s0)
    by (unfold w0; simpl; apply lookup_insert_eq).
  destruct (ingest_run uid l w0 s0 Hs0 Hl ltac:(simpl; lia))
    as (s' & items & evs & H1 & H2 & H3 & H4 & H5 & H6 & H7 & H8).
  cbv zeta in H1, H5, H7, H8.
  set (w1 := run localeCompare outcome w0 (file_updates l)) in *.
  simpl in H2.
  assert (Hlen : length items = length l)
    by (symmetry; by eapply Forall2_length).
  assert (Hne' : files s' <> []).
  { rewrite H2. intros ->. destruct l; [done|discriminate]. }
  assert (Hm : Forall has_media (files s')) by by rewrite H2.
  unfold step. cbn [handle].
  destruct (close_sends_all_resolve localeCompare outcome outcome_resolves
              (command_message uid) w1 s' H1 Hne' Hm)
    as (Hsess & evs' & Htr & Hsends).
  cbn [from_id command_message] in Hsess.
  split; [rewrite Hsess; apply lookup_delete_eq|].
  split.
  { intros other Hother.
    rewrite Hsess, lookup_delete_ne, (H8 other Hother) by done.
    unfold w0. simpl. by apply lookup_insert_ne. }
  rewrite H2 in Hsends.
  set (evs_all :=
         Called (CtxReply (SequencingStarted CONFIG.MAX_FILES_PER_USER)) None
           :: evs ++ evs').
  assert (Hall : sends evs_all
                 = omap send_of (sort_by (compareItems localeCompare) items)).
  { unfold evs_all.
    by rewrite sends_cons_reply, sends_app, H6, app_nil_l. }
  exists items, evs_all.
  split; [exact H3|].
  split.
  { rewrite Htr, H5. unfold evs_all, w0. simpl.
    rewrite <- !app_assoc. reflexivity. }
  split; [exact Hall|].
  rewrite Hall, omap_send_of_length by by apply sorted_media.
  by rewrite sort_by_length.
Qed.

End LifeCycle.

Lemma conversation_returns_every_file_witness :
  let localeCompare := codeUnitCompare in
  let outcome := always_resolves in
  let uid := 7 in
  let l := [(document, document_message 7 "file-1" (Some "Show.480p.E02.mkv"));
            (document, document_message 7 "file-2" (Some "Show.720p.E01.mkv"));
            (document, document_message 7 "file-3" (Some "Show.480p.E01.mkv"))] in
  let w := initial_world 1000 in
  (forall k c, outcome k c = None) /\
  userFileSequences w !! uid = None /\
  l <> [] /\
  Z.of_nat (length l) <= CONFIG.MAX_FILES_PER_USER /\
  Forall (file_from uid) l /\
  let w' := run localeCompare outcome w (conversation uid l) in
  userFileSequences w' !! uid = None /\
  (forall other,
     other <> uid ->
     userFileSequences w' !! other = userFileSequences w !! other) /\
  exists items evs,
    Forall2 item_of l items /\
    trace w' = trace w ++ evs /\
    sends evs = omap send_of (sort_by (compareItems localeCompare) items) /\
    length (sends evs) = length l.
Proof.
  intros localeCompare outcome uid l w.
  assert (H0 : forall k c, outcome k c = None) by reflexivity.
  assert (H1 : userFileSequences w !! uid = None) by reflexivity.
  assert (H2 : l <> []) by discriminate.
  assert (H3 : Z.of_nat (length l) <= CONFIG.MAX_FILES_PER_USER)
    by (unfold CONFIG.MAX_FILES_PER_USER; simpl; lia).
  assert (H4 : Forall (file_from uid) l)
    by (repeat (constructor; [split; [reflexivity | eexists; reflexivity]|]);
        constructor).
  split; [exact H0|]. split; [exact H1|]. split; [exact H2|].
  split; [exact H3|]. split; [exact H4|].
  exact (conversation_returns_every_file localeCompare outcome H0 uid l w
           H1 H2 H3 H4).
Defined.

(** The files of the witness come back by quality, then by episode. *)
Example conversation_example :
  sends
    (trace
       (run codeUnitCompare always_resolves (initial_world 1000)
          (conversation 7
             [(document,
               document_message 7 "file-1" (Some "Show.480p.E02.mkv"));
              (document,
               document_message 7 "file-2" (Some "Show.720p.E01.mkv"));
              (document,
               document_message 7 "file-3" (Some "Show.480p.E01.mkv"))])))
  = [ReplyWithDocument "file-3" ""; ReplyWithDocument "file-1" "";
     ReplyWithDocument "file-2" ""].
Proof. vm_compute. reflexivity. Qed.
